(** * acods_vis: regions, sub-regions and windowed densities

    A shallow embedding of the region geometry of [Src/awapRegion.py] and
    [Src/awapIO.py] and of the windowed density / Kullback-Leibler code of
    [Apps/tdpdfs-From-DataCubes.py].

    Numbers.  Python integers are [Z] (Python 2 [/] on integers is floor
    division, which is [Z.div] for a positive divisor); array indices
    returned by [numpy.where] are [nat].  Grid coordinates and raster
    values are Python floats: they are idealised as exact rationals [Q]
    (comparisons by [Qle_bool], [Qeq_bool]), and the densities of the
    Kullback-Leibler code as reals [R] so that [log2] is the real
    logarithm.  Rounding, infinities and NaN are outside both models.

    Exceptions.  A Python call either returns or raises: [result A]. *)

From Stdlib Require Import String.
From Stdlib Require Import List Bool Arith ZArith QArith Qabs Lia Lqa.
From Stdlib Require Import Reals Lra.
From Stdlib Require Import Ascii Permutation Sorted.
Import ListNotations.

Close Scope R_scope.
Close Scope Q_scope.
Open Scope nat_scope.

Set Implicit Arguments.

(** ** Python: exceptions as results *)

Module Py.

Inductive exn : Type :=
| ValueError       (* reduction of a zero-size array, bad reshape *)
| IndexError       (* subscript out of range *)
| AttributeError   (* attribute never assigned *)
| SystemExit.      (* sys.exit() *)

Inductive result (A : Type) : Type :=
| OK (a : A)
| Raise (e : exn).

Arguments OK {A} a.
Arguments Raise {A} e.

Definition bind {A B} (r : result A) (k : A -> result B) : result B :=
  match r with
  | OK a => k a
  | Raise e => Raise e
  end.

Definition returns {A} (r : result A) : bool :=
  match r with OK _ => true | Raise _ => false end.

(** [l[i]] for a non-negative index. *)
Definition getitem {A} (l : list A) (i : nat) : result A :=
  match nth_error l i with
  | Some x => OK x
  | None => Raise IndexError
  end.

(** [l[0]] and [l[-1]]. *)
Definition first {A} (l : list A) : result A :=
  match l with
  | [] => Raise IndexError
  | x :: _ => OK x
  end.

Fixpoint last {A} (l : list A) : result A :=
  match l with
  | [] => Raise IndexError
  | [x] => OK x
  | _ :: t => last t
  end.

(** [l[a:b]] for non-negative bounds. *)
Definition slice {A} (l : list A) (a b : nat) : list A :=
  firstn (b - a) (skipn a l).

(** [range(0, n)]. *)
Definition range0 (n : Z) : list Z :=
  map Z.of_nat (seq 0 (Z.to_nat n)).

End Py.

Import Py.

Declare Scope py_scope.
Delimit Scope py_scope with py.
Notation "x <- c ;; k" := (Py.bind c (fun x => k))
  (at level 61, c at next level, right associativity) : py_scope.
Notation "'ret' x" := (Py.OK x) (at level 60) : py_scope.

(** ** The parts of NumPy the code calls *)

Module np.

Local Open Scope Q_scope.

(** [numpy.linspace(start, stop, num)] with the end point included: [num]
    evenly spaced samples, the last one set to [stop]. *)
Definition linspace (start stop : Q) (num : Z) : list Q :=
  match Z.to_nat num with
  | O => []
  | S O => [start]
  | S div =>
      let step := (stop - start) / inject_Z (Z.of_nat div) in
      map (fun i => inject_Z (Z.of_nat i) * step + start) (seq 0 div)
        ++ [stop]
  end.

(** Indices of the [true] entries of a boolean vector, in increasing
    order: [numpy.where(c)[0]] for one-dimensional [c]. *)
Fixpoint where1_from (off : nat) (c : list bool) : list nat :=
  match c with
  | [] => []
  | b :: t => (if b then [off] else []) ++ where1_from (S off) t
  end.

Definition where1 (c : list bool) : list nat := where1_from 0 c.

(** [numpy.where(c)] for a two-dimensional [c]: the (row, column) pairs
    of the [true] entries in row-major order; [where(c)[0]] is the list
    of first components and [where(c)[1]] the list of second ones. *)
Fixpoint where2_from (off : nat) (c : list (list bool)) : list (nat * nat) :=
  match c with
  | [] => []
  | r :: t => map (fun j => (off, j)) (where1 r) ++ where2_from (S off) t
  end.

Definition where2 (c : list (list bool)) : list (nat * nat) := where2_from 0 c.

Definition where2_rows (c : list (list bool)) : list nat := map fst (where2 c).
Definition where2_cols (c : list (list bool)) : list nat := map snd (where2 c).

(** [a.min()] and [a.max()] of an index array; a zero-size array has no
    identity for the reduction and NumPy raises [ValueError]. *)
Definition amin (l : list nat) : result nat :=
  match l with
  | [] => Raise ValueError
  | x :: t => OK (fold_left Nat.min t x)
  end.

Definition amax (l : list nat) : result nat :=
  match l with
  | [] => Raise ValueError
  | x :: t => OK (fold_left Nat.max t x)
  end.

(** [a[r0:r1, c0:c1]]. *)
Definition slice2 {A} (a : list (list A)) (r0 r1 c0 c1 : nat) : list (list A) :=
  map (fun row => slice row c0 c1) (slice a r0 r1).

(** [a.shape = (rows, cols)] on a flat array. *)
Fixpoint chunks {A} (n : nat) (cols : nat) (l : list A) : list (list A) :=
  match n with
  | O => []
  | S n' => firstn cols l :: chunks n' cols (skipn cols l)
  end.

Definition reshape {A} (l : list A) (rows cols : Z) : result (list (list A)) :=
  if ((0 <=? rows)%Z && (0 <=? cols)%Z
      && (Z.of_nat (length l) =? rows * cols)%Z)%bool
  then OK (chunks (Z.to_nat rows) (Z.to_nat cols) l)
  else Raise ValueError.

End np.

(** ** numpy.ma: masked arrays *)

Module ma.

Local Open Scope Q_scope.

(** A two-dimensional masked array: the stored values, and for each cell
    whether it is masked ([true]) or valid ([false]).  The mask is kept
    as a full array of the shape of the data, also when no cell is
    masked. *)
Record MaskedArray : Type := mkMA {
  data : list (list Q);
  mask : list (list bool);
  fill_value : Q
}.

Definition _get_data (a : MaskedArray) : list (list Q) := data a.
Definition _get_mask (a : MaskedArray) : list (list bool) := mask a.

Definition masked_array (d : list (list Q)) (m : list (list bool)) (fv : Q)
  : MaskedArray := mkMA d m fv.

Definition atol : Q := 1 # 100000000.
Definition rtol : Q := 1 # 100000.

(** [ma.masked_values(x, value)]: masks the cells whose value is within
    the default tolerances of [value]. *)
Definition close_to (value x : Q) : bool :=
  Qle_bool (Qabs (x - value)) (atol + rtol * Qabs value).

Definition masked_values (x : list (list Q)) (value : Q) : MaskedArray :=
  mkMA x (map (map (close_to value)) x) value.

Definition count_true (l : list bool) : nat :=
  length (filter (fun b => b) l).

Definition count_false (l : list bool) : nat :=
  length (filter negb l).

(** [ma.count(a)]: the number of unmasked cells. *)
Definition count (a : MaskedArray) : nat :=
  list_sum (map count_false (mask a)).

(** [a == v] as [numpy.where] sees it: the entry of a masked cell is
    false, the entry of a valid cell tells whether its value equals
    [v]. *)
Definition eq_row (v : Q) (d : list Q) (m : list bool) : list bool :=
  map (fun dm => negb (snd dm) && Qeq_bool (fst dm) v)%bool (combine d m).

Definition eq_scalar (a : MaskedArray) (v : Q) : list (list bool) :=
  map (fun dm => eq_row v (fst dm) (snd dm)) (combine (data a) (mask a)).

(** [d != v] on a plain array. *)
Definition ne_scalar (d : list (list Q)) (v : Q) : list (list bool) :=
  map (map (fun x => negb (Qeq_bool x v))) d.

End ma.

(** ** Src/awapIO.py *)

Module awapIO.

Import np ma.
Local Open Scope Q_scope.

(** The header dictionary returned by [readAWAP_hdr]. *)
Record HeaderDict : Type := mkHeader {
  ncols : Z;
  nrows : Z;
  xllcorner : Q;
  yllcorner : Q;
  cellsize : Q;
  nodata_value : Q;
  byteorder : string;
  fileNameStem : string
}.

(** [getLats(HeaderDict, Reverse=True)]. *)
Definition getLats (h : HeaderDict) (Reverse : bool) : list Q :=
  let numLats := nrows h in
  let minLat := yllcorner h in
  let dLat := cellsize h in
  let maxLat := inject_Z numLats * dLat + minLat in
  let firstLat := minLat + (1 # 2) * dLat in
  let lastLat := firstLat + inject_Z (numLats - 1) * dLat in
  let lats := linspace firstLat lastLat numLats in
  if Reverse then rev lats else lats.

(** [getLons(HeaderDict)]. *)
Definition getLons (h : HeaderDict) : list Q :=
  let numLons := ncols h in
  let minLon := xllcorner h in
  let dLon := cellsize h in
  let maxLon := inject_Z numLons * dLon + minLon in
  let firstLon := minLon + (1 # 2) * dLon in
  let lastLon := firstLon + inject_Z (numLons - 1) * dLon in
  linspace firstLon lastLon numLons.

(** [readAWAP_flt(HeaderDict)]: [fltFile] is the content of the [.flt]
    file, which the function reads with [numpy.fromfile]. *)
Definition readAWAP_flt (h : HeaderDict) (fltFile : list Q)
  : result MaskedArray :=
  let fieldData := fltFile in
  let numLats := nrows h in
  let numLons := ncols h in
  (fieldData2 <- reshape fieldData numLats numLons ;;
   let missingFlag := nodata_value h in
   ret (masked_values fieldData2 missingFlag))%py.

End awapIO.

(** ** Src/awapRegion.py *)

Module awapRegion.

Import np ma awapIO.
Local Open Scope Q_scope.
Local Open Scope py_scope.

(** Roundoff tolerance used for latitude and longitude comparisons. *)
Definition epsilon : Q := 1 # 1000000.

Definition float (k : Z) : Q := inject_Z k.

Definition Qlt_bool (a b : Q) : bool := negb (Qle_bool b a).

(** Reading an attribute that may never have been assigned. *)
Definition getattr {A} (a : option A) : result A :=
  match a with
  | Some x => OK x
  | None => Raise AttributeError
  end.

(** The attributes of a [Region] instance.  [reversedLats] and
    [subRegionFlags] are assigned on some paths of the constructor only,
    hence the options.  The [objectID] (a memory address) is left out. *)
Record Region : Type := mkRegion {
  name : string;
  regionType : string;
  subRegionLevel : Z;
  numLats : Z;
  numLons : Z;
  dLat : Q;
  dLon : Q;
  minLat : Q;
  minLon : Q;
  maxLat : Q;
  maxLon : Q;
  missingFlag : Q;
  lats : list Q;
  lons : list Q;
  reversedLats : option bool;
  topoMask : MaskedArray;
  numUnmaskedPoints : nat;
  hasSubRegionDefs : bool;
  subRegionFlags : option (list (string * Z))
}.

(** [class SubRegion(Region)]: the inherited attributes and the ones the
    sub-class adds. *)
Record SubRegion : Type := mkSubRegion {
  base :> Region;
  parentName : string;
  parentRegType : string;
  regionID : Z;
  parentMinLatIndex : nat;
  parentMaxLatIndex : nat;
  parentLatStart : nat;
  parentLatStop : nat;
  parentMinLonIndex : nat;
  parentLonStart : nat;
  parentMaxLonIndex : nat;
  parentLonStop : nat
}.

Definition descriptor (s : option string) : string :=
  match s with
  | Some x => x
  | None => "NONE"%string
  end.

(** [Region.__init__].  [fltFile] and [lutFile] are the contents of the
    mask file and of the look-up table file named by the header. *)
Definition Region_init (h : HeaderDict) (fltFile : list Q)
    (lutFile : list (string * Z)) (RegionName RegionType : option string)
    (SetSubRegionTable : bool) : result Region :=
  let name := descriptor RegionName in
  let regionType := descriptor RegionType in
  let subRegionLevel := 0%Z in
  let numLats := nrows h in
  let numLons := ncols h in
  let dLat := cellsize h in
  let dLon := cellsize h in
  let minLat := yllcorner h in
  let minLon := xllcorner h in
  let missingFlag := nodata_value h in
  let maxLat := inject_Z numLats * dLat + minLat in
  let maxLon := inject_Z numLons * dLon + minLon in
  let lats := getLats h true in
  let lons := getLons h in
  lats_last <- last lats ;;
  lats_0 <- first lats ;;
  let reversedLats := if Qlt_bool lats_last lats_0 then Some true else None in
  topoMask <- readAWAP_flt h fltFile ;;
  let numUnmaskedPoints := ma.count topoMask in
  let subRegionFlags := if SetSubRegionTable then Some lutFile else None in
  let hasSubRegionDefs := if SetSubRegionTable then true else false in
  ret (mkRegion name regionType subRegionLevel numLats numLons dLat dLon
         minLat minLon maxLat maxLon missingFlag lats lons reversedLats
         topoMask numUnmaskedPoints hasSubRegionDefs subRegionFlags).

(** [Region.getSubRegionNames] and [Region.getSubRegionIDs]. *)
Definition getSubRegionNames (self : Region) : result (list string) :=
  if hasSubRegionDefs self
  then flags <- getattr (subRegionFlags self) ;; ret (map fst flags)
  else Raise SystemExit.

Definition getSubRegionIDs (self : Region) : result (list Z) :=
  if hasSubRegionDefs self
  then flags <- getattr (subRegionFlags self) ;; ret (map snd flags)
  else Raise SystemExit.

(** The four edges of a sub-region, in the order the constructor assigns
    them. *)
Record Edges : Type := mkEdges {
  e_minLon : Q;
  e_minLat : Q;
  e_maxLon : Q;
  e_maxLat : Q
}.

(** [SubRegion.__init__], lines 210-214: the bounding box is supplied. *)
Definition edges_from_box (P : Region) (BoundingBox : list Q) : result Edges :=
  b0 <- getitem BoundingBox 0 ;;
  b1 <- getitem BoundingBox 1 ;;
  b2 <- getitem BoundingBox 2 ;;
  b3 <- getitem BoundingBox 3 ;;
  ret (mkEdges (b0 - dLon P - epsilon) (b1 - dLat P - epsilon)
               (b2 + dLon P + epsilon) (b3 + dLat P + epsilon)).

(** [SubRegion.__init__], lines 215-233: the bounding box is derived from
    the cells of the parent's mask that equal [RegFlag]. *)
Definition edges_from_mask (P : Region) (RegFlag : Z) (reversed : bool)
  : result Edges :=
  let hits := eq_scalar (topoMask P) (float RegFlag) in
  minLonIndex <- amin (where2_cols hits) ;;
  lon_lo <- getitem (lons P) minLonIndex ;;
  let minLon := lon_lo - (1 # 2) * dLon P in
  maxLonIndex <- amax (where2_cols hits) ;;
  lon_hi <- getitem (lons P) maxLonIndex ;;
  let maxLon := lon_hi + (1 # 2) * dLon P in
  minLatIndex <- (if reversed then amax (where2_rows hits)
                  else amin (where2_rows hits)) ;;
  maxLatIndex <- (if reversed then amin (where2_rows hits)
                  else amax (where2_rows hits)) ;;
  lat_lo <- getitem (lats P) minLatIndex ;;
  let minLat := lat_lo - (1 # 2) * dLat P in
  lat_hi <- getitem (lats P) maxLatIndex ;;
  let maxLat := lat_hi + (1 # 2) * dLat P in
  ret (mkEdges minLon minLat maxLon maxLat).

(** [numpy.where(axis >= lo)[0]] and [numpy.where(axis <= hi)[0]]. *)
Definition where_ge (axis : list Q) (lo : Q) : list nat :=
  where1 (map (fun x => Qle_bool lo x) axis).

Definition where_le (axis : list Q) (hi : Q) : list nat :=
  where1 (map (fun x => Qle_bool x hi) axis).

(** [SubRegion.__init__]. *)
Definition SubRegion_init (ParentRegion : Region) (RegFlag : Z)
    (BoundingBox : option (list Q)) (RegionName RegionType : option string)
  : result SubRegion :=
  let P := ParentRegion in
  let name := descriptor RegionName in
  let regionType := descriptor RegionType in
  let parentName := awapRegion.name P in
  let parentRegType := awapRegion.regionType P in
  let dLon := awapRegion.dLon P in
  let dLat := awapRegion.dLat P in
  let missingFlag := awapRegion.missingFlag P in
  reversedLats <- getattr (awapRegion.reversedLats P) ;;
  let subRegionLevel := (awapRegion.subRegionLevel P + 1)%Z in
  let regionID := RegFlag in
  e <- match BoundingBox with
       | Some B => edges_from_box P B
       | None => edges_from_mask P RegFlag reversedLats
       end ;;
  let minLon := e_minLon e in
  let minLat := e_minLat e in
  let maxLon := e_maxLon e in
  let maxLat := e_maxLat e in
  parentMinLatIndex <- (if reversedLats
                        then last (where_ge (lats P) minLat)
                        else first (where_ge (lats P) minLat)) ;;
  parentMaxLatIndex <- (if reversedLats
                        then first (where_le (lats P) maxLat)
                        else last (where_le (lats P) maxLat)) ;;
  let parentLatStart :=
    if reversedLats then parentMaxLatIndex else parentMinLatIndex in
  let parentLatStop :=
    if reversedLats then S parentMinLatIndex else S parentMaxLatIndex in
  let numLats := (Z.of_nat parentLatStop - Z.of_nat parentLatStart)%Z in
  let lats := slice (awapRegion.lats P) parentLatStart parentLatStop in
  parentMinLonIndex <- first (where_ge (lons P) minLon) ;;
  let parentLonStart := parentMinLonIndex in
  parentMaxLonIndex <- last (where_le (lons P) maxLon) ;;
  let parentLonStop := S parentMaxLonIndex in
  let numLons := (Z.of_nat parentLonStop - Z.of_nat parentLonStart)%Z in
  let lons := slice (awapRegion.lons P) parentLonStart parentLonStop in
  let regionIDs :=
    slice2 (_get_data (awapRegion.topoMask P))
           parentLatStart parentLatStop parentLonStart parentLonStop in
  let regionTopoMask :=
    slice2 (_get_mask (awapRegion.topoMask P))
           parentLatStart parentLatStop parentLonStart parentLonStop in
  let topoMask :=
    masked_array regionIDs (ne_scalar regionIDs (float regionID)) missingFlag in
  let numUnmaskedPoints := ma.count topoMask in
  let hasSubRegionDefs := false in
  ret (mkSubRegion
         (mkRegion name regionType subRegionLevel numLats numLons dLat dLon
            minLat minLon maxLat maxLon missingFlag lats lons
            (Some reversedLats) topoMask numUnmaskedPoints hasSubRegionDefs
            None)
         parentName parentRegType regionID
         parentMinLatIndex parentMaxLatIndex parentLatStart parentLatStop
         parentMinLonIndex parentLonStart parentMaxLonIndex parentLonStop).

End awapRegion.

(** ** Apps/tdpdfs-From-DataCubes.py *)

Module tdpdfs.

Local Open Scope py_scope.

(** *** The window loop (lines 124-147)

    The script fixes [win_size = 90] and [win_slide = 3]; they are taken
    as arguments here so that other widths and strides can be stated.
    The divisor in [num_wins] is the literal [3] of the source. *)

Definition win_size : Z := 90.
Definition win_slide : Z := 3.

Definition num_wins (num_times win_size : Z) : Z :=
  (1 + (num_times - win_size) / 3)%Z.

(** [start] and [stop] of window [win]. *)
Definition window (win_size win_slide win : Z) : Z * Z :=
  let offset := (win_slide * win)%Z in
  let start := offset in
  let stop := (offset + win_size)%Z in
  (start, stop).

(** The window positions visited by [for win in range(0, num_wins)]. *)
Definition windows (num_times win_size win_slide : Z) : list (Z * Z) :=
  map (window win_size win_slide) (range0 (num_wins num_times win_size)).

(** [samp2D[:, start:stop]] for non-negative bounds. *)
Definition win_sample {A} (samp2D : list (list A)) (w : Z * Z) : list (list A) :=
  map (fun row => slice row (Z.to_nat (fst w)) (Z.to_nat (snd w))) samp2D.

(** *** Kullback-Leibler divergence (lines 16-36, 192-202) *)

Local Open Scope R_scope.

Definition log2 (x : R) : R := ln x / ln 2.

(** One pass of the body of the loop of [compute_KLD]. *)
Definition kld_step (p q : list R) (dx : R) (kld : R) (i : nat) : R :=
  let p_i := nth i p 0 in
  let q_i := nth i q 0 in
  if Rle_dec p_i 0 then kld
  else if Rle_dec q_i 0 then kld
  else kld + p_i * log2 (p_i / q_i) * dx.

(** [compute_KLD(p, q, dx)]. *)
Definition compute_KLD (p q : list R) (dx : R) : result R :=
  if negb (length p =? length q)%nat then Raise SystemExit
  else OK (fold_left (kld_step p q dx) (seq 0 (length p)) 0).

(** [p = (p + 1.e-8) / (1. + p.size * 1.e-8)]. *)
Definition smooth (p : list R) : list R :=
  map (fun x => (x + 1 / 10 ^ 8) / (1 + INR (length p) * (1 / 10 ^ 8))) p.

Fixpoint mapM {A B} (f : A -> result B) (l : list A) : result (list B) :=
  match l with
  | [] => OK []
  | x :: t => (y <- f x ;; ys <- mapM f t ;; ret (y :: ys))%py
  end.

(** The double loop filling [kld_values]: row [i] of [tdpdf_y] is
    smoothed and compared with every row [j] as stored. *)
Definition kld_values (tdpdf_y : list (list R)) (bin_width : R)
  : result (list (list R)) :=
  mapM (fun p_row =>
          let p := smooth p_row in
          mapM (fun q => compute_KLD p q bin_width) tdpdf_y)
       tdpdf_y.

(** The sum the specification writes for the divergence: the bins where
    both densities are positive contribute, the others contribute 0. *)
Definition kld_term (dx : R) (pq : R * R) : R :=
  let (p_b, q_b) := pq in
  if Rlt_dec 0 p_b then
    if Rlt_dec 0 q_b then p_b * log2 (p_b / q_b) * dx else 0
  else 0.

Definition kld_spec (p q : list R) (dx : R) : R :=
  fold_right Rplus 0 (map (kld_term dx) (combine p q)).

End tdpdfs.

(** ** Vocabulary of the statements *)

Module Props.

Import np ma awapIO awapRegion.
Local Open Scope Q_scope.

(** The centre of cell [i] along an axis whose first cell has its lower
    edge at [ll]. *)
Definition cell_center (ll cs : Q) (i : nat) : Q :=
  ll + (1 # 2) * cs + inject_Z (Z.of_nat i) * cs.

(** Entries strictly decrease, respectively increase, with the index. *)
Definition descending (l : list Q) : Prop :=
  forall i j x y, (i < j)%nat ->
    nth_error l i = Some x -> nth_error l j = Some y -> y < x.

Definition ascending (l : list Q) : Prop :=
  forall i j x y, (i < j)%nat ->
    nth_error l i = Some x -> nth_error l j = Some y -> x < y.

(** Neighbouring entries of an axis are at most [d] apart. *)
Definition steps_at_most (axis : list Q) (d : Q) : Prop :=
  forall i x y, nth_error axis i = Some x -> nth_error axis (S i) = Some y ->
    x - y <= d /\ y - x <= d.

(** Entry [(i, j)] of a two-dimensional array. *)
Definition at2 {A} (a : list (list A)) (i j : nat) : option A :=
  match nth_error a i with
  | Some row => nth_error row j
  | None => None
  end.

(** Cell [(i, j)] stores the value [v]. *)
Definition stores (d : list (list Q)) (v : Q) (i j : nat) : Prop :=
  exists x, at2 d i j = Some x /\ x == v.

(** Cell [(i, j)] of a masked array is valid and stores [v]. *)
Definition cell_is (a : MaskedArray) (v : Q) (i j : nat) : Prop :=
  stores (data a) v i j /\ at2 (mask a) i j = Some false.

(** The number of cells that store [v], and the number of valid cells
    of a masked array that store [v]. *)
Definition count_stored (d : list (list Q)) (v : Q) : nat :=
  list_sum (map (fun row => length (filter (fun x => Qeq_bool x v) row)) d).

Definition count_cells (a : MaskedArray) (v : Q) : nat :=
  list_sum
    (map (fun dm =>
            length (filter (fun xm => negb (snd xm) && Qeq_bool (fst xm) v)%bool
                           (combine (fst dm) (snd dm))))
         (combine (data a) (mask a))).

(** The raster of a region has one row per latitude and one column per
    longitude. *)
Definition grid_shape (P : Region) : Prop :=
  length (data (topoMask P)) = length (lats P)
  /\ Forall (fun row => length row = length (lons P)) (data (topoMask P)).

(** The mask of a region is the one [masked_values] computes from the
    stored values and the missing-data flag. *)
Definition mask_from_values (P : Region) : Prop :=
  mask (topoMask P)
    = map (map (close_to (missingFlag P))) (data (topoMask P)).

(** The same region at another level of the hierarchy. *)
Definition with_level (P : Region) (level : Z) : Region :=
  mkRegion (name P) (regionType P) level (numLats P) (numLons P)
    (dLat P) (dLon P) (minLat P) (minLon P) (maxLat P) (maxLon P)
    (missingFlag P) (lats P) (lons P) (reversedLats P) (topoMask P)
    (numUnmaskedPoints P) (hasSubRegionDefs P) (subRegionFlags P).

(** The same region with another mask over the same stored values. *)
Definition with_mask (P : Region) (m : list (list bool)) : Region :=
  mkRegion (name P) (regionType P) (subRegionLevel P) (numLats P) (numLons P)
    (dLat P) (dLon P) (minLat P) (minLon P) (maxLat P) (maxLon P)
    (missingFlag P) (lats P) (lons P) (reversedLats P)
    (mkMA (data (topoMask P)) m (fill_value (topoMask P)))
    (numUnmaskedPoints P) (hasSubRegionDefs P) (subRegionFlags P).

(** The last step of [SubRegion.__init__]: the instance assembled from
    the orientation, the edges and the four indices found in the
    parent's axes. *)
Definition assemble (P : Region) (RegFlag : Z)
    (RegionName RegionType : option string) (reversed : bool) (e : Edges)
    (iMinLat iMaxLat iMinLon iMaxLon : nat) : SubRegion :=
  let latStart := if reversed then iMaxLat else iMinLat in
  let latStop := if reversed then S iMinLat else S iMaxLat in
  let lonStart := iMinLon in
  let lonStop := S iMaxLon in
  let regionIDs :=
    slice2 (_get_data (topoMask P)) latStart latStop lonStart lonStop in
  let childMask :=
    masked_array regionIDs (ne_scalar regionIDs (float RegFlag))
                 (missingFlag P) in
  mkSubRegion
    (mkRegion (descriptor RegionName) (descriptor RegionType)
       (subRegionLevel P + 1)%Z
       (Z.of_nat latStop - Z.of_nat latStart)%Z
       (Z.of_nat lonStop - Z.of_nat lonStart)%Z
       (dLat P) (dLon P)
       (e_minLat e) (e_minLon e) (e_maxLat e) (e_maxLon e)
       (missingFlag P)
       (slice (lats P) latStart latStop) (slice (lons P) lonStart lonStop)
       (Some reversed) childMask (ma.count childMask) false None)
    (name P) (regionType P) RegFlag
    iMinLat iMaxLat latStart latStop iMinLon lonStart iMaxLon lonStop.

(** *** Sample grids *)

(** The 3 x 3 grid of the specification: unit cells, lower-left corner at
    the origin, row 0 northernmost. *)
Definition h3 : HeaderDict :=
  mkHeader 3 3 0 0 1 (-999 # 1) "LSBFIRST" "mask3".

Definition flt3 : list Q := [1; 1; 2; 1; 1; 2; 3; 3; 3].

(** A 2 x 2 grid with one missing cell. *)
Definition h2 : HeaderDict :=
  mkHeader 2 2 0 0 1 (-999 # 1) "LSBFIRST" "mask2".

Definition flt2 : list Q := [-999 # 1; 1; 1; 1].

(** A grid of a single row. *)
Definition h1 : HeaderDict :=
  mkHeader 2 1 0 0 1 (-999 # 1) "LSBFIRST" "mask1".

Definition flt1 : list Q := [1; 2].

(** The value a call returns, or [default] when it raises. *)
Definition returned {A} (r : result A) (default : A) : A :=
  match r with
  | OK a => a
  | Raise _ => default
  end.

Definition blank : Region :=
  mkRegion "" "" 0 0 0 0 0 0 0 0 0 0 [] [] None (mkMA [] [] 0) 0 false None.

(** The parent of the 3 x 3 grid as the constructor builds it, and the
    same raster on an ascending latitude axis. *)
Definition P3 : Region :=
  Eval vm_compute in returned (Region_init h3 flt3 [] None None false) blank.

Definition P3_ascending : Region :=
  mkRegion (name P3) (regionType P3) (subRegionLevel P3) (numLats P3)
    (numLons P3) (dLat P3) (dLon P3) (minLat P3) (minLon P3) (maxLat P3)
    (maxLon P3) (missingFlag P3) (rev (lats P3)) (lons P3) (Some false)
    (topoMask P3) (numUnmaskedPoints P3) (hasSubRegionDefs P3)
    (subRegionFlags P3).

Definition blank_child : SubRegion :=
  mkSubRegion blank "" "" 0 0 0 0 0 0 0 0 0.

(** Category 1 of [P3], derived automatically. *)
Definition S3 : SubRegion :=
  Eval vm_compute in returned (SubRegion_init P3 1 None None None) blank_child.

(** The parent of the 2 x 2 grid with a missing cell. *)
Definition P2 : Region :=
  Eval vm_compute in returned (Region_init h2 flt2 [] None None false) blank.

(** The missing-data value of [P2] used as a category id, inside a box
    around the whole grid. *)
Definition S2 : SubRegion :=
  Eval vm_compute in
    returned (SubRegion_init P2 (-999) (Some [0; 0; 2; 2]) None None) blank_child.

(** The parent of the single-row grid. *)
Definition P1 : Region :=
  Eval vm_compute in returned (Region_init h1 flt1 [] None None false) blank.

(** A density over 200 bins of width 1 with all its mass in the first and
    the last bin. *)
Definition two_spikes : list R :=
  ((1 / 2) :: repeat 0 198 ++ [1 / 2])%R.

(** The smoothed value of a bin of a density over 200 bins. *)
Definition smoothed_200 (x : R) : R :=
  ((x + 1 / 10 ^ 8) / (1 + 200 * (1 / 10 ^ 8)))%R.

End Props.

Import Props.

(** ** More vocabulary *)

Module MoreProps.

Import np ma awapIO awapRegion Props.
Local Open Scope Q_scope.

(** Entries never increase, respectively never decrease, with the
    index. *)
Definition nonincreasing (l : list Q) : Prop :=
  forall i j x y, (i <= j)%nat ->
    nth_error l i = Some x -> nth_error l j = Some y -> y <= x.

Definition nondecreasing (l : list Q) : Prop :=
  forall i j x y, (i <= j)%nat ->
    nth_error l i = Some x -> nth_error l j = Some y -> x <= y.

(** The latitude axis is ordered as the orientation flag says. *)
Definition lats_ordered (P : Region) (reversed : bool) : Prop :=
  if reversed then nonincreasing (lats P) else nondecreasing (lats P).

(** Later entries are at least [d] below, respectively above, earlier
    ones. *)
Definition steps_down_at_least (axis : list Q) (d : Q) : Prop :=
  forall i j x y, (i < j)%nat ->
    nth_error axis i = Some x -> nth_error axis j = Some y -> d <= x - y.

Definition steps_up_at_least (axis : list Q) (d : Q) : Prop :=
  forall i j x y, (i < j)%nat ->
    nth_error axis i = Some x -> nth_error axis j = Some y -> d <= y - x.

(** The latitudes are a cell apart or more, in the direction the
    orientation flag says. *)
Definition lats_spaced (P : Region) (reversed : bool) : Prop :=
  if reversed then steps_down_at_least (lats P) (dLat P)
  else steps_up_at_least (lats P) (dLat P).

(** [lo <= y <= hi]. *)
Definition in_box (lo hi y : Q) : bool :=
  (Qle_bool lo y && Qle_bool y hi)%bool.

(** The number of masked cells. *)
Definition count_masked (a : MaskedArray) : nat :=
  list_sum (map count_true (mask a)).

(** Every cell that stores [v] is valid. *)
Definition value_unmasked (a : MaskedArray) (v : Q) : Prop :=
  forall i j, stores (data a) v i j -> at2 (mask a) i j = Some false.

(** The sum of a vector of reals. *)
Definition total (p : list R) : R := fold_right Rplus 0%R p.

End MoreProps.

Import MoreProps.

(** ** More of Python: exceptions beyond those of the region code *)

Module PyMore.

Inductive exn : Type :=
| Std (e : Py.exn)      (* an exception of [Py.exn] *)
| KeyError              (* dictionary key not present *)
| UnboundLocalError.    (* local variable read before assignment *)

Inductive outcome (A : Type) : Type :=
| Returns (a : A)
| Raises (e : exn).

Arguments Returns {A} a.
Arguments Raises {A} e.

Definition bind {A B} (r : outcome A) (k : A -> outcome B) : outcome B :=
  match r with
  | Returns a => k a
  | Raises e => Raises e
  end.

Definition sys_exit {A} : outcome A := Raises (Std SystemExit).

Fixpoint mapM {A B} (f : A -> outcome B) (l : list A) : outcome (list B) :=
  match l with
  | [] => Returns []
  | x :: t =>
      bind (f x) (fun y => bind (mapM f t) (fun ys => Returns (y :: ys)))
  end.

(** A loop that appends the elements passing a test. *)
Fixpoint filterM {A} (f : A -> outcome bool) (l : list A) : outcome (list A) :=
  match l with
  | [] => Returns []
  | x :: t =>
      bind (f x) (fun keep =>
      bind (filterM f t) (fun r => Returns (if keep then x :: r else r)))
  end.

(** A loop that stops at the first candidate passing a test and binds a
    variable to it; [None] when the loop ends without binding it. *)
Fixpoint first_passing {A} (test : A -> outcome bool) (l : list A)
  : outcome (option A) :=
  match l with
  | [] => Returns None
  | x :: t =>
      bind (test x) (fun ok => if ok then Returns (Some x)
                               else first_passing test t)
  end.

(** Reading a local variable. *)
Definition local {A} (v : option A) : outcome A :=
  match v with
  | Some x => Returns x
  | None => Raises UnboundLocalError
  end.

(** [d[k]] on a dictionary with string keys, and with integer keys. *)
Fixpoint getitem_str {V} (d : list (string * V)) (k : string) : outcome V :=
  match d with
  | [] => Raises KeyError
  | (k', v) :: t => if String.eqb k' k then Returns v else getitem_str t k
  end.

Fixpoint getitem_int {V} (d : list (Z * V)) (k : Z) : outcome V :=
  match d with
  | [] => Raises KeyError
  | (k', v) :: t => if Z.eqb k' k then Returns v else getitem_int t k
  end.

(** [x in l] for a list of strings. *)
Definition contains (l : list string) (x : string) : bool :=
  existsb (String.eqb x) l.

(** [min(l)] and [max(l)] of a list of integers. *)
Definition min_of (l : list Z) : outcome Z :=
  match l with
  | [] => Raises (Std ValueError)
  | x :: t => Returns (fold_left Z.min t x)
  end.

Definition max_of (l : list Z) : outcome Z :=
  match l with
  | [] => Raises (Std ValueError)
  | x :: t => Returns (fold_left Z.max t x)
  end.

(** *** Strings *)

Definition isdigit (c : ascii) : bool :=
  ((48 <=? nat_of_ascii c) && (nat_of_ascii c <=? 57))%nat.

Fixpoint all_digits (s : string) : bool :=
  match s with
  | EmptyString => true
  | String c t => isdigit c && all_digits t
  end.

(** [s.lower()]. *)
Definition lower_char (c : ascii) : ascii :=
  if ((65 <=? nat_of_ascii c) && (nat_of_ascii c <=? 90))%nat
  then ascii_of_nat (nat_of_ascii c + 32)
  else c.

Fixpoint lower (s : string) : string :=
  match s with
  | EmptyString => EmptyString
  | String c t => String (lower_char c) (lower t)
  end.

(** [s[-a:-b]] and [s[-a:]] for positive [a] and [b]. *)
Definition slice_from_end (s : string) (a b : nat) : string :=
  let start := String.length s - a in
  let stop := String.length s - b in
  substring start (stop - start) s.

Definition tail_from_end (s : string) (a : nat) : string :=
  let start := String.length s - a in
  substring start (String.length s - start) s.

(** [s.endswith(e)]. *)
Definition endswith (s e : string) : bool :=
  (String.length e <=? String.length s)%nat
  && String.eqb (substring (String.length s - String.length e)
                           (String.length e) s) e.

(** [int(s)] for a string of decimal digits (the only strings the code
    converts); an empty string or another character is a [ValueError]. *)
Definition digit_value (c : ascii) : Z := Z.of_nat (nat_of_ascii c) - 48.

Fixpoint int_from (acc : Z) (s : string) : Z :=
  match s with
  | EmptyString => acc
  | String c t => int_from (10 * acc + digit_value c) t
  end.

Definition int (s : string) : outcome Z :=
  match s with
  | EmptyString => Raises (Std ValueError)
  | _ => if all_digits s then Returns (int_from 0 s)
         else Raises (Std ValueError)
  end.

(** [re.findall(r'\d{8}', s)]: the runs of eight digits found from left
    to right, without overlap.  [skip] is the number of characters still
    covered by the last match. *)
Definition starts_with_8_digits (s : string) : bool :=
  (String.length (substring 0 8 s) =? 8)%nat && all_digits (substring 0 8 s).

Fixpoint findall_d8_from (skip : nat) (s : string) : list string :=
  match s with
  | EmptyString => []
  | String c t =>
      match skip with
      | S k => findall_d8_from k t
      | O => if starts_with_8_digits s
             then substring 0 8 s :: findall_d8_from 7 t
             else findall_d8_from 0 t
      end
  end.

Definition findall_d8 (s : string) : list string := findall_d8_from 0 s.

(** [sorted(l, key=key)]: the keys are computed first, in order; the
    sort is stable and compares the keys as strings. *)
Fixpoint insert_by_key {A} (kx : string * A) (l : list (string * A))
  : list (string * A) :=
  match l with
  | [] => [kx]
  | ky :: t => if String.leb (fst kx) (fst ky) then kx :: ky :: t
               else ky :: insert_by_key kx t
  end.

Definition stable_sort {A} (l : list (string * A)) : list (string * A) :=
  fold_right insert_by_key [] l.

Definition sorted_by_key {A} (key : A -> outcome string) (l : list A)
  : outcome (list A) :=
  bind (mapM key l) (fun keys =>
  Returns (map snd (stable_sort (combine keys l)))).

End PyMore.

Declare Scope pymore_scope.
Delimit Scope pymore_scope with pymore.
Notation "x <- c ;; k" := (PyMore.bind c (fun x => k))
  (at level 61, c at next level, right associativity) : pymore_scope.

(** ** Src/awapIO.py: file names and dates *)

Module awapFiles.

Import PyMore.
Local Open Scope string_scope.
Local Open Scope pymore_scope.

Definition MonthAbbrs : list string :=
  ["jan"; "feb"; "mar"; "apr"; "may"; "jun";
   "jul"; "aug"; "sep"; "oct"; "nov"; "dec"].

Definition MonthAbbrToNum : list (string * Z) :=
  [("jan", 1); ("feb", 2); ("mar", 3); ("apr", 4);
   ("may", 5); ("jun", 6); ("jul", 7); ("aug", 8);
   ("sep", 9); ("oct", 10); ("nov", 11); ("dec", 12)]%Z.

Definition MonthNumToAbbr : list (Z * string) :=
  [(1, "jan"); (2, "feb"); (3, "mar"); (4, "apr");
   (5, "may"); (6, "jun"); (7, "jul"); (8, "aug");
   (9, "sep"); (10, "oct"); (11, "nov"); (12, "dec")]%Z.

(** [is_a_Month(MonthStr)]. *)
Definition is_a_Month (MonthStr : string) : bool :=
  if contains MonthAbbrs (lower MonthStr) then true else false.

(** [is_a_MonthNum(Num)] for an integer [Num]. *)
Definition is_a_MonthNum (Num : Z) : bool :=
  if ((0 <? Num) && (Num <? 13))%Z then true else false.

Definition SeasonAbbrs : list string := ["djf"; "mam"; "jja"; "son"].

Definition SeasonDict : list (string * list string) :=
  [("mam", ["mar"; "apr"; "may"]);
   ("jja", ["jun"; "jul"; "aug"]);
   ("son", ["sep"; "oct"; "nov"]);
   ("djf", ["dec"; "jan"; "feb"])].

(** [is_a_Season(SeasonStr)]. *)
Definition is_a_Season (SeasonStr : string) : bool :=
  if contains SeasonAbbrs (lower SeasonStr) then true else false.

(** [seasonToMonths(SeasonStr)]. *)
Definition seasonToMonths (SeasonStr : string) : outcome (list string) :=
  if is_a_Season SeasonStr
  then getitem_str SeasonDict (lower SeasonStr)
  else sys_exit.

(** [chop(InputString, Ending)]; [None] is Python's [None], returned
    when the function ends without a [return]. *)
Definition chop (InputString Ending : string) : option string :=
  if endswith InputString Ending
  then Some (match String.length Ending with
             | O => EmptyString
             | S _ => substring 0 (String.length InputString
                                   - String.length Ending) InputString
             end)
  else None.

(** [getYMD(Item)]. *)
Definition getYMD (Item : string) : outcome string :=
  let ymd_dates := findall_d8 Item in
  if (1 <? length ymd_dates)%nat then sys_exit
  else if (length ymd_dates =? 0)%nat then sys_exit
  else match ymd_dates with
       | d :: _ => Returns d
       | [] => Raises (Std IndexError)
       end.

(** [getDate], [getYear], [getMonth], [getDay]. *)
Definition getDate (FileName : string) : outcome Z :=
  ymd <- getYMD FileName ;; int ymd.

Definition getYear (FileName : string) : outcome Z :=
  dateString <- getYMD FileName ;; int (slice_from_end dateString 8 4).

Definition getMonth (FileName : string) : outcome Z :=
  dateString <- getYMD FileName ;; int (slice_from_end dateString 4 2).

Definition getDay (FileName : string) : outcome Z :=
  dateString <- getYMD FileName ;; int (tail_from_end dateString 2).

(** [getMonthAbbr(FileName)]. *)
Definition getMonthAbbr (FileName : string) : outcome string :=
  m <- getMonth FileName ;; getitem_int MonthNumToAbbr m.

(** [sortByDate(FileList)]. *)
Definition sortByDate (FileList : list string) : outcome (list string) :=
  sorted_by_key getYMD FileList.

(** [getEarliestDate(FileList)] and [getLatestDate(FileList)]. *)
Definition getEarliestDate (FileList : list string) : outcome Z :=
  dateList <- mapM (fun f => ymd <- getYMD f ;; int ymd) FileList ;;
  firstDate <- min_of dateList ;;
  let monthLength := (firstDate mod 100)%Z in
  let earliestDate := (firstDate - monthLength + 1)%Z in
  Returns earliestDate.

Definition getLatestDate (FileList : list string) : outcome Z :=
  dateList <- mapM (fun f => ymd <- getYMD f ;; int ymd) FileList ;;
  latestDate <- max_of dateList ;;
  Returns latestDate.

(** [filterByDateRange(FileList, StartDate, EndDate)] for integer
    dates. *)
Definition filterByDateRange (FileList : list string) (StartDate EndDate : Z)
  : outcome (list string) :=
  filteredList <-
    filterM (fun file =>
               fileDate <- getDate file ;;
               Returns ((StartDate <=? fileDate) && (fileDate <=? EndDate))%Z)
            FileList ;;
  sorted_by_key getYMD filteredList.

(** [filterByMonthNum(FileList, MonthNum)]. *)
Definition filterByMonthNum (FileList : list string) (MonthNum : Z)
  : outcome (list string) :=
  if negb (is_a_MonthNum MonthNum) then sys_exit
  else filterM (fun file => m <- getMonth file ;; Returns (m =? MonthNum)%Z)
               FileList.

(** [filterByMonthName(FileList, Month)]. *)
Definition filterByMonthName (FileList : list string) (Month : string)
  : outcome (list string) :=
  if negb (is_a_Month (lower Month)) then sys_exit
  else
    let monthAbbr := lower Month in
    monthNum <- getitem_str MonthAbbrToNum monthAbbr ;;
    filterByMonthNum FileList monthNum.

(** The test of the two loops of [filterBySeason]: the months of the
    three files from position [start] are the months of the season. *)
Definition is_season_run (month_files : list string) (month_list : list string)
    (start : nat) : outcome bool :=
  month_run <- mapM getMonthAbbr (slice month_files start (start + 3)) ;;
  Returns (if list_eq_dec string_dec month_run month_list then true else false).

(** [filterBySeason(FileList, SeasonName)]. *)
Definition filterBySeason (FileList : list string) (SeasonName : string)
  : outcome (list string) :=
  month_list <- seasonToMonths SeasonName ;;
  per_month <- mapM (fun month => filterByMonthName FileList month)
                    month_list ;;
  let month_files := concat per_month in
  month_files <- sortByDate month_files ;;
  let len := length month_files in
  offset <- first_passing (is_season_run month_files month_list)
                          (seq 0 (len - 3)) ;;
  let first_ind := offset in
  backset <- first_passing
               (fun backset =>
                  is_season_run month_files month_list (len - backset))
               (seq 3 (len - 3)) ;;
  let last_ind := option_map (fun backset => len - backset + 3)%nat backset in
  first_ind <- local first_ind ;;
  last_ind <- local last_ind ;;
  Returns (slice month_files first_ind last_ind).

End awapFiles.

(** ** Src/dataCube.py: the files and times of a data cube *)

Module dataCube.

Import PyMore awapFiles.
Local Open Scope pymore_scope.

(** What [DataCube.__init__] derives from the file names. *)
Record TimeAxis : Type := {
  sample_files : list string;
  start_date : Z;
  end_date : Z;
  times : list Z
}.

(** [l[0]] and [l[-1]]. *)
Definition first_item {A} (l : list A) : outcome A :=
  match l with
  | [] => Raises (Std IndexError)
  | x :: _ => Returns x
  end.

Definition last_item {A} (l : list A) : outcome A :=
  first_item (rev l).

(** The part of [DataCube.__init__] between the sampling-interval
    filter and the reading of the first header: [sample_files] is the
    list that filter returned, and the dates are integers. *)
Definition DataCube_time_axis (sample_files : list string)
    (StartDate EndDate : option Z) (CycleFilter : option string)
  : outcome TimeAxis :=
  first_date <- getEarliestDate sample_files ;;
  last_date <- getLatestDate sample_files ;;
  let my_start := match StartDate with
                  | None => first_date
                  | Some d => d
                  end in
  let my_end := match EndDate with
                | None => last_date
                | Some d => d
                end in
  sample_files <- filterByDateRange sample_files my_start my_end ;;
  sample_files <- sortByDate sample_files ;;
  sample_files <-
    match CycleFilter with
    | None => Returns sample_files
    | Some CycleFilter =>
        if is_a_Month CycleFilter || is_a_Season CycleFilter then
          if is_a_Month CycleFilter
          then filterByMonthName sample_files CycleFilter
          else filterBySeason sample_files CycleFilter
        else Returns sample_files
    end ;;
  first_file <- first_item sample_files ;;
  start_date <- getDate first_file ;;
  last_file <- last_item sample_files ;;
  end_date <- getDate last_file ;;
  times <- mapM getDate sample_files ;;
  Returns {| sample_files := sample_files;
             start_date := start_date;
             end_date := end_date;
             times := times |}.

End dataCube.
(** ** Vocabulary for file names *)

Module FileProps.

Import PyMore awapFiles.

(** No character of [s] is a decimal digit. *)
Fixpoint no_digit (s : string) : bool :=
  match s with
  | EmptyString => true
  | String c t => negb (isdigit c) && no_digit t
  end.

(** [s] is a date stamp: eight decimal digits. *)
Definition is_stamp (s : string) : Prop :=
  String.length s = 8 /\ all_digits s = true.

(** A test of a filtering loop passes on [x]: it returns [True]. *)
Definition passes {A} (test : A -> outcome bool) (x : A) : bool :=
  match test x with
  | Returns true => true
  | _ => false
  end.

(** The integer a date stamp stands for. *)
Definition stamp_value (d : string) : Z := int_from 0 d.

(** The names of [l] are in the order of their month abbreviations
    [months]. *)
Definition months_are (l : list string) (months : list string) : Prop :=
  mapM getMonthAbbr l = Returns months.

(** The name [f] carries the date stamp [d]. *)
Definition stamped (d : string) (f : string) : bool :=
  match getYMD f with
  | Returns d' => String.eqb d' d
  | Raises _ => false
  end.

(** The name [f] carries a date between [StartDate] and [EndDate]. *)
Definition in_date_range (StartDate EndDate : Z) (f : string) : bool :=
  match getDate f with
  | Returns d => ((StartDate <=? d) && (d <=? EndDate))%Z
  | Raises _ => false
  end.

(** The name [f] carries a date of month number [m]. *)
Definition in_month (m : Z) (f : string) : bool :=
  match getMonth f with
  | Returns m' => (m' =? m)%Z
  | Raises _ => false
  end.

(** Every name of [l] carries a date, and the dates do not decrease
    along the list. *)
Definition chronological (l : list string) : Prop :=
  exists dates, mapM getDate l = Returns dates /\ Sorted Z.le dates.

End FileProps.

Import FileProps.

(** * Properties *)

(** ** Lists, indices and reductions *)

Section IndexLemmas.

Import np.

Lemma first_In {A} (l : list A) (x : A) : first l = OK x -> In x l.
Proof.
  destruct l as [|y t]; simpl; intro H; inversion H; auto.
Qed.

Lemma last_In {A} (l : list A) (x : A) : last l = OK x -> In x l.
Proof.
  induction l as [|y t IH]; simpl; intro H.
  - discriminate.
  - destruct t as [|z t'].
    + inversion H; auto.
    + right. apply IH, H.
Qed.

Lemma first_nonempty {A} (l : list A) (x : A) :
  In x l -> exists y, first l = OK y.
Proof.
  destruct l as [|y t]; simpl; intro H; [contradiction | eauto].
Qed.

Lemma last_nonempty {A} (l : list A) (x : A) :
  In x l -> exists y, last l = OK y.
Proof.
  revert x. induction l as [|y t IH]; intros x H.
  - contradiction.
  - destruct t as [|z t'].
    + simpl. eauto.
    + destruct (IH z (or_introl eq_refl)) as [w Hw].
      exists w. exact Hw.
Qed.

Lemma last_app_nonempty {A} (l1 l2 : list A) :
  l2 <> [] -> last (l1 ++ l2) = last l2.
Proof.
  intro Hne. induction l1 as [|y t IH]; [reflexivity|].
  change ((y :: t) ++ l2) with (y :: (t ++ l2)).
  destruct (t ++ l2) as [|z r] eqn:E.
  - destruct t; destruct l2; simpl in E; congruence.
  - rewrite <- IH. reflexivity.
Qed.

Lemma where1_from_In (c : list bool) (off i : nat) :
  In i (where1_from off c) <->
  off <= i /\ nth_error c (i - off) = Some true.
Proof.
  revert off. induction c as [|b t IH]; intro off; simpl.
  - split; [contradiction|]. intros [_ H]. destruct (i - off); discriminate.
  - rewrite in_app_iff, IH. split.
    + intros [H | [Hle H]].
      * destruct b; simpl in H; [|contradiction].
        destruct H as [<- | []]. split; [lia|].
        replace (off - off) with 0 by lia. reflexivity.
      * split; [lia|].
        replace (i - off) with (S (i - S off)) by lia. exact H.
    + intros [Hle H]. destruct (Nat.eq_dec i off) as [-> | Hne].
      * left. replace (off - off) with 0 in H by lia.
        simpl in H. inversion H. simpl. auto.
      * right. split; [lia|].
        replace (i - off) with (S (i - S off)) in H by lia. exact H.
Qed.

Lemma where1_In (c : list bool) (i : nat) :
  In i (where1 c) <-> nth_error c i = Some true.
Proof.
  unfold where1. rewrite where1_from_In, Nat.sub_0_r.
  split; [tauto | intro; split; [lia | assumption]].
Qed.

Lemma first_where1_from_least (c : list bool) (off i : nat) :
  first (where1_from off c) = OK i ->
  forall x, In x (where1_from off c) -> i <= x.
Proof.
  revert off. induction c as [|b t IH]; intros off Hf x Hx.
  - contradiction.
  - simpl in Hf, Hx. destruct b; simpl in Hf, Hx.
    + inversion Hf; subst i. destruct Hx as [<- | Hx]; [lia|].
      apply where1_from_In in Hx. lia.
    + specialize (IH (S off) Hf x Hx). exact IH.
Qed.

Lemma last_where1_from_greatest (c : list bool) (off i : nat) :
  last (where1_from off c) = OK i ->
  forall x, In x (where1_from off c) -> x <= i.
Proof.
  revert off. induction c as [|b t IH]; intros off Hl x Hx.
  - contradiction.
  - simpl in Hl, Hx.
    destruct (where1_from (S off) t) as [|z r] eqn:E.
    + rewrite app_nil_r in Hl, Hx. destruct b; simpl in Hl, Hx.
      * inversion Hl; subst i. destruct Hx as [<- | []]. lia.
      * contradiction.
    + rewrite last_app_nonempty in Hl by discriminate.
      rewrite <- E in Hl, Hx. apply in_app_iff in Hx.
      destruct Hx as [Hx | Hx].
      * destruct b; simpl in Hx; [|contradiction].
        destruct Hx as [<- | []].
        apply last_In, where1_from_In in Hl. lia.
      * apply (IH (S off) Hl x Hx).
Qed.

(** The first index satisfying a test is at most any index satisfying
    it, the last one at least. *)
Lemma first_where1_le (c : list bool) (i0 : nat) :
  nth_error c i0 = Some true ->
  exists i, first (where1 c) = OK i /\ i <= i0 /\ nth_error c i = Some true.
Proof.
  intro H. apply where1_In in H.
  destruct (first_nonempty _ _ H) as [i Hi]. exists i.
  split; [exact Hi|]. split.
  - apply (first_where1_from_least _ _ Hi), H.
  - apply where1_In, first_In, Hi.
Qed.

Lemma last_where1_ge (c : list bool) (i0 : nat) :
  nth_error c i0 = Some true ->
  exists i, last (where1 c) = OK i /\ i0 <= i /\ nth_error c i = Some true.
Proof.
  intro H. apply where1_In in H.
  destruct (last_nonempty _ _ H) as [i Hi]. exists i.
  split; [exact Hi|]. split.
  - apply (last_where1_from_greatest _ _ Hi), H.
  - apply where1_In, last_In, Hi.
Qed.

Lemma where2_from_In (c : list (list bool)) (off i j : nat) :
  In (i, j) (where2_from off c) <->
  off <= i /\ exists r, nth_error c (i - off) = Some r
                        /\ nth_error r j = Some true.
Proof.
  revert off. induction c as [|r t IH]; intro off; simpl.
  - split; [contradiction|]. intros [_ [r [H _]]].
    destruct (i - off); discriminate.
  - rewrite in_app_iff, IH, in_map_iff. split.
    + intros [[j' [Heq Hj]] | [Hle [r' [Hr Hj]]]].
      * inversion Heq; subst. split; [lia|]. exists r.
        replace (i - i) with 0 by lia. split; [reflexivity|].
        apply where1_In, Hj.
      * split; [lia|]. exists r'.
        replace (i - off) with (S (i - S off)) by lia. auto.
    + intros [Hle [r' [Hr Hj]]]. destruct (Nat.eq_dec i off) as [-> | Hne].
      * left. replace (off - off) with 0 in Hr by lia.
        simpl in Hr. inversion Hr; subst r'.
        exists j. split; [reflexivity | apply where1_In, Hj].
      * right. split; [lia|]. exists r'.
        replace (i - off) with (S (i - S off)) in Hr by lia. auto.
Qed.

Lemma where2_In (c : list (list bool)) (i j : nat) :
  In (i, j) (where2 c) <->
  exists r, nth_error c i = Some r /\ nth_error r j = Some true.
Proof.
  unfold where2. rewrite where2_from_In, Nat.sub_0_r.
  split; [tauto | intro; split; [lia | assumption]].
Qed.

Lemma fold_min_spec (t : list nat) (x : nat) :
  (fold_left Nat.min t x = x \/ In (fold_left Nat.min t x) t)
  /\ fold_left Nat.min t x <= x
  /\ forall y, In y t -> fold_left Nat.min t x <= y.
Proof.
  revert x. induction t as [|a t IH]; intro x; simpl.
  - split; [auto|]. split; [lia | contradiction].
  - destruct (IH (Nat.min x a)) as [Hin [Hle Hall]].
    split; [|split].
    + destruct Hin as [E | Hin]; [|auto].
      rewrite E. destruct (Nat.min_spec x a) as [[_ ->] | [_ ->]]; auto.
    + lia.
    + intros y [<- | Hy]; [lia | auto].
Qed.

Lemma fold_max_spec (t : list nat) (x : nat) :
  (fold_left Nat.max t x = x \/ In (fold_left Nat.max t x) t)
  /\ x <= fold_left Nat.max t x
  /\ forall y, In y t -> y <= fold_left Nat.max t x.
Proof.
  revert x. induction t as [|a t IH]; intro x; simpl.
  - split; [auto|]. split; [lia | contradiction].
  - destruct (IH (Nat.max x a)) as [Hin [Hle Hall]].
    split; [|split].
    + destruct Hin as [E | Hin]; [|auto].
      rewrite E. destruct (Nat.max_spec x a) as [[_ ->] | [_ ->]]; auto.
    + lia.
    + intros y [<- | Hy]; [lia | auto].
Qed.

Lemma amin_spec (l : list nat) (x : nat) :
  In x l ->
  exists m, amin l = OK m /\ In m l /\ forall y, In y l -> m <= y.
Proof.
  destruct l as [|a t]; [contradiction|]. intros _.
  destruct (fold_min_spec t a) as [Hin [Hle Hall]].
  exists (fold_left Nat.min t a). split; [reflexivity|]. split.
  - destruct Hin as [-> | Hin]; [left | right]; auto.
  - intros y [<- | Hy]; auto.
Qed.

Lemma amax_spec (l : list nat) (x : nat) :
  In x l ->
  exists m, amax l = OK m /\ In m l /\ forall y, In y l -> y <= m.
Proof.
  destruct l as [|a t]; [contradiction|]. intros _.
  destruct (fold_max_spec t a) as [Hin [Hle Hall]].
  exists (fold_left Nat.max t a). split; [reflexivity|]. split.
  - destruct Hin as [-> | Hin]; [left | right]; auto.
  - intros y [<- | Hy]; auto.
Qed.

(** Cropping a list to [a, b) keeps a sum when every term outside the
    crop is zero. *)
Lemma list_sum_slice {A} (f : A -> nat) (l : list A) (a b : nat) :
  (forall i x, nth_error l i = Some x -> ~ (a <= i < b) -> f x = 0) ->
  list_sum (map f (slice l a b)) = list_sum (map f l).
Proof.
  revert a b. induction l as [|x t IH]; intros a b H.
  - unfold slice. rewrite skipn_nil, firstn_nil. reflexivity.
  - destruct a as [|a'].
    + destruct b as [|b'].
      * unfold slice. simpl firstn. simpl map at 1.
        assert (Hz : forall y, In y (x :: t) -> f y = 0).
        { intros y Hy. apply In_nth_error in Hy. destruct Hy as [i Hi].
          apply (H i y Hi). lia. }
        clear H IH. induction (x :: t) as [|y r IHr]; [reflexivity|].
        simpl. rewrite (Hz y (or_introl eq_refl)).
        rewrite <- IHr; [reflexivity|]. intros; apply Hz; right; assumption.
      * unfold slice. simpl. f_equal.
        specialize (IH 0 b'). unfold slice in IH. simpl in IH.
        rewrite Nat.sub_0_r in IH. apply IH.
        intros i y Hi Hn. apply (H (S i) y Hi). lia.
    + assert (Hx : f x = 0) by (apply (H 0 x eq_refl); lia).
      simpl map at 2. simpl list_sum at 2. rewrite Hx. simpl.
      rewrite <- (IH a' (b - 1)).
      * unfold slice. simpl skipn. f_equal. f_equal. f_equal. lia.
      * intros i y Hi Hn. apply (H (S i) y Hi). lia.
Qed.

End IndexLemmas.

(** ** The window loop *)

Section WindowLoop.

Import tdpdfs.
Local Open Scope Z_scope.

Lemma range0_length (n : Z) : length (range0 n) = Z.to_nat n.
Proof. unfold range0. rewrite length_map, length_seq. reflexivity. Qed.

Lemma range0_nth (n w : Z) :
  0 <= w < n -> nth_error (range0 n) (Z.to_nat w) = Some w.
Proof.
  intros H. unfold range0.
  rewrite nth_error_map, nth_error_seq.
  destruct (Nat.ltb_spec (Z.to_nat w) (Z.to_nat n)); [|lia].
  simpl. f_equal. lia.
Qed.

Lemma slice_length {A} (l : list A) (a b : nat) :
  (b <= length l)%nat -> length (slice l a b) = (b - a)%nat.
Proof.
  intro H. unfold slice. rewrite length_firstn, length_skipn. lia.
Qed.




End WindowLoop.

(** ** Cell-centre coordinates *)

Section GridGeometry.

Import np awapIO.
Local Open Scope Q_scope.

Lemma linspace_length (start stop : Q) (num : Z) :
  length (linspace start stop num) = Z.to_nat num.
Proof.
  unfold linspace. destruct (Z.to_nat num) as [|[|m]]; try reflexivity.
  rewrite length_app, length_map, length_seq. simpl. lia.
Qed.

Lemma Forall2_map_seq (f g : nat -> Q) (a n : nat) :
  (forall i, f i == g i) ->
  Forall2 Qeq (map f (seq a n)) (map g (seq a n)).
Proof.
  intro H. revert a. induction n as [|n IH]; intro a; simpl; constructor; auto.
Qed.

Lemma inject_Z_nat_nonzero (n : nat) : ~ inject_Z (Z.of_nat (S n)) == 0.
Proof.
  change 0 with (inject_Z 0). rewrite inject_Z_injective. lia.
Qed.

(** [linspace] from [start] over [n] points at distance [d]. *)
Lemma linspace_values (start d : Q) (n : nat) :
  Forall2 Qeq
    (linspace start (start + inject_Z (Z.of_nat n - 1) * d) (Z.of_nat n))
    (map (fun i => start + inject_Z (Z.of_nat i) * d) (seq 0 n)).
Proof.
  unfold linspace. rewrite Nat2Z.id. destruct n as [|[|m]].
  - constructor.
  - simpl. constructor; [|constructor]. ring.
  - rewrite (seq_S (S m)), map_app. apply Forall2_app.
    + apply Forall2_map_seq. intro i.
      replace (Z.of_nat (S (S m)) - 1)%Z with (Z.of_nat (S m)) by lia.
      field. apply inject_Z_nat_nonzero.
    + simpl map. constructor; [|constructor].
      replace (Z.of_nat (S (S m)) - 1)%Z with (Z.of_nat (S m)) by lia.
      reflexivity.
Qed.


Lemma Forall2_Qeq_nth (l l' : list Q) (i : nat) (x : Q) :
  Forall2 Qeq l l' -> nth_error l i = Some x ->
  exists y, nth_error l' i = Some y /\ x == y.
Proof.
  intro H. revert i. induction H as [|a b l l' Hab H IH]; intros i Hi.
  - destruct i; discriminate.
  - destruct i as [|i]; simpl in *.
    + inversion Hi; subst. eauto.
    + apply IH, Hi.
Qed.

Lemma cell_center_lt (ll cs : Q) (i j : nat) :
  0 < cs -> (i < j)%nat -> cell_center ll cs i < cell_center ll cs j.
Proof.
  intros Hcs Hij. unfold cell_center.
  assert (H : inject_Z (Z.of_nat i) < inject_Z (Z.of_nat j)).
  { rewrite <- Zlt_Qlt. lia. }
  assert (H' : inject_Z (Z.of_nat i) * cs < inject_Z (Z.of_nat j) * cs)
    by (apply Qmult_lt_compat_r; assumption).
  Lqa.lra.
Qed.

Lemma getLons_values (h : HeaderDict) :
  Forall2 Qeq (getLons h)
    (map (cell_center (xllcorner h) (cellsize h)) (seq 0 (Z.to_nat (ncols h)))).
Proof.
  unfold getLons. destruct (Z.le_gt_cases 0 (ncols h)) as [Hn | Hn].
  - rewrite <- (Z2Nat.id (ncols h)) at 1 2 by exact Hn.
    apply linspace_values.
  - unfold linspace. replace (Z.to_nat (ncols h)) with 0%nat by lia.
    constructor.
Qed.

Lemma getLats_ascending_values (h : HeaderDict) :
  Forall2 Qeq (getLats h false)
    (map (cell_center (yllcorner h) (cellsize h)) (seq 0 (Z.to_nat (nrows h)))).
Proof.
  unfold getLats. destruct (Z.le_gt_cases 0 (nrows h)) as [Hn | Hn].
  - rewrite <- (Z2Nat.id (nrows h)) at 1 2 by exact Hn.
    apply linspace_values.
  - unfold linspace. replace (Z.to_nat (nrows h)) with 0%nat by lia.
    constructor.
Qed.

Lemma Forall2_Qeq_rev (l l' : list Q) :
  Forall2 Qeq l l' -> Forall2 Qeq (rev l) (rev l').
Proof.
  induction 1; simpl; [constructor|].
  apply Forall2_app; [assumption | constructor; [assumption | constructor]].
Qed.

Lemma getLats_reversed (h : HeaderDict) : getLats h true = rev (getLats h false).
Proof. reflexivity. Qed.

Lemma nth_error_centers (ll cs : Q) (n i : nat) (y : Q) :
  nth_error (map (cell_center ll cs) (seq 0 n)) i = Some y ->
  (i < n)%nat /\ y = cell_center ll cs i.
Proof.
  rewrite nth_error_map, nth_error_seq.
  destruct (Nat.ltb_spec i n); simpl; intro E; inversion E. auto.
Qed.

Lemma nth_error_rev_centers (ll cs : Q) (n i : nat) (y : Q) :
  nth_error (rev (map (cell_center ll cs) (seq 0 n))) i = Some y ->
  (i < n)%nat /\ y = cell_center ll cs (n - S i).
Proof.
  rewrite nth_error_rev, length_map, length_seq.
  destruct (Nat.ltb_spec i n); [|discriminate].
  intro E. apply nth_error_centers in E. tauto.
Qed.

Lemma getLats_values (h : HeaderDict) :
  Forall2 Qeq (getLats h true)
    (rev (map (cell_center (yllcorner h) (cellsize h))
              (seq 0 (Z.to_nat (nrows h))))).
Proof.
  rewrite getLats_reversed. apply Forall2_Qeq_rev, getLats_ascending_values.
Qed.

Lemma getLats_descending (h : HeaderDict) :
  0 < cellsize h -> descending (getLats h true).
Proof.
  intros Hcs i j x y Hij Hx Hy.
  destruct (Forall2_Qeq_nth _ (getLats_values h) Hx) as [x' [Hx' Ex]].
  destruct (Forall2_Qeq_nth _ (getLats_values h) Hy) as [y' [Hy' Ey]].
  apply nth_error_rev_centers in Hx', Hy'.
  destruct Hx' as [Hi ->], Hy' as [Hj ->]. rewrite Ex, Ey.
  apply cell_center_lt; [assumption | lia].
Qed.

Lemma getLons_ascending (h : HeaderDict) :
  0 < cellsize h -> ascending (getLons h).
Proof.
  intros Hcs i j x y Hij Hx Hy.
  destruct (Forall2_Qeq_nth _ (getLons_values h) Hx) as [x' [Hx' Ex]].
  destruct (Forall2_Qeq_nth _ (getLons_values h) Hy) as [y' [Hy' Ey]].
  apply nth_error_centers in Hx', Hy'.
  destruct Hx' as [Hi ->], Hy' as [Hj ->]. rewrite Ex, Ey.
  apply cell_center_lt; assumption.
Qed.

(** C8.  For a header with positive [nrows], [ncols] and [cellsize],
    [getLats] returns [nrows] values and [getLons] returns [ncols]
    values; the latitudes are the cell centres
    [yllcorner + 0.5*cellsize + i*cellsize], [i = 0 .. nrows-1], listed
    from the last to the first (descending) by default, and the
    longitudes are [xllcorner + 0.5*cellsize + j*cellsize],
    [j = 0 .. ncols-1], in ascending order. *)
Theorem cell_center_axes (h : HeaderDict) :
  (0 < nrows h)%Z -> (0 < ncols h)%Z -> 0 < cellsize h ->
  Z.of_nat (length (getLats h true)) = nrows h
  /\ Z.of_nat (length (getLons h)) = ncols h
  /\ Forall2 Qeq (getLats h true)
       (rev (map (cell_center (yllcorner h) (cellsize h))
                 (seq 0 (Z.to_nat (nrows h)))))
  /\ Forall2 Qeq (getLons h)
       (map (cell_center (xllcorner h) (cellsize h))
            (seq 0 (Z.to_nat (ncols h))))
  /\ descending (getLats h true)
  /\ ascending (getLons h).
Proof.
  intros Hr Hc Hcs.
  split; [|split; [|split; [|split; [|split]]]].
  - unfold getLats. rewrite length_rev, linspace_length. lia.
  - unfold getLons. rewrite linspace_length. lia.
  - apply getLats_values.
  - apply getLons_values.
  - apply getLats_descending, Hcs.
  - apply getLons_ascending, Hcs.
Qed.

Lemma cell_center_axes_witness :
  (0 < nrows h3)%Z /\ (0 < ncols h3)%Z /\ 0 < cellsize h3
  /\ Z.of_nat (length (getLats h3 true)) = nrows h3
  /\ Z.of_nat (length (getLons h3)) = ncols h3
  /\ descending (getLats h3 true)
  /\ ascending (getLons h3).
Proof.
  assert (Hr : (0 < nrows h3)%Z) by reflexivity.
  assert (Hc : (0 < ncols h3)%Z) by reflexivity.
  assert (Hs : 0 < cellsize h3) by reflexivity.
  pose proof (cell_center_axes h3 Hr Hc Hs) as H.
  repeat split; try assumption; apply H.
Defined.

End GridGeometry.

(** ** Masked arrays: matches and counts *)

Section Masks.

Import np ma awapIO awapRegion.
Local Open Scope Q_scope.

Lemma nth_error_combine {A B} (l : list A) (l' : list B) (i : nat) x y :
  nth_error (combine l l') i = Some (x, y)
  <-> nth_error l i = Some x /\ nth_error l' i = Some y.
Proof.
  revert l' i. induction l as [|a l IH]; intros l' i.
  - simpl. split; [destruct i; discriminate | intros [H _]; destruct i; discriminate].
  - destruct l' as [|b l'].
    + simpl. split; [destruct i; discriminate | intros [_ H]; destruct i; discriminate].
    + destruct i as [|i]; simpl.
      * split; [intro H; inversion H; auto | intros [H1 H2]; congruence].
      * apply IH.
Qed.

Lemma where2_at2 (c : list (list bool)) (i j : nat) :
  In (i, j) (where2 c) <-> at2 c i j = Some true.
Proof.
  rewrite where2_In. unfold at2. split.
  - intros [r [-> H]]. exact H.
  - destruct (nth_error c i) as [r|]; [eauto | discriminate].
Qed.

Lemma at2_eq_scalar (a : MaskedArray) (v : Q) (i j : nat) :
  at2 (eq_scalar a v) i j = Some true <-> cell_is a v i j.
Proof.
  unfold cell_is, stores, at2, eq_scalar, eq_row. rewrite nth_error_map.
  split.
  - destruct (nth_error (combine (data a) (mask a)) i) as [[d m]|] eqn:E;
      simpl; [|discriminate].
    rewrite nth_error_map.
    destruct (nth_error (combine d m) j) as [[x b]|] eqn:E2;
      simpl; [|discriminate].
    intro H. inversion H as [H1]. apply andb_true_iff in H1.
    destruct H1 as [Hb Hx]. apply negb_true_iff in Hb. subst b.
    apply nth_error_combine in E, E2.
    destruct E as [-> ->], E2 as [-> ->].
    split; [|reflexivity]. exists x. split; [reflexivity|].
    apply Qeq_bool_iff, Hx.
  - intros [[x [Hx Ex]] Hm].
    destruct (nth_error (data a) i) as [d|] eqn:Ed; [|discriminate].
    destruct (nth_error (mask a) i) as [m|] eqn:Em; [|discriminate].
    assert (E : nth_error (combine (data a) (mask a)) i = Some (d, m))
      by (apply nth_error_combine; auto).
    rewrite E. simpl. rewrite nth_error_map.
    assert (E2 : nth_error (combine d m) j = Some (x, false))
      by (apply nth_error_combine; auto).
    rewrite E2. simpl. apply Qeq_bool_iff in Ex. rewrite Ex. reflexivity.
Qed.

(** [numpy.where] on [mask == v] finds exactly the valid cells that
    store [v]. *)
Lemma hits_iff (a : MaskedArray) (v : Q) (i j : nat) :
  In (i, j) (where2 (eq_scalar a v)) <-> cell_is a v i j.
Proof. rewrite where2_at2. apply at2_eq_scalar. Qed.

Lemma no_hits (a : MaskedArray) (v : Q) :
  (forall i j, ~ cell_is a v i j) -> where2 (eq_scalar a v) = [].
Proof.
  intro H. destruct (where2 (eq_scalar a v)) as [|[i j] t] eqn:E; [reflexivity|].
  exfalso. apply (H i j), hits_iff. rewrite E. left. reflexivity.
Qed.

Lemma close_to_Qeq (flag x y : Q) : x == y -> close_to flag x = close_to flag y.
Proof.
  intro E. unfold close_to.
  destruct (Qle_bool (Qabs (y - flag)) (atol + rtol * Qabs flag)) eqn:H.
  - apply Qle_bool_iff. apply Qle_bool_iff in H. rewrite E. exact H.
  - destruct (Qle_bool (Qabs (x - flag)) (atol + rtol * Qabs flag)) eqn:H';
      [|reflexivity].
    apply Qle_bool_iff in H'. rewrite E in H'. apply Qle_bool_iff in H'.
    congruence.
Qed.

Lemma combine_map_r {A B} (F : A -> B) (l : list A) :
  combine l (map F l) = map (fun x => (x, F x)) l.
Proof. induction l; simpl; congruence. Qed.

(** The comparison [mask == v] when the mask comes from the values. *)
Lemma eq_scalar_from_values (d : list (list Q)) (flag fv v : Q) :
  eq_scalar (mkMA d (map (map (close_to flag)) d) fv) v
  = map (map (fun x => negb (close_to flag x) && Qeq_bool x v)%bool) d.
Proof.
  unfold eq_scalar. simpl. rewrite combine_map_r, map_map.
  apply map_ext. intro row. simpl. unfold eq_row.
  rewrite combine_map_r, map_map. reflexivity.
Qed.

Lemma count_true_map {A} (e : A -> bool) (l : list A) :
  count_true (map e l) = list_sum (map (fun x => if e x then 1 else 0)%nat l).
Proof.
  unfold count_true. induction l as [|x t IH]; [reflexivity|].
  simpl. destruct (e x); simpl; rewrite IH; reflexivity.
Qed.

Lemma count_true_filter {A} (e : A -> bool) (l : list A) :
  count_true (map e l) = length (filter e l).
Proof.
  unfold count_true. induction l as [|x t IH]; [reflexivity|].
  simpl. destruct (e x); simpl; rewrite IH; reflexivity.
Qed.

Lemma count_false_negb {A} (e : A -> bool) (l : list A) :
  count_false (map (fun x => negb (e x)) l) = count_true (map e l).
Proof.
  unfold count_false, count_true. induction l as [|x t IH]; [reflexivity|].
  simpl. destruct (e x); simpl; rewrite IH; reflexivity.
Qed.

(** The unmasked cells of [d != v] are the cells of [d] that store [v]. *)
Lemma count_ne_scalar (d : list (list Q)) (v fv : Q) :
  ma.count (masked_array d (ne_scalar d v) fv) = count_stored d v.
Proof.
  unfold ma.count, masked_array, ne_scalar, count_stored. simpl.
  rewrite map_map. f_equal. apply map_ext. intro row.
  rewrite (count_false_negb (fun x => Qeq_bool x v)).
  apply count_true_filter.
Qed.

(** Cropping a raster to a window keeps the number of cells storing [v]
    when every such cell lies in the window. *)
Lemma count_stored_slice2 (d : list (list Q)) (v : Q) (r0 r1 c0 c1 : nat) :
  (forall i j, stores d v i j -> (r0 <= i < r1)%nat /\ (c0 <= j < c1)%nat) ->
  count_stored (slice2 d r0 r1 c0 c1) v = count_stored d v.
Proof.
  intro Hin. unfold count_stored, slice2. rewrite map_map.
  set (e := fun x => Qeq_bool x v).
  assert (Hrow : forall i row, nth_error d i = Some row ->
            length (filter e (slice row c0 c1)) = length (filter e row)
            /\ (~ (r0 <= i < r1)%nat -> length (filter e row) = 0%nat)).
  { intros i row Hi.
    assert (Hcell : forall j x, nth_error row j = Some x -> e x = true ->
              (r0 <= i < r1)%nat /\ (c0 <= j < c1)%nat).
    { intros j x Hj Hx. apply Hin. exists x. unfold at2. rewrite Hi.
      split; [exact Hj | apply Qeq_bool_iff, Hx]. }
    split.
    - rewrite <- !count_true_filter, !count_true_map.
      apply list_sum_slice. intros j x Hj Hout.
      destruct (e x) eqn:Ex; [|reflexivity].
      destruct (Hcell j x Hj Ex) as [_ Hc]. contradiction.
    - intro Hout. rewrite <- count_true_filter, count_true_map.
      rewrite <- (@list_sum_slice Q (fun x => if e x then 1 else 0)%nat row 0%nat 0%nat).
      + reflexivity.
      + intros j x Hj _. destruct (e x) eqn:Ex; [|reflexivity].
        destruct (Hcell j x Hj Ex) as [Hr _]. contradiction. }
  rewrite (@list_sum_slice _ (fun row => length (filter e (slice row c0 c1))) d r0 r1).
  - f_equal. apply map_ext_in. intros row Hr.
    apply In_nth_error in Hr. destruct Hr as [i Hi].
    apply (Hrow i row Hi).
  - intros i row Hi Hout. destruct (Hrow i row Hi) as [-> H0]. auto.
Qed.

End Masks.

(** ** Sub-region derivation *)

Section Derivation.

Import np ma awapIO awapRegion.
Local Open Scope Q_scope.

(** [SubRegion.__init__] is four look-ups followed by the assembly. *)
Lemma SubRegion_init_unfold (P : Region) (k : Z) (bb : option (list Q))
    (n t : option string) :
  SubRegion_init P k bb n t =
  (b <- getattr (reversedLats P) ;;
   e <- match bb with
        | Some B => edges_from_box P B
        | None => edges_from_mask P k b
        end ;;
   iMinLat <- (if b then last (where_ge (lats P) (e_minLat e))
               else first (where_ge (lats P) (e_minLat e))) ;;
   iMaxLat <- (if b then first (where_le (lats P) (e_maxLat e))
               else last (where_le (lats P) (e_maxLat e))) ;;
   iMinLon <- first (where_ge (lons P) (e_minLon e)) ;;
   iMaxLon <- last (where_le (lons P) (e_maxLon e)) ;;
   ret (assemble P k n t b e iMinLat iMaxLat iMinLon iMaxLon))%py.
Proof. reflexivity. Qed.

Lemma bind_OK {A B} (r : result A) (f : A -> result B) (y : B) :
  Py.bind r f = OK y -> exists x, r = OK x /\ f x = OK y.
Proof. destruct r as [x|e]; simpl; [eauto | discriminate]. Qed.

Lemma SubRegion_init_inv (P : Region) (k : Z) (bb : option (list Q))
    (n t : option string) (S : SubRegion) :
  SubRegion_init P k bb n t = OK S ->
  exists b e iMinLat iMaxLat iMinLon iMaxLon,
    reversedLats P = Some b
    /\ match bb with
       | Some B => edges_from_box P B
       | None => edges_from_mask P k b
       end = OK e
    /\ (if b then last (where_ge (lats P) (e_minLat e))
        else first (where_ge (lats P) (e_minLat e))) = OK iMinLat
    /\ (if b then first (where_le (lats P) (e_maxLat e))
        else last (where_le (lats P) (e_maxLat e))) = OK iMaxLat
    /\ first (where_ge (lons P) (e_minLon e)) = OK iMinLon
    /\ last (where_le (lons P) (e_maxLon e)) = OK iMaxLon
    /\ S = assemble P k n t b e iMinLat iMaxLat iMinLon iMaxLon.
Proof.
  rewrite SubRegion_init_unfold. intro H.
  apply bind_OK in H. destruct H as [b [Hb H]].
  apply bind_OK in H. destruct H as [e [He H]].
  apply bind_OK in H. destruct H as [i1 [H1 H]].
  apply bind_OK in H. destruct H as [i2 [H2 H]].
  apply bind_OK in H. destruct H as [i3 [H3 H]].
  apply bind_OK in H. destruct H as [i4 [H4 H]].
  exists b, e, i1, i2, i3, i4.
  destruct (reversedLats P) as [b'|]; [|discriminate].
  inversion Hb; subst b'. inversion H. auto 10.
Qed.

Lemma where_ge_In (axis : list Q) (lo : Q) (i : nat) :
  In i (where_ge axis lo)
  <-> exists x, nth_error axis i = Some x /\ lo <= x.
Proof.
  unfold where_ge. rewrite where1_In, nth_error_map. split.
  - destruct (nth_error axis i) as [x|]; simpl; [|discriminate].
    intro H. inversion H as [H1]. exists x. split; [reflexivity|].
    apply Qle_bool_iff, H1.
  - intros [x [-> Hx]]. simpl. apply Qle_bool_iff in Hx. rewrite Hx.
    reflexivity.
Qed.

Lemma where_le_In (axis : list Q) (hi : Q) (i : nat) :
  In i (where_le axis hi)
  <-> exists x, nth_error axis i = Some x /\ x <= hi.
Proof.
  unfold where_le. rewrite where1_In, nth_error_map. split.
  - destruct (nth_error axis i) as [x|]; simpl; [|discriminate].
    intro H. inversion H as [H1]. exists x. split; [reflexivity|].
    apply Qle_bool_iff, H1.
  - intros [x [-> Hx]]. simpl. apply Qle_bool_iff in Hx. rewrite Hx.
    reflexivity.
Qed.

(** An index array returned by [where] is increasing: its first entry
    is its least and its last entry its greatest. *)
Lemma first_least (c : list bool) (a i : nat) :
  first (where1 c) = OK a -> In i (where1 c) -> (a <= i)%nat.
Proof. intros Ha Hi. exact (first_where1_from_least _ _ Ha i Hi). Qed.

Lemma last_greatest (c : list bool) (a i : nat) :
  last (where1 c) = OK a -> In i (where1 c) -> (i <= a)%nat.
Proof. intros Ha Hi. exact (last_where1_from_greatest _ _ Ha i Hi). Qed.

Lemma first_exists (c : list bool) (i : nat) :
  In i (where1 c) -> exists a, first (where1 c) = OK a /\ (a <= i)%nat.
Proof.
  intro Hi. destruct (first_nonempty _ _ Hi) as [a Ha].
  exists a. split; [exact Ha | exact (@first_least c a i Ha Hi)].
Qed.

Lemma last_exists (c : list bool) (i : nat) :
  In i (where1 c) -> exists a, last (where1 c) = OK a /\ (i <= a)%nat.
Proof.
  intro Hi. destruct (last_nonempty _ _ Hi) as [a Ha].
  exists a. split; [exact Ha | exact (@last_greatest c a i Ha Hi)].
Qed.

End Derivation.

(** ** Automatic derivation of the bounding box *)

Section Automatic.

Import np ma awapIO awapRegion.
Local Open Scope Q_scope.

Variable P : Region.
Variable k : Z.

Lemma hit_row_valid (r : nat) :
  grid_shape P -> In r (where2_rows (eq_scalar (topoMask P) (float k))) ->
  exists x, nth_error (lats P) r = Some x.
Proof.
  intros [Hlen _] Hr. unfold where2_rows in Hr. apply in_map_iff in Hr.
  destruct Hr as [[i j] [E Hij]]. simpl in E. subst i.
  apply hits_iff in Hij. destruct Hij as [[x [Hx _]] _].
  unfold at2 in Hx.
  destruct (nth_error (data (topoMask P)) r) as [row|] eqn:Er; [|discriminate].
  assert (Hlt : (r < length (lats P))%nat).
  { rewrite <- Hlen. apply nth_error_Some. congruence. }
  apply nth_error_Some in Hlt.
  destruct (nth_error (lats P) r) as [y|]; [eauto | congruence].
Qed.

Lemma hit_col_valid (c : nat) :
  grid_shape P -> In c (where2_cols (eq_scalar (topoMask P) (float k))) ->
  exists x, nth_error (lons P) c = Some x.
Proof.
  intros [_ Hall] Hc. unfold where2_cols in Hc. apply in_map_iff in Hc.
  destruct Hc as [[i j] [E Hij]]. simpl in E. subst j.
  apply hits_iff in Hij. destruct Hij as [[x [Hx _]] _].
  unfold at2 in Hx.
  destruct (nth_error (data (topoMask P)) i) as [row|] eqn:Er; [|discriminate].
  assert (Hrow : length row = length (lons P)).
  { rewrite Forall_forall in Hall. apply Hall. eapply nth_error_In, Er. }
  assert (Hlt : (c < length (lons P))%nat).
  { rewrite <- Hrow. apply nth_error_Some. congruence. }
  apply nth_error_Some in Hlt.
  destruct (nth_error (lons P) c) as [y|]; [eauto | congruence].
Qed.

(** When some valid cell stores [k], the envelope of the matching cells
    is found and its edges are half a cell beyond the extreme centres. *)
Lemma edges_from_mask_ok (b : bool) (i0 j0 : nat) :
  grid_shape P -> cell_is (topoMask P) (float k) i0 j0 ->
  exists rmin rmax cmin cmax lat_lo lat_hi lon_lo lon_hi,
    (forall i j, cell_is (topoMask P) (float k) i j ->
       (rmin <= i <= rmax)%nat /\ (cmin <= j <= cmax)%nat)
    /\ nth_error (lats P) (if b then rmax else rmin) = Some lat_lo
    /\ nth_error (lats P) (if b then rmin else rmax) = Some lat_hi
    /\ nth_error (lons P) cmin = Some lon_lo
    /\ nth_error (lons P) cmax = Some lon_hi
    /\ edges_from_mask P k b
       = OK (mkEdges (lon_lo - (1 # 2) * dLon P) (lat_lo - (1 # 2) * dLat P)
                     (lon_hi + (1 # 2) * dLon P) (lat_hi + (1 # 2) * dLat P)).
Proof.
  intros Hshape Hcell. apply hits_iff in Hcell.
  assert (Hr0 : In i0 (where2_rows (eq_scalar (topoMask P) (float k))))
    by (apply (in_map fst) in Hcell; exact Hcell).
  assert (Hc0 : In j0 (where2_cols (eq_scalar (topoMask P) (float k))))
    by (apply (in_map snd) in Hcell; exact Hcell).
  destruct (amin_spec _ _ Hr0) as [rmin [Ermin [Hrmin Lrmin]]].
  destruct (amax_spec _ _ Hr0) as [rmax [Ermax [Hrmax Lrmax]]].
  destruct (amin_spec _ _ Hc0) as [cmin [Ecmin [Hcmin Lcmin]]].
  destruct (amax_spec _ _ Hc0) as [cmax [Ecmax [Hcmax Lcmax]]].
  destruct (@hit_row_valid rmin Hshape Hrmin) as [ymin Eymin].
  destruct (@hit_row_valid rmax Hshape Hrmax) as [ymax Eymax].
  destruct (@hit_col_valid cmin Hshape Hcmin) as [xmin Exmin].
  destruct (@hit_col_valid cmax Hshape Hcmax) as [xmax Exmax].
  exists rmin, rmax, cmin, cmax.
  exists (if b then ymax else ymin), (if b then ymin else ymax), xmin, xmax.
  split; [|split; [|split; [|split; [|split]]]].
  - intros i j Hij. apply hits_iff in Hij.
    assert (Hi : In i (where2_rows (eq_scalar (topoMask P) (float k))))
      by (apply (in_map fst) in Hij; exact Hij).
    assert (Hj : In j (where2_cols (eq_scalar (topoMask P) (float k))))
      by (apply (in_map snd) in Hij; exact Hij).
    auto.
  - destruct b; assumption.
  - destruct b; assumption.
  - assumption.
  - assumption.
  - unfold edges_from_mask. rewrite Ecmin, Ecmax. simpl.
    unfold getitem. rewrite Exmin, Exmax. simpl.
    destruct b; rewrite Ermin, Ermax; simpl; rewrite Eymin, Eymax;
      reflexivity.
Qed.

End Automatic.

Section CategoryCount.

Import np ma awapIO awapRegion.
Local Open Scope Q_scope.

Lemma at2_map {A B} (f : A -> B) (d : list (list A)) (i j : nat) :
  at2 (map (map f) d) i j = option_map f (at2 d i j).
Proof.
  unfold at2. rewrite nth_error_map.
  destruct (nth_error d i) as [row|]; simpl; [|reflexivity].
  apply nth_error_map.
Qed.

(** With a mask computed from the values, a valid cell storing [v] makes
    every cell storing [v] valid. *)
Lemma masked_by_value (P : Region) (v : Q) (i0 j0 : nat) (x : Q) :
  mask_from_values P -> cell_is (topoMask P) v i0 j0 ->
  x == v -> close_to (missingFlag P) x = false.
Proof.
  intros Hm [[x0 [Hx0 E0]] Hm0] Ex. rewrite Hm, at2_map, Hx0 in Hm0.
  simpl in Hm0. injection Hm0 as H0.
  rewrite <- H0. apply close_to_Qeq. rewrite Ex, E0. reflexivity.
Qed.

Lemma stores_cell_is (P : Region) (v : Q) (i0 j0 : nat) :
  mask_from_values P -> cell_is (topoMask P) v i0 j0 ->
  forall i j, stores (data (topoMask P)) v i j -> cell_is (topoMask P) v i j.
Proof.
  intros Hm Hhit i j Hs. split; [exact Hs|].
  destruct Hs as [x [Hx Ex]]. rewrite Hm, at2_map, Hx. simpl.
  f_equal. exact (masked_by_value Hm Hhit Ex).
Qed.

Lemma count_cells_stored (P : Region) (v : Q) (i0 j0 : nat) :
  mask_from_values P -> cell_is (topoMask P) v i0 j0 ->
  count_cells (topoMask P) v = count_stored (data (topoMask P)) v.
Proof.
  intros Hm Hhit. unfold count_cells, count_stored. rewrite Hm.
  rewrite combine_map_r, map_map. f_equal. apply map_ext. intro row.
  simpl. rewrite combine_map_r.
  induction row as [|x t IH]; [reflexivity|]. simpl.
  destruct (Qeq_bool x v) eqn:Ex.
  - apply Qeq_bool_iff in Ex. rewrite (masked_by_value Hm Hhit Ex).
    simpl. f_equal. exact IH.
  - rewrite andb_false_r. exact IH.
Qed.


(** The window found from the edges of the envelope contains the
    envelope, on either orientation of the latitude axis. *)
Lemma lat_window_contains (axis : list Q) (d : Q) (b : bool)
    (rmin rmax : nat) (lat_lo lat_hi : Q) :
  0 <= d ->
  nth_error axis (if b then rmax else rmin) = Some lat_lo ->
  nth_error axis (if b then rmin else rmax) = Some lat_hi ->
  exists iMin iMax,
    (if b then last (where_ge axis (lat_lo - (1 # 2) * d))
     else first (where_ge axis (lat_lo - (1 # 2) * d))) = OK iMin
    /\ (if b then first (where_le axis (lat_hi + (1 # 2) * d))
        else last (where_le axis (lat_hi + (1 # 2) * d))) = OK iMax
    /\ ((if b then iMax else iMin) <= rmin)%nat
    /\ (rmax < (if b then S iMin else S iMax))%nat.
Proof.
  intros Hd Hlo Hhi.
  assert (Ige : In (if b then rmax else rmin)
                   (where_ge axis (lat_lo - (1 # 2) * d))).
  { apply where_ge_In. exists lat_lo. split; [assumption | Lqa.lra]. }
  assert (Ile : In (if b then rmin else rmax)
                   (where_le axis (lat_hi + (1 # 2) * d))).
  { apply where_le_In. exists lat_hi. split; [assumption | Lqa.lra]. }
  unfold where_ge, where_le in *. destruct b.
  - destruct (last_exists _ _ Ige) as [a [Ea La]].
    destruct (first_exists _ _ Ile) as [a' [Ea' La']].
    exists a, a'. repeat split; try assumption. lia.
  - destruct (first_exists _ _ Ige) as [a [Ea La]].
    destruct (last_exists _ _ Ile) as [a' [Ea' La']].
    exists a, a'. repeat split; try assumption. lia.
Qed.


End CategoryCount.

Section CategoryCountExamples.

Import np ma awapIO awapRegion.
Local Open Scope Q_scope.

(** The constructor builds [P3] from the 3 x 3 header and raster. *)
Lemma Region_init_h3 : Region_init h3 flt3 [] None None false = OK P3.
Proof. reflexivity. Qed.

(** The scenario of the specification: category 1 of the 3 x 3 grid is
    the 2 x 2 block at the top left, with four unmasked points. *)
Lemma SubRegion_P3_category_1 :
  exists S : SubRegion,
    SubRegion_init P3 1 None None None = OK S
    /\ (parentLatStart S, parentLatStop S) = (0, 2)%nat
    /\ (parentLonStart S, parentLonStop S) = (0, 2)%nat
    /\ numUnmaskedPoints S = 4%nat.
Proof. eexists. split; [reflexivity|]. repeat split. Qed.


End CategoryCountExamples.

(** ** The index window and the child's mask *)

Section Window.

Import np ma awapIO awapRegion.
Local Open Scope Q_scope.




Lemma nth_error_slice {A} (l : list A) (a b i : nat) :
  nth_error (slice l a b) i
  = if (i <? b - a)%nat then nth_error l (a + i) else None.
Proof.
  unfold slice. rewrite nth_error_firstn, nth_error_skipn. reflexivity.
Qed.

Lemma at2_slice2 {A} (d : list (list A)) (r0 r1 c0 c1 i j : nat) :
  at2 (slice2 d r0 r1 c0 c1) i j
  = if ((i <? r1 - r0)%nat && (j <? c1 - c0)%nat)%bool
    then at2 d (r0 + i) (c0 + j) else None.
Proof.
  unfold at2, slice2. rewrite nth_error_map, nth_error_slice.
  destruct (i <? r1 - r0)%nat; simpl; [|reflexivity].
  destruct (nth_error d (r0 + i)) as [row|]; simpl.
  - apply nth_error_slice.
  - destruct (j <? c1 - c0)%nat; reflexivity.
Qed.

(** C10.  Whenever the constructor returns [S], the raster of [S] is
    the crop of the parent's stored values to the index window, and a
    cell of [S] is unmasked exactly when its stored value equals
    [float(k)]: the count of unmasked points is the number of cropped
    cells storing [k].  The parent's mask plays no part in this: a cell
    of the window whose stored value equals [k] is unmasked in the child
    whatever the parent's mask says there, a parent with another mask
    and the same window gives the same child mask and count, and with an
    explicit bounding box the whole result is the same for every mask of
    the parent. *)
Theorem child_mask_from_stored_values (P : Region) (k : Z)
    (bb : option (list Q)) (n t : option string) (S : SubRegion) :
  SubRegion_init P k bb n t = OK S ->
  data (topoMask S)
    = slice2 (data (topoMask P)) (parentLatStart S) (parentLatStop S)
             (parentLonStart S) (parentLonStop S)
  /\ mask (topoMask S) = ne_scalar (data (topoMask S)) (float k)
  /\ numUnmaskedPoints S = count_stored (data (topoMask S)) (float k)
  /\ (forall i j x,
        (i < parentLatStop S - parentLatStart S)%nat ->
        (j < parentLonStop S - parentLonStart S)%nat ->
        at2 (data (topoMask P)) (parentLatStart S + i) (parentLonStart S + j)
          = Some x ->
        at2 (mask (topoMask S)) i j = Some (negb (Qeq_bool x (float k))))
  /\ (forall m S',
        SubRegion_init (with_mask P m) k bb n t = OK S' ->
        (parentLatStart S', parentLatStop S') = (parentLatStart S, parentLatStop S) ->
        (parentLonStart S', parentLonStop S') = (parentLonStart S, parentLonStop S) ->
        topoMask S' = topoMask S
        /\ numUnmaskedPoints S' = numUnmaskedPoints S)
  /\ (forall m B, bb = Some B ->
        SubRegion_init (with_mask P m) k bb n t = OK S).
Proof.
  intro HS. pose proof HS as HS0. apply SubRegion_init_inv in HS.
  destruct HS as (b & e & i1 & i2 & i3 & i4 & Hb & He & E1 & E2 & E3 & E4 & ->).
  split; [reflexivity|]. split; [reflexivity|].
  split; [apply count_ne_scalar|].
  split; [|split].
  - intros i j x Hi Hj Hx.
    change (mask (topoMask (assemble P k n t b e i1 i2 i3 i4)))
      with (ne_scalar (data (topoMask (assemble P k n t b e i1 i2 i3 i4)))
                      (float k)).
    unfold ne_scalar. rewrite at2_map.
    change (data (topoMask (assemble P k n t b e i1 i2 i3 i4)))
      with (slice2 (data (topoMask P))
              (parentLatStart (assemble P k n t b e i1 i2 i3 i4))
              (parentLatStop (assemble P k n t b e i1 i2 i3 i4))
              (parentLonStart (assemble P k n t b e i1 i2 i3 i4))
              (parentLonStop (assemble P k n t b e i1 i2 i3 i4))).
    rewrite at2_slice2.
    apply Nat.ltb_lt in Hi, Hj. rewrite Hi, Hj, Hx. reflexivity.
  - intros m S' HS' Hlat Hlon. apply SubRegion_init_inv in HS'.
    destruct HS' as (b' & e' & j1 & j2 & j3 & j4 & _ & _ & _ & _ & _ & _ & ->).
    cbn [assemble base parentLatStart parentLatStop parentLonStart
         parentLonStop topoMask numUnmaskedPoints with_mask data _get_data
         missingFlag] in *.
    injection Hlat as Hs1 Hs2. injection Hlon as Hs3 Hs4.
    rewrite Hs1, Hs2, Hs3, Hs4. auto.
  - intros m B ->. rewrite <- HS0. reflexivity.
Qed.

(** A masked cell of [P2] stores the missing-data value; derived for
    that value, the child has the cell unmasked. *)
Lemma child_mask_from_stored_values_witness :
  SubRegion_init P2 (-999) (Some [0; 0; 2; 2]) None None = OK S2
  /\ at2 (mask (topoMask P2)) 0 0 = Some true
  /\ at2 (mask (topoMask S2)) 0 0 = Some false
  /\ numUnmaskedPoints S2 = count_stored (data (topoMask S2)) (float (-999)).
Proof.
  assert (HS : SubRegion_init P2 (-999) (Some [0; 0; 2; 2]) None None = OK S2)
    by reflexivity.
  destruct (@child_mask_from_stored_values P2 (-999) (Some [0; 0; 2; 2])
              None None S2 HS) as [_ [_ [H3 [H4 _]]]].
  split; [exact HS|]. split; [reflexivity|]. split; [|exact H3].
  apply (H4 0%nat 0%nat (-999 # 1)); [repeat constructor .. | reflexivity].
Defined.

End Window.

(** ** When the working box contains a latitude of the parent *)

Section Overlap.

Import np ma awapIO awapRegion.
Local Open Scope Q_scope.

Lemma nth_error_between {A} (l : list A) (a n : nat) (x z : A) :
  nth_error l a = Some x -> nth_error l (a + S n) = Some z ->
  exists y, nth_error l (S a) = Some y.
Proof.
  intros Ha Hz.
  assert (Hlt : (S a < length l)%nat).
  { assert (a + S n < length l)%nat by (apply nth_error_Some; congruence).
    lia. }
  apply nth_error_Some in Hlt.
  destruct (nth_error l (S a)) as [y|]; [eauto | congruence].
Qed.

(** Walking down the indices from an entry not below [lo] to an entry
    not above [hi], in steps no longer than the box, one lands in the
    box. *)
Lemma walk_into_box_forward (axis : list Q) (lo hi : Q) (n a : nat) (xa xc : Q) :
  steps_at_most axis (hi - lo) ->
  nth_error axis a = Some xa -> lo <= xa ->
  nth_error axis (a + n) = Some xc -> xc <= hi ->
  exists i y, nth_error axis i = Some y /\ lo <= y <= hi.
Proof.
  intro Hstep. revert a xa. induction n as [|n IH]; intros a xa Ha Hlo Hc Hhi.
  - rewrite Nat.add_0_r in Hc. rewrite Ha in Hc. inversion Hc; subst xc.
    exists a, xa. auto.
  - destruct (Qlt_le_dec hi xa) as [Hout | Hin].
    + destruct (nth_error_between axis a n Ha Hc) as [y Hy].
      destruct (Hstep a xa y Ha Hy) as [Hd _].
      apply (IH (S a) y Hy).
      * Lqa.lra.
      * replace (S a + n)%nat with (a + S n)%nat by lia. exact Hc.
      * exact Hhi.
    + exists a, xa. auto.
Qed.

Lemma walk_into_box_backward (axis : list Q) (lo hi : Q) (n c : nat) (xa xc : Q) :
  steps_at_most axis (hi - lo) ->
  nth_error axis c = Some xc -> xc <= hi ->
  nth_error axis (c + n) = Some xa -> lo <= xa ->
  exists i y, nth_error axis i = Some y /\ lo <= y <= hi.
Proof.
  intro Hstep. revert c xc. induction n as [|n IH]; intros c xc Hc Hhi Ha Hlo.
  - rewrite Nat.add_0_r in Ha. rewrite Hc in Ha. inversion Ha; subst xa.
    exists c, xc. auto.
  - destruct (Qlt_le_dec xc lo) as [Hout | Hin].
    + destruct (nth_error_between axis c n Hc Ha) as [y Hy].
      destruct (Hstep c xc y Hc Hy) as [_ Hd].
      apply (IH (S c) y Hy).
      * Lqa.lra.
      * replace (S c + n)%nat with (c + S n)%nat by lia. exact Ha.
      * exact Hlo.
    + exists c, xc. auto.
Qed.

(** A derivation that returns found a latitude not below [minLat] and a
    latitude not above [maxLat]; when neighbouring latitudes of the
    parent are no further apart than the box is high, some latitude of
    the parent lies in the box. *)
Lemma derived_box_contains_latitude (P : Region) (k : Z)
    (bb : option (list Q)) (n t : option string) (S : SubRegion) :
  SubRegion_init P k bb n t = OK S ->
  steps_at_most (lats P) (maxLat S - minLat S) ->
  exists i y, nth_error (lats P) i = Some y /\ minLat S <= y <= maxLat S.
Proof.
  intros HS Hstep. apply SubRegion_init_inv in HS.
  destruct HS as (b & e & i1 & i2 & i3 & i4 & _ & _ & E1 & E2 & _ & _ & ->).
  cbn [assemble base minLat maxLat] in *.
  assert (Ige : In i1 (where_ge (lats P) (e_minLat e)))
    by (destruct b; [apply last_In | apply first_In]; exact E1).
  assert (Ile : In i2 (where_le (lats P) (e_maxLat e)))
    by (destruct b; [apply first_In | apply last_In]; exact E2).
  apply where_ge_In in Ige. destruct Ige as [xa [Ha Hlo]].
  apply where_le_In in Ile. destruct Ile as [xc [Hc Hhi]].
  destruct (Nat.le_gt_cases i1 i2) as [Hle | Hgt].
  - apply (@walk_into_box_forward (lats P) (e_minLat e) (e_maxLat e)
             (i2 - i1) i1 xa xc Hstep Ha Hlo); [|exact Hhi].
    replace (i1 + (i2 - i1))%nat with i2 by lia. exact Hc.
  - apply (@walk_into_box_backward (lats P) (e_minLat e) (e_maxLat e)
             (i1 - i2) i2 xa xc Hstep Hc Hhi); [|exact Hlo].
    replace (i2 + (i1 - i2))%nat with i1 by lia. exact Ha.
Qed.

End Overlap.

(** ** Failures of the constructors *)

Section Failures.

Import np ma awapIO awapRegion.
Local Open Scope Q_scope.

(** C2, as the code has it.  When no valid cell of the parent stores
    [k], automatic derivation never returns a region: it raises the
    [ValueError] of the [min()] reduction over the empty index array (or,
    before that, [AttributeError] when the parent has no orientation
    flag).  There is no error of its own for a missing category. *)
Theorem auto_subregion_absent_category (P : Region) (k : Z)
    (n t : option string) :
  (forall i j, ~ cell_is (topoMask P) (float k) i j) ->
  SubRegion_init P k None n t
  = Raise (match reversedLats P with
           | Some _ => ValueError
           | None => AttributeError
           end).
Proof.
  intro Hno. apply no_hits in Hno.
  unfold SubRegion_init. destruct (reversedLats P) as [b|]; [|reflexivity].
  cbn [getattr Py.bind]. unfold edges_from_mask, where2_cols.
  rewrite Hno. reflexivity.
Qed.

Lemma P3_has_no_category_4 : forall i j, ~ cell_is (topoMask P3) (float 4) i j.
Proof.
  intros i j H. apply hits_iff in H. vm_compute in H. exact H.
Qed.

Lemma auto_subregion_absent_category_witness :
  (forall i j, ~ cell_is (topoMask P3) (float 4) i j)
  /\ SubRegion_init P3 4 None None None = Raise ValueError.
Proof.
  split; [exact P3_has_no_category_4|].
  exact (@auto_subregion_absent_category P3 4 None None P3_has_no_category_4).
Defined.

(** C2 as stated fails: for a category absent from the 3 x 3 parent the
    constructor raises the reduction's [ValueError]. *)
Lemma absent_category_raises_ValueError :
  (forall i j, ~ cell_is (topoMask P3) (float 4) i j)
  /\ SubRegion_init P3 4 None None None = Raise ValueError.
Proof. split; [exact P3_has_no_category_4 | reflexivity]. Qed.




(** C6 at a grid of a single row: the first and the last latitude are
    the same value, the test [lats[-1] < lats[0]] is false, and the
    constructor returns a region whose orientation flag was never
    assigned; deriving a sub-region from it stops at the read of the
    flag. *)
Theorem single_row_orientation_unset :
  Region_init h1 flt1 [] None None false = OK P1
  /\ lats P1 = [1 # 2]
  /\ reversedLats P1 = None
  /\ SubRegion_init P1 1 None None None = Raise AttributeError.
Proof. repeat split. Qed.

(** The orientation flag after construction is [True] or unassigned,
    never [False]. *)
Lemma Region_init_orientation (h : HeaderDict) (f : list Q)
    (l : list (string * Z)) (n t : option string) (s : bool) (R : Region) :
  Region_init h f l n t s = OK R ->
  exists y_last y_first,
    last (getLats h true) = OK y_last
    /\ first (getLats h true) = OK y_first
    /\ reversedLats R = (if Qlt_bool y_last y_first then Some true else None).
Proof.
  unfold Region_init. intro H.
  apply bind_OK in H. destruct H as [y1 [H1 H]].
  apply bind_OK in H. destruct H as [y0 [H0 H]].
  apply bind_OK in H. destruct H as [m [Hm H]].
  inversion H. exists y1, y0. auto.
Qed.


Lemma first_nth_error {A} (l : list A) (x : A) :
  first l = OK x -> nth_error l 0 = Some x.
Proof. destruct l; simpl; intro H; inversion H; reflexivity. Qed.

Lemma last_nth_error {A} (l : list A) (x : A) :
  last l = OK x -> nth_error l (length l - 1) = Some x.
Proof.
  induction l as [|a t IH]; intro H; [discriminate|].
  destruct t as [|b t'].
  - inversion H. reflexivity.
  - specialize (IH H). simpl length in *.
    replace (S (S (length t')) - 1)%nat with (S (S (length t') - 1)) by lia.
    exact IH.
Qed.

(** With a positive cell size the flag is [True] for two rows or more
    and unassigned for a single row. *)
Lemma Region_init_orientation_by_rows (h : HeaderDict) (f : list Q)
    (l : list (string * Z)) (n t : option string) (s : bool) (R : Region) :
  Region_init h f l n t s = OK R -> 0 < cellsize h ->
  reversedLats R = (if (2 <=? nrows h)%Z then Some true else None).
Proof.
  intros HR Hcs. apply Region_init_orientation in HR.
  destruct HR as (y1 & y0 & H1 & H0 & ->).
  apply last_nth_error in H1. apply first_nth_error in H0.
  assert (Hlen : length (getLats h true) = Z.to_nat (nrows h)).
  { unfold getLats. rewrite length_rev. apply linspace_length. }
  rewrite Hlen in H1. unfold Qlt_bool.
  destruct (Z.leb_spec 2 (nrows h)) as [Hn | Hn].
  - assert (Hlt : y1 < y0).
    { apply (@getLats_descending h Hcs 0%nat (Z.to_nat (nrows h) - 1)%nat);
        [lia | assumption | assumption]. }
    destruct (Qle_bool y0 y1) eqn:E; [|reflexivity].
    apply Qle_bool_iff in E. Lqa.lra.
  - replace (Z.to_nat (nrows h) - 1)%nat with 0%nat in H1 by lia.
    rewrite H0 in H1. inversion H1; subst y1.
    assert (E : Qle_bool y0 y0 = true) by (apply Qle_bool_iff, Qle_refl).
    rewrite E. reflexivity.
Qed.

End Failures.

(** ** Regions as the constructor builds them *)

Section Constructed.

Import np ma awapIO awapRegion.
Local Open Scope Q_scope.

Lemma chunks_length {A} (n c : nat) (l : list A) : length (chunks n c l) = n.
Proof.
  revert l. induction n as [|n IH]; intro l; simpl; [reflexivity|].
  rewrite IH. reflexivity.
Qed.

Lemma chunks_rows {A} (n c : nat) (l : list A) :
  length l = (n * c)%nat ->
  Forall (fun row => length row = c) (chunks n c l).
Proof.
  revert l. induction n as [|n IH]; intros l Hl; simpl; constructor.
  - rewrite length_firstn. lia.
  - apply IH. rewrite length_skipn. lia.
Qed.

Lemma reshape_OK {A} (l : list A) (rows cols : Z) (a : list (list A)) :
  reshape l rows cols = OK a ->
  length a = Z.to_nat rows
  /\ Forall (fun row => length row = Z.to_nat cols) a.
Proof.
  unfold reshape.
  destruct ((0 <=? rows)%Z && (0 <=? cols)%Z
            && (Z.of_nat (length l) =? rows * cols)%Z)%bool eqn:E;
    [|discriminate].
  apply andb_true_iff in E. destruct E as [E E3].
  apply andb_true_iff in E. destruct E as [E1 E2].
  apply Z.leb_le in E1, E2. apply Z.eqb_eq in E3.
  intro H. inversion H. split.
  - apply chunks_length.
  - apply chunks_rows. nia.
Qed.

(** A region returned by [Region.__init__] has a raster of the shape of
    its axes and the mask computed from its values. *)
Lemma Region_init_well_formed (h : HeaderDict) (f : list Q)
    (l : list (string * Z)) (n t : option string) (s : bool) (R : Region) :
  Region_init h f l n t s = OK R ->
  grid_shape R /\ mask_from_values R
  /\ dLat R = cellsize h /\ dLon R = cellsize h.
Proof.
  unfold Region_init. intro H.
  apply bind_OK in H. destruct H as [y1 [H1 H]].
  apply bind_OK in H. destruct H as [y0 [H0 H]].
  apply bind_OK in H. destruct H as [m [Hm H]].
  inversion H. subst R. clear H.
  unfold readAWAP_flt in Hm. apply bind_OK in Hm.
  destruct Hm as [a [Ha Hm]]. inversion Hm. subst m. clear Hm.
  apply reshape_OK in Ha. destruct Ha as [Hrows Hcols].
  unfold grid_shape, mask_from_values.
  cbn [topoMask lats lons missingFlag dLat dLon masked_values data mask].
  repeat split; try reflexivity.
  - unfold getLats. rewrite length_rev, linspace_length. exact Hrows.
  - unfold getLons. rewrite linspace_length. exact Hcols.
Qed.

End Constructed.

(** ** Explicit bounding boxes on constructed parents *)

Section ExplicitBox.

Import np ma awapIO awapRegion.
Local Open Scope Q_scope.

Lemma steps_at_most_weaken (axis : list Q) (d d' : Q) :
  d <= d' -> steps_at_most axis d -> steps_at_most axis d'.
Proof.
  intros Hd H i x y Hx Hy. destruct (H i x y Hx Hy). split; Lqa.lra.
Qed.

(** Neighbouring latitudes of a header are one cell apart. *)
Lemma getLats_steps (h : HeaderDict) :
  0 <= cellsize h -> steps_at_most (getLats h true) (cellsize h).
Proof.
  intros Hcs i x y Hx Hy.
  assert (Hlat := getLats_values h).
  destruct (Forall2_Qeq_nth _ Hlat Hx) as [x' [Hx' Ex]].
  destruct (Forall2_Qeq_nth _ Hlat Hy) as [y' [Hy' Ey]].
  apply nth_error_rev_centers in Hx', Hy'.
  destruct Hx' as [Hi ->], Hy' as [Hj ->]. rewrite Ex, Ey.
  unfold cell_center.
  replace (Z.to_nat (nrows h) - S i)%nat
    with (S (Z.to_nat (nrows h) - S (S i))) by lia.
  rewrite Nat2Z.inj_succ. unfold Z.succ. rewrite inject_Z_plus.
  change (inject_Z 1) with 1.
  split; Lqa.lra.
Qed.

(** On a parent built by the constructor from a header with a
    non-negative cell size, every derivation from a bounding box whose
    latitudes are in order finds a latitude of the parent in the working
    box. *)
Lemma explicit_box_contains_latitude (h : HeaderDict) (f : list Q)
    (l : list (string * Z)) (n t : option string) (s : bool) (P : Region)
    (k : Z) (b0 b1 b2 b3 : Q) (n' t' : option string) (S : SubRegion) :
  Region_init h f l n t s = OK P ->
  0 <= cellsize h -> b1 <= b3 ->
  SubRegion_init P k (Some [b0; b1; b2; b3]) n' t' = OK S ->
  exists i y, nth_error (lats P) i = Some y /\ minLat S <= y <= maxLat S.
Proof.
  intros HP Hcs Hbox HS.
  apply (@derived_box_contains_latitude P k _ n' t' S HS).
  pose proof (@Region_init_well_formed h f l n t s P HP) as [_ [_ [HdLat _]]].
  assert (Hlats : lats P = getLats h true).
  { unfold Region_init in HP.
    apply bind_OK in HP. destruct HP as [y1 [_ HP]].
    apply bind_OK in HP. destruct HP as [y0 [_ HP]].
    apply bind_OK in HP. destruct HP as [m [_ HP]].
    inversion HP. reflexivity. }
  apply SubRegion_init_inv in HS.
  destruct HS as (b & e & i1 & i2 & i3 & i4 & _ & He & _ & _ & _ & _ & ->).
  cbn [assemble base minLat maxLat].
  unfold edges_from_box in He. cbn in He. inversion He. subst e.
  cbn [e_minLat e_maxLat]. rewrite Hlats, HdLat.
  apply (@steps_at_most_weaken _ (cellsize h));
    [|apply getLats_steps, Hcs].
  unfold epsilon. Lqa.lra.
Qed.

End ExplicitBox.

(** ** Kullback-Leibler divergence *)

Section Divergence.

Import tdpdfs.
Local Open Scope R_scope.

Lemma kld_step_term (p q : list R) (dx kld : R) (i : nat) :
  kld_step p q dx kld i = kld + kld_term dx (nth i p 0, nth i q 0).
Proof.
  unfold kld_step, kld_term.
  destruct (Rle_dec (nth i p 0) 0) as [Hp | Hp];
    destruct (Rlt_dec 0 (nth i p 0)) as [Hp' | Hp']; try lra.
  destruct (Rle_dec (nth i q 0) 0) as [Hq | Hq];
    destruct (Rlt_dec 0 (nth i q 0)) as [Hq' | Hq']; lra.
Qed.

Lemma fold_left_pointwise {A B} (f g : A -> B -> A) (l : list B) (acc : A) :
  (forall a i, f a i = g a i) -> fold_left f l acc = fold_left g l acc.
Proof.
  intro H. revert acc. induction l as [|i t IH]; intro acc; simpl.
  - reflexivity.
  - rewrite H. apply IH.
Qed.

Lemma fold_left_sum (f : nat -> R) (l : list nat) (acc : R) :
  fold_left (fun a i => a + f i) l acc = acc + fold_right Rplus 0 (map f l).
Proof.
  revert acc. induction l as [|i t IH]; intro acc; simpl.
  - lra.
  - rewrite IH. lra.
Qed.

Lemma map_nth_combine (g : R * R -> R) (p q : list R) :
  length p = length q ->
  map (fun i => g (nth i p 0, nth i q 0)) (seq 0 (length p))
  = map g (combine p q).
Proof.
  revert q. induction p as [|x p IH]; intros q Hlen.
  - reflexivity.
  - destruct q as [|y q]; [discriminate|].
    simpl length. simpl seq. simpl map. f_equal.
    rewrite <- seq_shift, map_map. simpl. apply IH.
    simpl in Hlen. congruence.
Qed.

(** The loop of [compute_KLD] adds up the specified terms. *)
Lemma compute_KLD_sum (p q : list R) (dx : R) :
  length p = length q -> compute_KLD p q dx = OK (kld_spec p q dx).
Proof.
  intro Hlen. unfold compute_KLD.
  rewrite Hlen, Nat.eqb_refl. simpl negb. cbv iota. f_equal.
  rewrite <- Hlen.
  rewrite (@fold_left_pointwise _ _ (kld_step p q dx)
             (fun a i => a + kld_term dx (nth i p 0, nth i q 0)))
    by (intros a i; apply kld_step_term).
  rewrite (fold_left_sum (fun i => kld_term dx (nth i p 0, nth i q 0))).
  rewrite (map_nth_combine (kld_term dx)) by exact Hlen.
  unfold kld_spec. lra.
Qed.

Lemma log2_1 : log2 1 = 0.
Proof. unfold log2. rewrite ln_1. lra. Qed.

Lemma kld_term_same (dx x : R) : kld_term dx (x, x) = 0.
Proof.
  unfold kld_term. destruct (Rlt_dec 0 x) as [Hx | Hx]; [|reflexivity].
  replace (x / x) with 1 by (field; lra). rewrite log2_1. lra.
Qed.

Lemma kld_spec_same (p : list R) (dx : R) : kld_spec p p dx = 0.
Proof.
  unfold kld_spec. induction p as [|x t IH]; [reflexivity|].
  cbn [combine map fold_right]. rewrite kld_term_same, IH. lra.
Qed.

(** C4.  For densities of equal length, [compute_KLD] returns the sum,
    over the bins where both densities are positive, of
    [p[b] * log2(p[b] / q[b]) * dx]; a pass of the loop at a bin where
    either density is zero or negative leaves the sum as it is; and the
    divergence of a density from itself is 0. *)
Theorem compute_KLD_truncated_sum (p q : list R) (dx : R) :
  length p = length q ->
  compute_KLD p q dx = OK (kld_spec p q dx)
  /\ (forall kld i, nth i p 0 <= 0 \/ nth i q 0 <= 0 ->
        kld_step p q dx kld i = kld)
  /\ compute_KLD p p dx = OK 0.
Proof.
  intro Hlen. split; [|split].
  - apply compute_KLD_sum, Hlen.
  - intros kld i H. unfold kld_step.
    destruct (Rle_dec (nth i p 0) 0); [reflexivity|].
    destruct (Rle_dec (nth i q 0) 0); [reflexivity | lra].
  - rewrite compute_KLD_sum by reflexivity. rewrite kld_spec_same.
    reflexivity.
Qed.

Lemma compute_KLD_truncated_sum_witness :
  length [1 / 2; 0] = length [0; 1 / 2]
  /\ compute_KLD [1 / 2; 0] [0; 1 / 2] 1 = OK (kld_spec [1 / 2; 0] [0; 1 / 2] 1)
  /\ compute_KLD [1 / 2; 0] [1 / 2; 0] 1 = OK 0.
Proof.
  assert (Hlen : length [1 / 2; 0] = length [0; 1 / 2]) by reflexivity.
  destruct (@compute_KLD_truncated_sum [1 / 2; 0] [0; 1 / 2] 1 Hlen)
    as [H1 [_ H3]].
  split; [exact Hlen|]. split; [exact H1 | exact H3].
Defined.


Lemma mapM_total {A B} (f : A -> result B) (l : list A) :
  (forall x, In x l -> exists y, f x = OK y) ->
  exists ys, mapM f l = OK ys.
Proof.
  induction l as [|x t IH]; intro H.
  - exists []. reflexivity.
  - destruct (H x (or_introl eq_refl)) as [y Hy].
    destruct IH as [ys Hys]; [intros; apply H; right; assumption|].
    exists (y :: ys). simpl. rewrite Hy. simpl. rewrite Hys. reflexivity.
Qed.

Lemma mapM_nth {A B} (f : A -> result B) (l : list A) (ys : list B) :
  mapM f l = OK ys ->
  forall i x, nth_error l i = Some x ->
    exists y, nth_error ys i = Some y /\ f x = OK y.
Proof.
  revert ys. induction l as [|a t IH]; intros ys H i x Hi.
  - destruct i; discriminate.
  - simpl in H. destruct (f a) as [b|] eqn:Ea; [|discriminate].
    simpl in H. destruct (mapM f t) as [bs|] eqn:Et; [|discriminate].
    simpl in H. inversion H; subst ys. destruct i as [|i]; simpl in *.
    + inversion Hi; subst. eauto.
    + apply (IH bs eq_refl i x Hi).
Qed.

Lemma smooth_length (p : list R) : length (smooth p) = length p.
Proof. unfold smooth. apply length_map. Qed.

(** Every entry of the divergence matrix compares the smoothed row [i]
    with row [j] as stored. *)
Lemma kld_values_entry (tdpdf_y : list (list R)) (bin_width : R) :
  (forall p q, In p tdpdf_y -> In q tdpdf_y -> length p = length q) ->
  exists M,
    kld_values tdpdf_y bin_width = OK M
    /\ forall i j p q,
         nth_error tdpdf_y i = Some p -> nth_error tdpdf_y j = Some q ->
         at2 M i j = Some (kld_spec (smooth p) q bin_width).
Proof.
  intro Hlen. unfold kld_values.
  assert (Hin : forall p q, In p tdpdf_y -> In q tdpdf_y ->
            compute_KLD (smooth p) q bin_width
            = OK (kld_spec (smooth p) q bin_width)).
  { intros p q Hp Hq. apply compute_KLD_sum.
    rewrite smooth_length. apply Hlen; assumption. }
  destruct (@mapM_total _ _
              (fun p_row => mapM (fun q => compute_KLD (smooth p_row) q bin_width)
                                 tdpdf_y) tdpdf_y) as [M HM].
  { intros p Hp. apply mapM_total. intros q Hq. rewrite (Hin p q Hp Hq). eauto. }
  exists M. split; [exact HM|]. intros i j p q Hi Hj.
  destruct (mapM_nth _ _ HM i Hi) as [row [Hrow Erow]].
  destruct (mapM_nth _ _ Erow j Hj) as [v [Hv Ev]].
  unfold at2. rewrite Hrow, Hv. f_equal.
  rewrite Hin in Ev by (eapply nth_error_In; eassumption).
  inversion Ev. reflexivity.
Qed.

Lemma log2_below_one (x : R) : 0 < x < 1 -> log2 x < 0.
Proof.
  intros [H0 H1]. unfold log2.
  assert (Hx : ln x < 0) by (rewrite <- ln_1; apply ln_increasing; assumption).
  assert (H2 : 0 < ln 2) by (rewrite <- ln_1; apply ln_increasing; lra).
  apply Ropp_lt_cancel. rewrite Ropp_0.
  replace (- (ln x / ln 2)) with ((- ln x) / ln 2) by (field; lra).
  apply Rdiv_lt_0_compat; lra.
Qed.

Lemma sum_app (l1 l2 : list R) :
  fold_right Rplus 0 (l1 ++ l2) = fold_right Rplus 0 l1 + fold_right Rplus 0 l2.
Proof. induction l1 as [|x t IH]; simpl; [lra | rewrite IH; lra]. Qed.

Lemma sum_repeat_0 (n : nat) : fold_right Rplus 0 (repeat 0 n) = 0.
Proof. induction n as [|n IH]; simpl; [reflexivity | rewrite IH; lra]. Qed.

Lemma combine_map_l {A B} (g : A -> B) (l : list A) :
  combine (map g l) l = map (fun x => (g x, x)) l.
Proof. induction l; simpl; congruence. Qed.

Lemma kld_term_q_zero (dx x : R) : kld_term dx (x, 0) = 0.
Proof.
  unfold kld_term. destruct (Rlt_dec 0 x); [|reflexivity].
  destruct (Rlt_dec 0 0); [lra | reflexivity].
Qed.

Lemma smooth_two_spikes : smooth two_spikes = map smoothed_200 two_spikes.
Proof.
  unfold smooth, smoothed_200.
  replace (INR (length two_spikes)) with 200; [reflexivity|].
  change (length two_spikes) with 200%nat.
  rewrite INR_IZR_INZ. reflexivity.
Qed.

Lemma smoothed_spike : 0 < smoothed_200 (1 / 2) / (1 / 2) < 1.
Proof.
  unfold smoothed_200.
  assert (He : 0 < 1 / 10 ^ 8).
  { apply Rdiv_lt_0_compat; [lra | apply pow_lt; lra]. }
  set (e := 1 / 10 ^ 8) in *.
  assert (Hd : 0 < 1 + 200 * e) by lra.
  replace ((1 / 2 + e) / (1 + 200 * e) / (1 / 2))
    with ((1 + 2 * e) / (1 + 200 * e)) by (field; lra).
  split.
  - apply Rdiv_lt_0_compat; lra.
  - apply (Rmult_lt_reg_r (1 + 200 * e)); [exact Hd|].
    replace ((1 + 2 * e) / (1 + 200 * e) * (1 + 200 * e)) with (1 + 2 * e)
      by (field; lra).
    lra.
Qed.

Lemma kld_spec_two_spikes :
  kld_spec (smooth two_spikes) two_spikes 1
  = 2 * (smoothed_200 (1 / 2) * log2 (smoothed_200 (1 / 2) / (1 / 2))).
Proof.
  unfold kld_spec. rewrite smooth_two_spikes, combine_map_l, map_map.
  unfold two_spikes. cbn [map fold_right]. rewrite map_app, sum_app.
  rewrite map_repeat, kld_term_q_zero, sum_repeat_0. cbn [map fold_right].
  assert (Hs : kld_term 1 (smoothed_200 (1 / 2), 1 / 2)
               = smoothed_200 (1 / 2) * log2 (smoothed_200 (1 / 2) / (1 / 2))).
  { unfold kld_term. destruct smoothed_spike as [H0 _].
    destruct (Rlt_dec 0 (smoothed_200 (1 / 2))) as [_ | Hn].
    - destruct (Rlt_dec 0 (1 / 2)) as [_ | Hn]; lra.
    - exfalso. apply Hn.
      replace (smoothed_200 (1 / 2))
        with (smoothed_200 (1 / 2) / (1 / 2) * (1 / 2)) by (field; lra).
      apply Rmult_lt_0_compat; lra. }
  rewrite Hs. lra.
Qed.

(** C3 at a single window whose density over 200 bins of width 1 has
    all its mass in the first and the last bin: the matrix entry is
    computed from the smoothed row against the row as stored, whose 198
    empty bins are skipped by the truncation; the entry is negative,
    while the divergence of the row from itself is 0 both when the two
    arguments are smoothed and when neither is. *)
Theorem kld_values_mixes_smoothing :
  exists v,
    kld_values [two_spikes] 1 = OK [[v]]
    /\ v = kld_spec (smooth two_spikes) two_spikes 1
    /\ v < 0
    /\ compute_KLD (smooth two_spikes) (smooth two_spikes) 1 = OK 0
    /\ compute_KLD two_spikes two_spikes 1 = OK 0.
Proof.
  exists (kld_spec (smooth two_spikes) two_spikes 1).
  split; [|split; [reflexivity|split; [|split]]].
  - unfold kld_values. cbn [mapM].
    rewrite compute_KLD_sum by apply smooth_length. reflexivity.
  - rewrite kld_spec_two_spikes.
    pose proof (log2_below_one smoothed_spike) as Hl.
    destruct smoothed_spike as [H0 _].
    assert (Hs : 0 < smoothed_200 (1 / 2)).
    { replace (smoothed_200 (1 / 2))
        with (smoothed_200 (1 / 2) / (1 / 2) * (1 / 2)) by (field; lra).
      apply Rmult_lt_0_compat; lra. }
    nra.
  - rewrite compute_KLD_sum by reflexivity. rewrite kld_spec_same. reflexivity.
  - rewrite compute_KLD_sum by reflexivity. rewrite kld_spec_same. reflexivity.
Qed.

End Divergence.

(** ** The constructor of [Region]: failures, geometry and counts *)

Section RegionConstructor.

Import np ma awapIO awapRegion.
Local Open Scope Q_scope.

Lemma linspace_first_last_empty (start stop : Q) (num : Z) :
  (num <= 0)%Z -> linspace start stop num = [].
Proof.
  intro H. unfold linspace. replace (Z.to_nat num) with 0%nat by lia.
  reflexivity.
Qed.

Lemma last_total {A} (l : list A) : l <> [] -> exists x, last l = OK x.
Proof.
  destruct l as [|a t]; [congruence|]. intros _.
  apply (@last_nonempty _ (a :: t) a). left. reflexivity.
Qed.




(** What a returned region holds. *)
Lemma Region_init_inv (h : HeaderDict) (f : list Q)
    (l : list (string * Z)) (n t : option string) (s : bool) (R : Region) :
  Region_init h f l n t s = OK R ->
  exists a flag,
    reshape f (nrows h) (ncols h) = OK a
    /\ R = mkRegion (descriptor n) (descriptor t) 0 (nrows h) (ncols h)
             (cellsize h) (cellsize h) (yllcorner h) (xllcorner h)
             (inject_Z (nrows h) * cellsize h + yllcorner h)
             (inject_Z (ncols h) * cellsize h + xllcorner h)
             (nodata_value h) (getLats h true) (getLons h) flag
             (masked_values a (nodata_value h))
             (ma.count (masked_values a (nodata_value h)))
             (if s then true else false) (if s then Some l else None).
Proof.
  unfold Region_init. intro H.
  apply bind_OK in H. destruct H as [y1 [H1 H]].
  apply bind_OK in H. destruct H as [y0 [H0 H]].
  apply bind_OK in H. destruct H as [m [Hm H]].
  unfold readAWAP_flt in Hm. apply bind_OK in Hm.
  destruct Hm as [a [Ha Hm]]. inversion Hm. subst m.
  inversion H. eauto.
Qed.

Lemma cell_center_inside (ll cs : Q) (n i : nat) :
  0 < cs -> (i < n)%nat ->
  ll < cell_center ll cs i < inject_Z (Z.of_nat n) * cs + ll.
Proof.
  intros Hcs Hi. unfold cell_center.
  assert (H0 : 0 <= inject_Z (Z.of_nat i)).
  { change 0 with (inject_Z 0). rewrite <- Zle_Qle. lia. }
  assert (H1 : inject_Z (Z.of_nat i) + 1 <= inject_Z (Z.of_nat n)).
  { change 1 with (inject_Z 1). rewrite <- inject_Z_plus, <- Zle_Qle. lia. }
  assert (H0' : 0 <= inject_Z (Z.of_nat i) * cs)
    by (apply Qmult_le_0_compat; Lqa.lra).
  assert (H1' : (inject_Z (Z.of_nat i) + 1) * cs <= inject_Z (Z.of_nat n) * cs)
    by (apply Qmult_le_compat_r; Lqa.lra).
  split; Lqa.lra.
Qed.

Lemma getLats_inside (h : HeaderDict) (y : Q) :
  0 < cellsize h -> In y (getLats h true) ->
  yllcorner h < y < inject_Z (nrows h) * cellsize h + yllcorner h.
Proof.
  intros Hcs H. apply In_nth_error in H. destruct H as [i Hi].
  destruct (Forall2_Qeq_nth _ (getLats_values h) Hi) as [y' [Hy' Ey]].
  apply nth_error_rev_centers in Hy'. destruct Hy' as [Hlt ->].
  pose proof (@cell_center_inside (yllcorner h) (cellsize h)
                (Z.to_nat (nrows h)) (Z.to_nat (nrows h) - S i) Hcs
                ltac:(lia)) as Hin.
  rewrite Z2Nat.id in Hin by lia. rewrite Ey. exact Hin.
Qed.

Lemma getLons_inside (h : HeaderDict) (x : Q) :
  0 < cellsize h -> In x (getLons h) ->
  xllcorner h < x < inject_Z (ncols h) * cellsize h + xllcorner h.
Proof.
  intros Hcs H. apply In_nth_error in H. destruct H as [i Hi].
  destruct (Forall2_Qeq_nth _ (getLons_values h) Hi) as [y' [Hy' Ey]].
  apply nth_error_centers in Hy'. destruct Hy' as [Hlt ->].
  pose proof (@cell_center_inside (xllcorner h) (cellsize h)
                (Z.to_nat (ncols h)) i Hcs Hlt) as Hin.
  rewrite Z2Nat.id in Hin by lia. rewrite Ey. exact Hin.
Qed.

(** The edges of a constructed region are those of the header, and its
    cell centres lie strictly inside its bounding box. *)
Theorem Region_init_centres_inside (h : HeaderDict) (f : list Q)
    (l : list (string * Z)) (n t : option string) (s : bool) (R : Region) :
  Region_init h f l n t s = OK R -> 0 < cellsize h ->
  minLat R = yllcorner h /\ minLon R = xllcorner h
  /\ maxLat R = inject_Z (nrows h) * cellsize h + yllcorner h
  /\ maxLon R = inject_Z (ncols h) * cellsize h + xllcorner h
  /\ (forall y, In y (lats R) -> minLat R < y < maxLat R)
  /\ (forall x, In x (lons R) -> minLon R < x < maxLon R).
Proof.
  intros HR Hcs. apply Region_init_inv in HR.
  destruct HR as (a & flag & _ & ->).
  cbn [minLat minLon maxLat maxLon lats lons].
  split; [reflexivity|]. split; [reflexivity|].
  split; [reflexivity|]. split; [reflexivity|]. split.
  - intros y Hy. apply getLats_inside; assumption.
  - intros x Hx. apply getLons_inside; assumption.
Qed.

Lemma Region_init_centres_inside_witness :
  Region_init h3 flt3 [] None None false = OK P3 /\ 0 < cellsize h3
  /\ (forall y, In y (lats P3) -> minLat P3 < y < maxLat P3).
Proof.
  assert (HR : Region_init h3 flt3 [] None None false = OK P3) by reflexivity.
  assert (Hcs : 0 < cellsize h3) by reflexivity.
  split; [exact HR|]. split; [exact Hcs|].
  exact (proj1 (proj2 (proj2 (proj2 (proj2
           (@Region_init_centres_inside h3 flt3 [] None None false P3
              HR Hcs)))))).
Defined.


Lemma chunks_concat {A} (n c : nat) (l : list A) :
  length l = (n * c)%nat -> concat (chunks n c l) = l.
Proof.
  revert l. induction n as [|n IH]; intros l Hl.
  - destruct l; [reflexivity | discriminate].
  - simpl. rewrite IH by (rewrite length_skipn; lia).
    apply firstn_skipn.
Qed.

Lemma count_false_true (m : list bool) :
  (count_false m + count_true m = length m)%nat.
Proof.
  unfold count_false, count_true.
  induction m as [|b t IH]; [reflexivity|].
  destruct b; simpl; lia.
Qed.

Lemma count_false_map {A} (e : A -> bool) (l : list A) :
  count_false (map e l) = length (filter (fun x => negb (e x)) l).
Proof.
  unfold count_false. induction l as [|x t IH]; [reflexivity|].
  simpl. destruct (e x); simpl; rewrite IH; reflexivity.
Qed.

Lemma filter_concat_length {A} (e : A -> bool) (ll : list (list A)) :
  list_sum (map (fun row => length (filter e row)) ll)
  = length (filter e (concat ll)).
Proof.
  induction ll as [|row t IH]; [reflexivity|].
  simpl. rewrite filter_app, length_app, IH. reflexivity.
Qed.

Lemma reshape_concat {A} (l : list A) (rows cols : Z) (a : list (list A)) :
  reshape l rows cols = OK a -> concat a = l.
Proof.
  unfold reshape.
  destruct ((0 <=? rows)%Z && (0 <=? cols)%Z
            && (Z.of_nat (length l) =? rows * cols)%Z)%bool eqn:E;
    [|discriminate].
  apply andb_true_iff in E. destruct E as [E E3].
  apply andb_true_iff in E. destruct E as [E1 E2].
  apply Z.leb_le in E1, E2. apply Z.eqb_eq in E3.
  intro H. inversion H. apply chunks_concat. nia.
Qed.

(** The unmasked points of a constructed region are the values of the
    mask file that are not within tolerance of [nodata_value]; together
    with the masked cells they make up the [nrows * ncols] cells. *)
Theorem Region_init_counts (h : HeaderDict) (f : list Q)
    (l : list (string * Z)) (n t : option string) (s : bool) (R : Region) :
  Region_init h f l n t s = OK R ->
  numUnmaskedPoints R
    = length (filter (fun x => negb (close_to (nodata_value h) x)) f)
  /\ Z.of_nat (numUnmaskedPoints R + count_masked (topoMask R))
     = (nrows h * ncols h)%Z.
Proof.
  intro HR. apply Region_init_inv in HR.
  destruct HR as (a & flag & Ha & ->).
  cbn [numUnmaskedPoints topoMask]. unfold ma.count, count_masked.
  cbn [masked_values mask]. rewrite !map_map.
  assert (Hcount : list_sum (map (fun row =>
                      count_false (map (close_to (nodata_value h)) row)) a)
                   = length (filter (fun x => negb (close_to (nodata_value h) x))
                                    f)).
  { rewrite <- (reshape_concat _ _ _ Ha).
    rewrite <- filter_concat_length. f_equal. apply map_ext.
    intro row. apply count_false_map. }
  split; [exact Hcount|].
  assert (Hsum : forall ll : list (list Q),
             (list_sum (map (fun row =>
                 count_false (map (close_to (nodata_value h)) row)) ll)
              + list_sum (map (fun row =>
                   count_true (map (close_to (nodata_value h)) row)) ll)
              = length (concat ll))%nat).
  { induction ll as [|row tl IH]; [reflexivity|].
    simpl. rewrite length_app.
    pose proof (count_false_true (map (close_to (nodata_value h)) row)) as Hr.
    rewrite length_map in Hr. lia. }
  rewrite Hsum, (reshape_concat _ _ _ Ha).
  unfold reshape in Ha.
  destruct ((0 <=? nrows h)%Z && (0 <=? ncols h)%Z
            && (Z.of_nat (length f) =? nrows h * ncols h)%Z)%bool eqn:E;
    [|discriminate].
  apply andb_true_iff in E. destruct E as [_ E3].
  apply Z.eqb_eq in E3. exact E3.
Qed.

Lemma Region_init_counts_witness :
  Region_init h2 flt2 [] None None false = OK P2
  /\ numUnmaskedPoints P2 = 3%nat
  /\ Z.of_nat (numUnmaskedPoints P2 + count_masked (topoMask P2)) = 4%Z.
Proof.
  assert (HR : Region_init h2 flt2 [] None None false = OK P2) by reflexivity.
  destruct (@Region_init_counts h2 flt2 [] None None false P2 HR) as [H1 H2].
  split; [exact HR|]. split; [exact H1 | exact H2].
Defined.

End RegionConstructor.

(** ** The index window on ordered axes *)

Section OrderedAxes.

Import np ma awapIO awapRegion.
Local Open Scope Q_scope.

Lemma window_nondecreasing (axis : list Q) (lo hi : Q) (a c : nat) :
  nondecreasing axis ->
  first (where_ge axis lo) = OK a -> last (where_le axis hi) = OK c ->
  forall i x, nth_error axis i = Some x ->
    ((a <= i < S c)%nat <-> lo <= x <= hi).
Proof.
  intros Hord Ha Hc i x Hx.
  pose proof (first_In _ Ha) as Ia. pose proof (last_In _ Hc) as Ic.
  apply where_ge_In in Ia. destruct Ia as [xa [Hxa Hlo]].
  apply where_le_In in Ic. destruct Ic as [xc [Hxc Hhi]].
  split.
  - intros [H1 H2]. split.
    + apply Qle_trans with xa; [exact Hlo|].
      apply (Hord a i xa x); [lia | assumption | assumption].
    + apply Qle_trans with xc; [|exact Hhi].
      apply (Hord i c x xc); [lia | assumption | assumption].
  - intros [H1 H2]. split.
    + apply (@first_least _ a i Ha). apply where_ge_In. eauto.
    + assert (i <= c)%nat; [|lia].
      apply (@last_greatest _ c i Hc). apply where_le_In. eauto.
Qed.

Lemma window_nonincreasing (axis : list Q) (lo hi : Q) (a c : nat) :
  nonincreasing axis ->
  last (where_ge axis lo) = OK c -> first (where_le axis hi) = OK a ->
  forall i x, nth_error axis i = Some x ->
    ((a <= i < S c)%nat <-> lo <= x <= hi).
Proof.
  intros Hord Hc Ha i x Hx.
  pose proof (first_In _ Ha) as Ia. pose proof (last_In _ Hc) as Ic.
  apply where_le_In in Ia. destruct Ia as [xa [Hxa Hhi]].
  apply where_ge_In in Ic. destruct Ic as [xc [Hxc Hlo]].
  split.
  - intros [H1 H2]. split.
    + apply Qle_trans with xc; [exact Hlo|].
      apply (Hord i c x xc); [lia | assumption | assumption].
    + apply Qle_trans with xa; [|exact Hhi].
      apply (Hord a i xa x); [lia | assumption | assumption].
  - intros [H1 H2]. split.
    + apply (@first_least _ a i Ha). apply where_le_In. eauto.
    + assert (i <= c)%nat; [|lia].
      apply (@last_greatest _ c i Hc). apply where_ge_In. eauto.
Qed.

(** The index window of a returned sub-region, on axes ordered as the
    orientation flag says. *)
Lemma window_characterised (P : Region) (k : Z) (bb : option (list Q))
    (n t : option string) (S : SubRegion) (b : bool) :
  SubRegion_init P k bb n t = OK S ->
  reversedLats P = Some b -> lats_ordered P b -> nondecreasing (lons P) ->
  (forall i y, nth_error (lats P) i = Some y ->
     ((parentLatStart S <= i < parentLatStop S)%nat
      <-> minLat S <= y <= maxLat S))
  /\ (forall j x, nth_error (lons P) j = Some x ->
        ((parentLonStart S <= j < parentLonStop S)%nat
         <-> minLon S <= x <= maxLon S)).
Proof.
  intros HS Hb Hlat Hlon. apply SubRegion_init_inv in HS.
  destruct HS as (b' & e & i1 & i2 & i3 & i4 & Hb' & _ & E1 & E2 & E3 & E4 & ->).
  rewrite Hb in Hb'. inversion Hb'; subst b'. clear Hb'.
  cbn [assemble base minLat maxLat minLon maxLon parentLatStart parentLatStop
       parentLonStart parentLonStop].
  split.
  - unfold lats_ordered in Hlat. destruct b.
    + apply window_nonincreasing; assumption.
    + apply window_nondecreasing; assumption.
  - apply window_nondecreasing; assumption.
Qed.


Lemma filter_slice {A} (p : A -> bool) (l : list A) (a b : nat) :
  (forall i x, nth_error l i = Some x -> (p x = true <-> (a <= i < b)%nat)) ->
  filter p l = slice l a b.
Proof.
  revert a b. induction l as [|x t IH]; intros a b H.
  - unfold slice. rewrite skipn_nil, firstn_nil. reflexivity.
  - destruct a as [|a'].
    + destruct b as [|b'].
      * assert (Hx : p x = false).
        { destruct (p x) eqn:E; [|reflexivity].
          apply (H 0%nat x eq_refl) in E. lia. }
        simpl. rewrite Hx. rewrite (IH 0%nat 0%nat); [reflexivity|].
        intros i y Hi. split.
        -- intro E. apply (H (Datatypes.S i) y Hi) in E. lia.
        -- lia.
      * assert (Hx : p x = true) by (apply (H 0%nat x eq_refl); lia).
        simpl. rewrite Hx. unfold slice. simpl. f_equal.
        rewrite (IH 0%nat b').
        -- unfold slice. simpl. rewrite Nat.sub_0_r. reflexivity.
        -- intros i y Hi. rewrite (H (Datatypes.S i) y Hi). lia.
    + assert (Hx : p x = false).
      { destruct (p x) eqn:E; [|reflexivity].
        apply (H 0%nat x eq_refl) in E. lia. }
      simpl. rewrite Hx. rewrite (IH a' (b - 1)%nat).
      * unfold slice. simpl. f_equal. lia.
      * intros i y Hi. rewrite (H (Datatypes.S i) y Hi). lia.
Qed.

Lemma in_box_iff (lo hi y : Q) : in_box lo hi y = true <-> lo <= y <= hi.
Proof.
  unfold in_box. rewrite andb_true_iff, !Qle_bool_iff. tauto.
Qed.



Lemma descending_nonincreasing (l : list Q) : descending l -> nonincreasing l.
Proof.
  intros H i j x y Hij Hx Hy. destruct (Nat.eq_dec i j) as [-> | Hne].
  - rewrite Hx in Hy. inversion Hy. apply Qle_refl.
  - apply Qlt_le_weak. apply (H i j x y); [lia | assumption | assumption].
Qed.

Lemma ascending_nondecreasing (l : list Q) : ascending l -> nondecreasing l.
Proof.
  intros H i j x y Hij Hx Hy. destruct (Nat.eq_dec i j) as [-> | Hne].
  - rewrite Hx in Hy. inversion Hy. apply Qle_refl.
  - apply Qlt_le_weak. apply (H i j x y); [lia | assumption | assumption].
Qed.

(** The axes of a region constructed from a header with a positive cell
    size are ordered. *)
Lemma P3_axes_ordered : lats_ordered P3 true /\ nondecreasing (lons P3).
Proof.
  assert (Hcs : 0 < cellsize h3) by reflexivity. split.
  - apply descending_nonincreasing.
    change (lats P3) with (getLats h3 true). apply getLats_descending, Hcs.
  - apply ascending_nondecreasing.
    change (lons P3) with (getLons h3). apply getLons_ascending, Hcs.
Qed.



End OrderedAxes.

(** ** The shape of a sub-region *)

Section ChildShape.

Import np ma awapIO awapRegion.
Local Open Scope Q_scope.

Lemma In_slice {A} (l : list A) (a b : nat) (x : A) :
  In x (slice l a b) -> In x l.
Proof.
  intro H. apply In_nth_error in H. destruct H as [i Hi].
  rewrite nth_error_slice in Hi.
  destruct (i <? b - a)%nat; [|discriminate].
  eapply nth_error_In, Hi.
Qed.

Lemma where_index_valid (c : list bool) (i : nat) :
  In i (where1 c) -> (i < length c)%nat.
Proof.
  intro H. apply where1_In in H. apply nth_error_Some. congruence.
Qed.

Lemma where_ge_valid (axis : list Q) (lo : Q) (i : nat) :
  In i (where_ge axis lo) -> (i < length axis)%nat.
Proof.
  intro H. apply where_index_valid in H. rewrite length_map in H. exact H.
Qed.

Lemma where_le_valid (axis : list Q) (hi : Q) (i : nat) :
  In i (where_le axis hi) -> (i < length axis)%nat.
Proof.
  intro H. apply where_index_valid in H. rewrite length_map in H. exact H.
Qed.

(** The four indices of a returned sub-region are indices of the
    parent's axes. *)
Lemma window_indices_valid (P : Region) (k : Z) (bb : option (list Q))
    (n t : option string) (S : SubRegion) :
  SubRegion_init P k bb n t = OK S ->
  (parentMinLatIndex S < length (lats P))%nat
  /\ (parentMaxLatIndex S < length (lats P))%nat
  /\ (parentMinLonIndex S < length (lons P))%nat
  /\ (parentMaxLonIndex S < length (lons P))%nat.
Proof.
  intro HS. apply SubRegion_init_inv in HS.
  destruct HS as (b & e & i1 & i2 & i3 & i4 & _ & _ & E1 & E2 & E3 & E4 & ->).
  cbn [assemble parentMinLatIndex parentMaxLatIndex parentMinLonIndex
       parentMaxLonIndex].
  repeat split.
  - apply (@where_ge_valid (lats P) (e_minLat e)).
    destruct b; [apply last_In | apply first_In]; exact E1.
  - apply (@where_le_valid (lats P) (e_maxLat e)).
    destruct b; [apply first_In | apply last_In]; exact E2.
  - apply (@where_ge_valid (lons P) (e_minLon e)), first_In, E3.
  - apply (@where_le_valid (lons P) (e_maxLon e)), last_In, E4.
Qed.

Lemma subregion_shape (P : Region) (k : Z) (bb : option (list Q))
    (n t : option string) (S : SubRegion) :
  grid_shape P -> SubRegion_init P k bb n t = OK S ->
  grid_shape S
  /\ (parentLatStop S <= length (lats P))%nat
  /\ (parentLonStop S <= length (lons P))%nat
  /\ length (lats S) = (parentLatStop S - parentLatStart S)%nat
  /\ length (lons S) = (parentLonStop S - parentLonStart S)%nat
  /\ ((parentLatStart S <= parentLatStop S)%nat ->
      numLats S = Z.of_nat (length (lats S)))
  /\ ((parentLonStart S <= parentLonStop S)%nat ->
      numLons S = Z.of_nat (length (lons S))).
Proof.
  intros [Hrows Hcols] HS.
  destruct (window_indices_valid _ _ _ _ _ HS) as (V1 & V2 & V3 & V4).
  apply SubRegion_init_inv in HS.
  destruct HS as (b & e & i1 & i2 & i3 & i4 & _ & _ & _ & _ & _ & _ & ->).
  cbn [assemble base parentMinLatIndex parentMaxLatIndex parentMinLonIndex
       parentMaxLonIndex parentLatStart parentLatStop parentLonStart
       parentLonStop lats lons numLats numLons] in *.
  assert (Hstop : ((if b then Datatypes.S i1 else Datatypes.S i2)
                   <= length (lats P))%nat) by (destruct b; lia).
  assert (Llat : length (slice (lats P) (if b then i2 else i1)
                           (if b then Datatypes.S i1 else Datatypes.S i2))
                 = ((if b then Datatypes.S i1 else Datatypes.S i2)
                    - (if b then i2 else i1))%nat)
    by (apply slice_length; exact Hstop).
  assert (Llon : length (slice (lons P) i3 (Datatypes.S i4))
                 = (Datatypes.S i4 - i3)%nat)
    by (apply slice_length; lia).
  split; [|repeat split; try assumption; try lia].
  unfold grid_shape, assemble.
  cbn [topoMask base lats lons masked_array data _get_data].
  unfold slice2, _get_data. split.
  - rewrite length_map, Llat. apply slice_length. rewrite Hrows. exact Hstop.
  - apply Forall_forall. intros row Hrow. apply in_map_iff in Hrow.
    destruct Hrow as [row0 [<- Hin]]. apply In_slice in Hin.
    rewrite Forall_forall in Hcols. rewrite Llon.
    apply slice_length. rewrite (Hcols row0 Hin). lia.
Qed.



End ChildShape.

(** ** Sub-regions of sub-regions *)

Section Nested.

Import np ma awapIO awapRegion.
Local Open Scope Q_scope.

(** Automatic derivation when every cell that stores [k] is valid. *)
Lemma auto_derivation_counts (P : Region) (k : Z) (b : bool)
    (n t : option string) (i0 j0 : nat) :
  grid_shape P -> value_unmasked (topoMask P) (float k) ->
  0 <= dLat P -> 0 <= dLon P ->
  reversedLats P = Some b ->
  stores (data (topoMask P)) (float k) i0 j0 ->
  exists S : SubRegion,
    SubRegion_init P k None n t = OK S
    /\ numUnmaskedPoints S = count_stored (data (topoMask P)) (float k).
Proof.
  intros Hshape Hval HdLat HdLon Hrev Hst.
  assert (Hcell : cell_is (topoMask P) (float k) i0 j0)
    by (split; [exact Hst | apply Hval, Hst]).
  destruct (edges_from_mask_ok b Hshape Hcell)
    as (rmin & rmax & cmin & cmax & lat_lo & lat_hi & lon_lo & lon_hi
        & Henv & Elo & Ehi & Exlo & Exhi & Eedges).
  destruct (lat_window_contains (lats P) b rmin rmax HdLat Elo Ehi)
    as (i1 & i2 & E1 & E2 & L1 & L2).
  destruct (lat_window_contains (lons P) false cmin cmax HdLon Exlo Exhi)
    as (i3 & i4 & E3 & E4 & L3 & L4).
  set (e := mkEdges (lon_lo - (1 # 2) * dLon P) (lat_lo - (1 # 2) * dLat P)
                    (lon_hi + (1 # 2) * dLon P) (lat_hi + (1 # 2) * dLat P))
    in *.
  exists (assemble P k n t b e i1 i2 i3 i4). split.
  - rewrite SubRegion_init_unfold, Hrev. cbn [getattr Py.bind].
    rewrite Eedges. cbn [Py.bind]. subst e.
    cbn [e_minLat e_maxLat e_minLon e_maxLon].
    rewrite E1, E2. cbn [Py.bind]. rewrite E3, E4. reflexivity.
  - unfold assemble. cbn [numUnmaskedPoints base]. rewrite count_ne_scalar.
    apply count_stored_slice2. intros i j Hs.
    assert (Hij : cell_is (topoMask P) (float k) i j)
      by (split; [exact Hs | apply Hval, Hs]).
    destruct (Henv i j Hij) as [Hi Hj]. lia.
Qed.

Lemma count_stored_positive (d : list (list Q)) (v : Q) :
  (0 < count_stored d v)%nat -> exists i j, stores d v i j.
Proof.
  unfold count_stored. induction d as [|row tl IH]; simpl; intro H.
  - lia.
  - destruct (filter (fun x => Qeq_bool x v) row) as [|x r] eqn:E.
    + destruct (IH H) as [i [j Hij]]. exists (Datatypes.S i), j.
      destruct Hij as [y [Hy Ey]]. exists y. split; [exact Hy | exact Ey].
    + assert (Hx : In x (filter (fun x => Qeq_bool x v) row))
        by (rewrite E; left; reflexivity).
      apply filter_In in Hx. destruct Hx as [Hin Hx].
      apply In_nth_error in Hin. destruct Hin as [j Hj].
      exists 0%nat, j, x. split; [exact Hj | apply Qeq_bool_iff, Hx].
Qed.

(** In a returned sub-region a cell is valid exactly when it stores the
    category id. *)
Lemma child_valid_cells (P : Region) (k : Z) (bb : option (list Q))
    (n t : option string) (S : SubRegion) :
  SubRegion_init P k bb n t = OK S ->
  mask (topoMask S) = ne_scalar (data (topoMask S)) (float k)
  /\ numUnmaskedPoints S = count_stored (data (topoMask S)) (float k)
  /\ dLat S = dLat P /\ dLon S = dLon P
  /\ subRegionLevel S = (subRegionLevel P + 1)%Z
  /\ exists b, reversedLats P = Some b /\ reversedLats S = Some b.
Proof.
  intro HS. apply SubRegion_init_inv in HS.
  destruct HS as (b & e & i1 & i2 & i3 & i4 & Hb & _ & _ & _ & _ & _ & ->).
  split; [reflexivity|]. split; [apply count_ne_scalar|].
  split; [reflexivity|]. split; [reflexivity|]. split; [reflexivity|].
  exists b. split; [exact Hb | reflexivity].
Qed.





End Nested.

(** ** The automatic window is the envelope of the category *)

Section Envelope.

Import np ma awapIO awapRegion.
Local Open Scope Q_scope.

Lemma amin_In (l : list nat) (m : nat) : amin l = OK m -> In m l.
Proof.
  destruct l as [|a t]; [discriminate|]. intro H.
  destruct (@amin_spec (a :: t) a (or_introl eq_refl)) as [m' [E [Hin _]]].
  rewrite E in H. inversion H. subst m'. exact Hin.
Qed.

Lemma amax_In (l : list nat) (m : nat) : amax l = OK m -> In m l.
Proof.
  destruct l as [|a t]; [discriminate|]. intro H.
  destruct (@amax_spec (a :: t) a (or_introl eq_refl)) as [m' [E [Hin _]]].
  rewrite E in H. inversion H. subst m'. exact Hin.
Qed.

Lemma getitem_OK {A} (l : list A) (i : nat) (x : A) :
  getitem l i = OK x -> nth_error l i = Some x.
Proof.
  unfold getitem. destruct (nth_error l i); intro H; inversion H. reflexivity.
Qed.

Lemma hit_in_row (a : MaskedArray) (v : Q) (r : nat) :
  In r (where2_rows (eq_scalar a v)) -> exists j, cell_is a v r j.
Proof.
  unfold where2_rows. intro H. apply in_map_iff in H.
  destruct H as [[i j] [E Hij]]. simpl in E. subst i.
  exists j. apply hits_iff, Hij.
Qed.

Lemma hit_in_col (a : MaskedArray) (v : Q) (c : nat) :
  In c (where2_cols (eq_scalar a v)) -> exists i, cell_is a v i c.
Proof.
  unfold where2_cols. intro H. apply in_map_iff in H.
  destruct H as [[i j] [E Hij]]. simpl in E. subst j.
  exists i. apply hits_iff, Hij.
Qed.

(** What the automatic edges are when they are found. *)
Lemma edges_from_mask_inv (P : Region) (k : Z) (b : bool) (e : Edges) :
  edges_from_mask P k b = OK e ->
  exists r_lo r_hi cmin cmax lat_lo lat_hi lon_lo lon_hi,
    (exists j, cell_is (topoMask P) (float k) r_lo j)
    /\ (exists j, cell_is (topoMask P) (float k) r_hi j)
    /\ (exists i, cell_is (topoMask P) (float k) i cmin)
    /\ (exists i, cell_is (topoMask P) (float k) i cmax)
    /\ nth_error (lats P) r_lo = Some lat_lo
    /\ nth_error (lats P) r_hi = Some lat_hi
    /\ nth_error (lons P) cmin = Some lon_lo
    /\ nth_error (lons P) cmax = Some lon_hi
    /\ e = mkEdges (lon_lo - (1 # 2) * dLon P) (lat_lo - (1 # 2) * dLat P)
                   (lon_hi + (1 # 2) * dLon P) (lat_hi + (1 # 2) * dLat P).
Proof.
  unfold edges_from_mask. intro H.
  apply bind_OK in H. destruct H as [cmin [Hcmin H]].
  apply bind_OK in H. destruct H as [lon_lo [Hlon_lo H]].
  apply bind_OK in H. destruct H as [cmax [Hcmax H]].
  apply bind_OK in H. destruct H as [lon_hi [Hlon_hi H]].
  apply bind_OK in H. destruct H as [r_lo [Hr_lo H]].
  apply bind_OK in H. destruct H as [r_hi [Hr_hi H]].
  apply bind_OK in H. destruct H as [lat_lo [Hlat_lo H]].
  apply bind_OK in H. destruct H as [lat_hi [Hlat_hi H]].
  injection H as He. symmetry in He.
  exists r_lo, r_hi, cmin, cmax, lat_lo, lat_hi, lon_lo, lon_hi.
  apply getitem_OK in Hlon_lo, Hlon_hi, Hlat_lo, Hlat_hi.
  apply amin_In, hit_in_col in Hcmin. apply amax_In, hit_in_col in Hcmax.
  assert (Hcell_lo : exists j, cell_is (topoMask P) (float k) r_lo j)
    by (destruct b; [apply amax_In in Hr_lo | apply amin_In in Hr_lo];
        apply hit_in_row, Hr_lo).
  assert (Hcell_hi : exists j, cell_is (topoMask P) (float k) r_hi j)
    by (destruct b; [apply amin_In in Hr_hi | apply amax_In in Hr_hi];
        apply hit_in_row, Hr_hi).
  repeat split; assumption.
Qed.

(** On an axis that steps down by [d] or more, the last entry not below
    [x - d/2] is [x] itself, and the first entry not above [x + d/2]
    too; likewise on an axis that steps up. *)
Lemma last_where_ge_down (axis : list Q) (d x : Q) (r a : nat) :
  0 < d -> steps_down_at_least axis d ->
  nth_error axis r = Some x ->
  last (where_ge axis (x - (1 # 2) * d)) = OK a -> a = r.
Proof.
  intros Hd Hstep Hx Ha.
  assert (Ir : In r (where_ge axis (x - (1 # 2) * d)))
    by (apply where_ge_In; exists x; split; [assumption | Lqa.lra]).
  pose proof (@last_greatest _ a r Ha Ir) as Hle.
  apply last_In, where_ge_In in Ha. destruct Ha as [y [Hy Hge]].
  destruct (Nat.eq_dec a r) as [E | Hne]; [exact E|].
  pose proof (Hstep r a x y ltac:(lia) Hx Hy). Lqa.lra.
Qed.

Lemma first_where_le_down (axis : list Q) (d x : Q) (r a : nat) :
  0 < d -> steps_down_at_least axis d ->
  nth_error axis r = Some x ->
  first (where_le axis (x + (1 # 2) * d)) = OK a -> a = r.
Proof.
  intros Hd Hstep Hx Ha.
  assert (Ir : In r (where_le axis (x + (1 # 2) * d)))
    by (apply where_le_In; exists x; split; [assumption | Lqa.lra]).
  pose proof (@first_least _ a r Ha Ir) as Hle.
  apply first_In, where_le_In in Ha. destruct Ha as [y [Hy Hge]].
  destruct (Nat.eq_dec a r) as [E | Hne]; [exact E|].
  pose proof (Hstep a r y x ltac:(lia) Hy Hx). Lqa.lra.
Qed.

Lemma first_where_ge_up (axis : list Q) (d x : Q) (r a : nat) :
  0 < d -> steps_up_at_least axis d ->
  nth_error axis r = Some x ->
  first (where_ge axis (x - (1 # 2) * d)) = OK a -> a = r.
Proof.
  intros Hd Hstep Hx Ha.
  assert (Ir : In r (where_ge axis (x - (1 # 2) * d)))
    by (apply where_ge_In; exists x; split; [assumption | Lqa.lra]).
  pose proof (@first_least _ a r Ha Ir) as Hle.
  apply first_In, where_ge_In in Ha. destruct Ha as [y [Hy Hge]].
  destruct (Nat.eq_dec a r) as [E | Hne]; [exact E|].
  pose proof (Hstep a r y x ltac:(lia) Hy Hx). Lqa.lra.
Qed.

Lemma last_where_le_up (axis : list Q) (d x : Q) (r a : nat) :
  0 < d -> steps_up_at_least axis d ->
  nth_error axis r = Some x ->
  last (where_le axis (x + (1 # 2) * d)) = OK a -> a = r.
Proof.
  intros Hd Hstep Hx Ha.
  assert (Ir : In r (where_le axis (x + (1 # 2) * d)))
    by (apply where_le_In; exists x; split; [assumption | Lqa.lra]).
  pose proof (@last_greatest _ a r Ha Ir) as Hle.
  apply last_In, where_le_In in Ha. destruct Ha as [y [Hy Hge]].
  destruct (Nat.eq_dec a r) as [E | Hne]; [exact E|].
  pose proof (Hstep r a x y ltac:(lia) Hx Hy). Lqa.lra.
Qed.



Lemma cell_center_step (ll cs : Q) (i j : nat) :
  0 <= cs -> (i < j)%nat -> cs <= cell_center ll cs j - cell_center ll cs i.
Proof.
  intros Hcs Hij. unfold cell_center.
  assert (H : 0 <= inject_Z (Z.of_nat j) - inject_Z (Z.of_nat i) - 1).
  { change 1 with (inject_Z 1). unfold Qminus.
    rewrite <- !inject_Z_opp, <- !inject_Z_plus.
    change 0 with (inject_Z 0). rewrite <- Zle_Qle. lia. }
  pose proof (Qmult_le_0_compat _ _ H Hcs). Lqa.lra.
Qed.

(** The cell centres of a header are a cell apart. *)
Lemma getLats_spaced (h : HeaderDict) :
  0 <= cellsize h -> steps_down_at_least (getLats h true) (cellsize h).
Proof.
  intros Hcs i j x y Hij Hx Hy.
  destruct (Forall2_Qeq_nth _ (getLats_values h) Hx) as [x' [Hx' Ex]].
  destruct (Forall2_Qeq_nth _ (getLats_values h) Hy) as [y' [Hy' Ey]].
  apply nth_error_rev_centers in Hx', Hy'.
  destruct Hx' as [Hi ->], Hy' as [Hj ->]. rewrite Ex, Ey.
  apply cell_center_step; [assumption | lia].
Qed.

Lemma getLons_spaced (h : HeaderDict) :
  0 <= cellsize h -> steps_up_at_least (getLons h) (cellsize h).
Proof.
  intros Hcs i j x y Hij Hx Hy.
  destruct (Forall2_Qeq_nth _ (getLons_values h) Hx) as [x' [Hx' Ex]].
  destruct (Forall2_Qeq_nth _ (getLons_values h) Hy) as [y' [Hy' Ey]].
  apply nth_error_centers in Hx', Hy'.
  destruct Hx' as [Hi ->], Hy' as [Hj ->]. rewrite Ex, Ey.
  apply cell_center_step; assumption.
Qed.

Lemma Region_init_spaced (h : HeaderDict) (f : list Q)
    (l : list (string * Z)) (n t : option string) (s : bool) (R : Region) :
  Region_init h f l n t s = OK R -> 0 <= cellsize h ->
  lats_spaced R true /\ steps_up_at_least (lons R) (dLon R).
Proof.
  intros HR Hcs. apply Region_init_inv in HR.
  destruct HR as (a & flag & _ & ->). unfold lats_spaced.
  cbn [lats lons dLat dLon]. split.
  - apply getLats_spaced, Hcs.
  - apply getLons_spaced, Hcs.
Qed.


End Envelope.

(** ** More on the divergence and on smoothing *)

Section DivergenceMore.

Import tdpdfs.
Local Open Scope R_scope.

Lemma ln_le_minus_one (x : R) : 0 < x -> ln x <= x - 1.
Proof.
  intro Hx. pose proof (exp_ineq1_le (ln x)) as H.
  rewrite exp_ln in H by exact Hx. lra.
Qed.

Lemma ln_ratio_lower (x y : R) : 0 < x -> 0 < y -> 1 - y / x <= ln (x / y).
Proof.
  intros Hx Hy.
  assert (Hr : 0 < y / x) by (apply Rdiv_lt_0_compat; assumption).
  pose proof (ln_le_minus_one Hr) as H.
  replace (x / y) with (/ (y / x)) by (field; lra).
  rewrite ln_Rinv by exact Hr. lra.
Qed.

Lemma ln_2_pos : 0 < ln 2.
Proof. rewrite <- ln_1. apply ln_increasing; lra. Qed.

Lemma kld_term_lower (dx x y : R) :
  0 <= dx -> 0 < x -> 0 < y ->
  (x - y) * (dx / ln 2) <= kld_term dx (x, y).
Proof.
  intros Hdx Hx Hy. unfold kld_term, log2.
  destruct (Rlt_dec 0 x) as [_ | Hn]; [|contradiction].
  destruct (Rlt_dec 0 y) as [_ | Hn]; [|contradiction].
  pose proof (ln_ratio_lower Hx Hy) as Hl. pose proof ln_2_pos as H2.
  assert (Hc : 0 <= dx / ln 2).
  { apply Rmult_le_pos; [exact Hdx|]. left. apply Rinv_0_lt_compat, H2. }
  replace (x * (ln (x / y) / ln 2) * dx)
    with (x * ln (x / y) * (dx / ln 2)) by (field; lra).
  apply Rmult_le_compat_r; [exact Hc|].
  replace (x - y) with (x * (1 - y / x)) by (field; lra).
  apply Rmult_le_compat_l; lra.
Qed.

Lemma kld_spec_lower (p q : list R) (dx : R) :
  0 <= dx -> length p = length q ->
  Forall (fun x => 0 < x) p -> Forall (fun y => 0 < y) q ->
  (total p - total q) * (dx / ln 2) <= kld_spec p q dx.
Proof.
  intros Hdx. revert q. induction p as [|x p IH]; intros q Hlen Hp Hq.
  - destruct q; [|discriminate]. unfold kld_spec, total. simpl. lra.
  - destruct q as [|y q]; [discriminate|].
    inversion Hp; subst. inversion Hq; subst.
    assert (Hlen' : length p = length q) by (simpl in Hlen; congruence).
    specialize (IH q Hlen' H2 H4).
    pose proof (@kld_term_lower dx x y Hdx H1 H3) as Ht.
    unfold kld_spec, total in *. cbn [combine map fold_right]. lra.
Qed.

(** Gibbs' inequality for the code: for densities of equal length whose
    bins are all positive, with the mass of [q] not above the mass of
    [p] and a non-negative bin width, [compute_KLD] returns a
    non-negative number. *)
Theorem compute_KLD_nonnegative (p q : list R) (dx : R) :
  length p = length q ->
  Forall (fun x => 0 < x) p -> Forall (fun y => 0 < y) q ->
  total q <= total p -> 0 <= dx ->
  exists v, compute_KLD p q dx = OK v /\ 0 <= v.
Proof.
  intros Hlen Hp Hq Hmass Hdx. exists (kld_spec p q dx).
  split; [apply compute_KLD_sum, Hlen|].
  pose proof (kld_spec_lower Hdx Hlen Hp Hq) as Hl.
  pose proof ln_2_pos as H2.
  assert (Hc : 0 <= dx / ln 2).
  { apply Rmult_le_pos; [exact Hdx|]. left. apply Rinv_0_lt_compat, H2. }
  assert (H0 : 0 <= (total p - total q) * (dx / ln 2))
    by (apply Rmult_le_pos; lra).
  lra.
Qed.

Lemma compute_KLD_nonnegative_witness :
  length [1 / 4; 3 / 4] = length [1 / 2; 1 / 2]
  /\ total [1 / 2; 1 / 2] <= total [1 / 4; 3 / 4]
  /\ exists v, compute_KLD [1 / 4; 3 / 4] [1 / 2; 1 / 2] 1 = OK v /\ 0 <= v.
Proof.
  assert (Hlen : length [1 / 4; 3 / 4] = length [1 / 2; 1 / 2])
    by reflexivity.
  assert (Hp : Forall (fun x => 0 < x) [1 / 4; 3 / 4])
    by (repeat constructor; lra).
  assert (Hq : Forall (fun x => 0 < x) [1 / 2; 1 / 2])
    by (repeat constructor; lra).
  assert (Hm : total [1 / 2; 1 / 2] <= total [1 / 4; 3 / 4])
    by (unfold total; simpl; lra).
  assert (Hdx : 0 <= 1) by lra.
  split; [exact Hlen|]. split; [exact Hm|].
  exact (@compute_KLD_nonnegative _ _ 1 Hlen Hp Hq Hm Hdx).
Defined.

Lemma total_map_affine (e c : R) (p : list R) :
  c <> 0 ->
  total (map (fun x => (x + e) / c) p) = (total p + INR (length p) * e) / c.
Proof.
  intro Hc. unfold total. induction p as [|x t IH].
  - simpl. field. exact Hc.
  - cbn [map fold_right length]. rewrite IH, S_INR. field. exact Hc.
Qed.

(** The smoothing of the divergence loop keeps the length, makes every
    bin of a non-negative vector positive, and keeps a total of 1. *)
Theorem smooth_keeps_distribution (p : list R) :
  Forall (fun x => 0 <= x) p ->
  length (smooth p) = length p
  /\ Forall (fun y => 0 < y) (smooth p)
  /\ (total p = 1 -> total (smooth p) = 1).
Proof.
  intro Hp.
  assert (He : 0 < 1 / 10 ^ 8).
  { apply Rdiv_lt_0_compat; [lra | apply pow_lt; lra]. }
  assert (Hc : 0 < 1 + INR (length p) * (1 / 10 ^ 8)).
  { pose proof (pos_INR (length p)) as Hn.
    assert (0 <= INR (length p) * (1 / 10 ^ 8))
      by (apply Rmult_le_pos; lra).
    lra. }
  split; [apply smooth_length|]. split.
  - unfold smooth. apply Forall_forall. intros y Hy. apply in_map_iff in Hy.
    destruct Hy as [x [<- Hx]]. rewrite Forall_forall in Hp.
    pose proof (Hp x Hx). apply Rdiv_lt_0_compat; lra.
  - intro Ht. unfold smooth.
    rewrite total_map_affine by lra. rewrite Ht. field. lra.
Qed.

Lemma smooth_keeps_distribution_witness :
  Forall (fun x => 0 <= x) [0; 1]
  /\ Forall (fun y => 0 < y) (smooth [0; 1])
  /\ total (smooth [0; 1]) = 1.
Proof.
  assert (Hp : Forall (fun x => 0 <= x) [0; 1]) by (repeat constructor; lra).
  destruct (@smooth_keeps_distribution [0; 1] Hp) as [_ [H2 H3]].
  split; [exact Hp|]. split; [exact H2|].
  apply H3. unfold total. simpl. lra.
Defined.


Lemma mapM_length {A B} (f : A -> result B) (l : list A) (ys : list B) :
  mapM f l = OK ys -> length ys = length l.
Proof.
  revert ys. induction l as [|a t IH]; intros ys H.
  - inversion H. reflexivity.
  - simpl in H. destruct (f a) as [b|]; [|discriminate].
    simpl in H. destruct (mapM f t) as [bs|]; [|discriminate].
    simpl in H. inversion H. simpl. f_equal. apply IH. reflexivity.
Qed.

Lemma mapM_raises {A B} (f : A -> result B) (l : list A) (x : A) (e : exn) :
  In x l -> f x = Raise e -> (forall y e', f y = Raise e' -> e' = e) ->
  mapM f l = Raise e.
Proof.
  intros Hin Hx Honly. induction l as [|a t IH]; [contradiction|].
  simpl. destruct (f a) as [b|e'] eqn:Ea.
  - destruct Hin as [-> | Hin]; [congruence|].
    simpl. rewrite (IH Hin). reflexivity.
  - simpl. f_equal. apply (Honly a e' Ea).
Qed.

Lemma compute_KLD_raises (p q : list R) (dx : R) (e : exn) :
  compute_KLD p q dx = Raise e -> e = SystemExit.
Proof.
  unfold compute_KLD. destruct (negb (length p =? length q)%nat);
    intro H; inversion H; reflexivity.
Qed.

Lemma compute_KLD_mismatch (p q : list R) (dx : R) :
  length p <> length q -> compute_KLD p q dx = Raise SystemExit.
Proof.
  intro H. unfold compute_KLD. apply Nat.eqb_neq in H. rewrite H. reflexivity.
Qed.



End DivergenceMore.

(** ** The first and the last window *)

Section WindowEdges.

Import tdpdfs.
Local Open Scope Z_scope.

(** With fewer time steps than the window is wide the loop visits no
    window at all; otherwise, with the stride of the script, the last
    window ends within the last [win_slide] time steps, so that fewer
    than [win_slide] samples at the end of the series are left out. *)
Theorem windows_tail (num_times W : Z) :
  (forall stride, num_times < W -> windows num_times W stride = [])
  /\ (0 <= W <= num_times ->
      exists s,
        nth_error (windows num_times W win_slide)
                  (length (windows num_times W win_slide) - 1)
          = Some (s, s + W)
        /\ num_times - win_slide < s + W <= num_times).
Proof.
  split.
  - intros stride H. unfold windows, num_wins, range0.
    assert (Hq : (num_times - W) / 3 < 0) by (apply Z.div_lt_upper_bound; lia).
    replace (Z.to_nat (1 + (num_times - W) / 3)) with 0%nat by lia.
    reflexivity.
  - intro HW. unfold windows, num_wins, win_slide.
    assert (Hq : 0 <= (num_times - W) / 3) by (apply Z.div_pos; lia).
    pose proof (Z.mul_div_le (num_times - W) 3 ltac:(lia)) as Hlo.
    pose proof (Z.mul_succ_div_gt (num_times - W) 3 ltac:(lia)) as Hhi.
    revert Hq Hlo Hhi. generalize ((num_times - W) / 3). intros q Hq Hlo Hhi.
    exists (3 * q). rewrite length_map, range0_length.
    replace (Z.to_nat (1 + q) - 1)%nat with (Z.to_nat q) by lia.
    rewrite nth_error_map, range0_nth by lia. split; [reflexivity | lia].
Qed.

Lemma windows_tail_witness :
  0 <= 90 <= 100
  /\ exists s,
       nth_error (windows 100 90 win_slide)
                 (length (windows 100 90 win_slide) - 1) = Some (s, s + 90)
       /\ 100 - win_slide < s + 90 <= 100.
Proof.
  assert (H : 0 <= 90 <= 100) by lia.
  split; [exact H|].
  exact (proj2 (windows_tail 100 90) H).
Defined.

End WindowEdges.

(** ** Date stamps in file names *)

Section DateStamps.

Import PyMore awapFiles.
Local Open Scope string_scope.

Lemma substring_0_split (n : nat) (s : string) :
  String.length (substring 0 n s) = n ->
  exists post, s = substring 0 n s ++ post.
Proof.
  revert s. induction n as [|n IH]; intros s H.
  - exists s. destruct s; reflexivity.
  - destruct s as [|c t]; [discriminate|].
    simpl in H. injection H as H. destruct (IH t H) as [post Hp].
    exists post. simpl. f_equal. exact Hp.
Qed.

Lemma findall_d8_from_stamps (s : string) (k : nat) (d : string) :
  In d (findall_d8_from k s) ->
  is_stamp d /\ exists pre post, s = pre ++ d ++ post.
Proof.
  revert k. induction s as [|c t IH]; intros k H; [contradiction|].
  cbn [findall_d8_from] in H. destruct k as [|k].
  - destruct (starts_with_8_digits (String c t)) eqn:E.
    + destruct H as [<- | H].
      * unfold starts_with_8_digits in E. apply andb_true_iff in E.
        destruct E as [E1 E2]. apply Nat.eqb_eq in E1.
        split; [split; assumption|].
        destruct (@substring_0_split 8 (String c t) E1) as [post Hp].
        exists "", post. exact Hp.
      * destruct (IH 7%nat H) as [Hs [pre [post Hp]]].
        split; [exact Hs|]. exists (String c pre), post. simpl. f_equal.
        exact Hp.
    + destruct (IH 0%nat H) as [Hs [pre [post Hp]]].
      split; [exact Hs|]. exists (String c pre), post. simpl. f_equal.
      exact Hp.
  - destruct (IH k H) as [Hs [pre [post Hp]]].
    split; [exact Hs|]. exists (String c pre), post. simpl. f_equal.
    exact Hp.
Qed.

Lemma getYMD_inv (Item d : string) :
  getYMD Item = Returns d -> findall_d8 Item = [d].
Proof.
  unfold getYMD. destruct (findall_d8 Item) as [|x [|y r]]; simpl.
  - discriminate.
  - intro H. inversion H. reflexivity.
  - discriminate.
Qed.

Lemma getYMD_stamp_shape (Item : string) :
  forall d, getYMD Item = Returns d -> is_stamp d.
Proof.
  intros d H. apply getYMD_inv in H.
  apply (@findall_d8_from_stamps Item 0). fold (findall_d8 Item).
  rewrite H. left. reflexivity.
Qed.

(** [getYMD] returns only when the name holds exactly one run of eight
    digits, and then returns that run: eight decimal digits that occur
    in the name; every other name makes it exit. *)
Theorem getYMD_returns_the_stamp (Item : string) :
  (forall d, getYMD Item = Returns d ->
     findall_d8 Item = [d] /\ is_stamp d
     /\ exists pre post, Item = pre ++ d ++ post)
  /\ (forall e, getYMD Item = Raises e ->
        e = Std SystemExit /\ length (findall_d8 Item) <> 1%nat).
Proof.
  split.
  - intros d H. apply getYMD_inv in H. split; [exact H|].
    apply (@findall_d8_from_stamps Item 0). fold (findall_d8 Item).
    rewrite H. left. reflexivity.
  - intros e. unfold getYMD.
    destruct (findall_d8 Item) as [|x [|y r]]; simpl; intro H.
    + inversion H. split; [reflexivity | discriminate].
    + discriminate.
    + inversion H. split; [reflexivity | discriminate].
Qed.


Lemma getYMD_returns_the_stamp_witness :
  getYMD "mth_FWDis_19000131" = Returns "19000131"
  /\ findall_d8 "mth_FWDis_19000131" = ["19000131"]
  /\ is_stamp "19000131"
  /\ getYMD "readme" = Raises (Std SystemExit)
  /\ length (findall_d8 "readme") <> 1%nat.
Proof.
  assert (H : getYMD "mth_FWDis_19000131" = Returns "19000131")
    by reflexivity.
  assert (H' : getYMD "readme" = Raises (Std SystemExit)) by reflexivity.
  destruct (proj1 (getYMD_returns_the_stamp "mth_FWDis_19000131") _ H)
    as (H1 & H2 & _).
  destruct (proj2 (getYMD_returns_the_stamp "readme") _ H') as (_ & H3).
  repeat split; try assumption; apply H2.
Defined.

Lemma starts_with_non_digit (c : ascii) (t : string) :
  isdigit c = false -> starts_with_8_digits (String c t) = false.
Proof.
  intro H. unfold starts_with_8_digits. cbn [substring all_digits].
  rewrite H. simpl. apply andb_false_r.
Qed.

Lemma findall_d8_no_digit_prefix (pre rest : string) :
  no_digit pre = true ->
  findall_d8_from 0 (pre ++ rest) = findall_d8_from 0 rest.
Proof.
  induction pre as [|c t IH]; intro H; [reflexivity|].
  simpl in H. apply andb_true_iff in H. destruct H as [Hc Ht].
  apply negb_true_iff in Hc.
  change (String c t ++ rest) with (String c (t ++ rest)).
  cbn [findall_d8_from]. rewrite (@starts_with_non_digit c _ Hc).
  apply IH, Ht.
Qed.

Lemma append_empty_r (s : string) : s ++ "" = s.
Proof. induction s as [|c t IH]; [reflexivity|]. simpl. f_equal. exact IH. Qed.

Lemma findall_d8_no_digit (s : string) :
  no_digit s = true -> findall_d8_from 0 s = [].
Proof.
  intro H. rewrite <- (append_empty_r s).
  rewrite (@findall_d8_no_digit_prefix s "" H). reflexivity.
Qed.

Lemma findall_d8_skip (a b : string) :
  findall_d8_from (String.length a) (a ++ b) = findall_d8_from 0 b.
Proof.
  induction a as [|c t IH]; [reflexivity|].
  change (String c t ++ b) with (String c (t ++ b)). simpl String.length.
  cbn [findall_d8_from]. exact IH.
Qed.

Lemma substring_append_exact (d post : string) :
  substring 0 (String.length d) (d ++ post) = d.
Proof.
  induction d as [|c t IH]; simpl.
  - destruct post; reflexivity.
  - f_equal. exact IH.
Qed.

(** A name made of a date stamp between two parts without digits gives
    back the stamp. *)
Theorem getYMD_round_trip (pre d post : string) :
  is_stamp d -> no_digit pre = true -> no_digit post = true ->
  getYMD (pre ++ d ++ post) = Returns d.
Proof.
  intros [Hlen Hdig] Hpre Hpost. unfold getYMD, findall_d8.
  rewrite (@findall_d8_no_digit_prefix pre (d ++ post) Hpre).
  assert (Hsub : substring 0 8 (d ++ post) = d)
    by (rewrite <- Hlen; apply substring_append_exact).
  destruct d as [|c t]; [discriminate|].
  change (String c t ++ post) with (String c (t ++ post)) in *.
  cbn [findall_d8_from].
  assert (Hstart : starts_with_8_digits (String c (t ++ post)) = true).
  { unfold starts_with_8_digits. rewrite Hsub, Hlen, Hdig. reflexivity. }
  rewrite Hstart, Hsub.
  assert (Ht : String.length t = 7%nat) by (simpl in Hlen; congruence).
  rewrite <- Ht, findall_d8_skip, (@findall_d8_no_digit post Hpost).
  reflexivity.
Qed.

Lemma getYMD_round_trip_witness :
  is_stamp "19000131" /\ no_digit "mth_FWDis_" = true /\ no_digit "" = true
  /\ getYMD ("mth_FWDis_" ++ "19000131" ++ "") = Returns "19000131".
Proof.
  assert (Hs : is_stamp "19000131") by (split; reflexivity).
  assert (H1 : no_digit "mth_FWDis_" = true) by reflexivity.
  assert (H2 : no_digit "" = true) by reflexivity.
  repeat (split; [assumption|]).
  exact (@getYMD_round_trip "mth_FWDis_" "19000131" "" Hs H1 H2).
Defined.

Lemma digit_value_range (c : ascii) :
  isdigit c = true -> (0 <= digit_value c <= 9)%Z.
Proof.
  unfold isdigit, digit_value. intro H. apply andb_true_iff in H.
  destruct H as [H1 H2]. apply Nat.leb_le in H1, H2. lia.
Qed.

Lemma getMonth_returns (FileName d : string) :
  getYMD FileName = Returns d -> exists m : Z, getMonth FileName = Returns m.
Proof.
  intro H. unfold getMonth. rewrite H. cbn [PyMore.bind].
  destruct (@getYMD_stamp_shape FileName d H) as [Hlen Hdig].
  destruct d as [|c1 [|c2 [|c3 [|c4 [|c5 [|c6 [|c7 [|c8 [|c9 r]]]]]]]]];
    try discriminate.
  cbn [all_digits] in Hdig.
  repeat (apply andb_true_iff in Hdig; destruct Hdig as [? Hdig]).
  unfold int, slice_from_end.
  cbn [String.length Nat.sub substring all_digits].
  repeat match goal with
         | Hd : isdigit _ = true |- _ => rewrite Hd; clear Hd
         end.
  cbn [andb]. eexists. reflexivity.
Qed.

(** The year, month and day read from a name are the digits 1-4, 5-6
    and 7-8 of its date stamp, and the integer date is
    [10000 * year + 100 * month + day]. *)
Theorem date_fields (FileName d : string) :
  getYMD FileName = Returns d ->
  exists year month day : Z,
    getYear FileName = Returns year
    /\ getMonth FileName = Returns month
    /\ getDay FileName = Returns day
    /\ getDate FileName = Returns (10000 * year + 100 * month + day)%Z
    /\ (0 <= year < 10000)%Z /\ (0 <= month < 100)%Z /\ (0 <= day < 100)%Z.
Proof.
  intro H. unfold getYear, getMonth, getDay, getDate. rewrite H.
  cbn [PyMore.bind].
  destruct (@getYMD_stamp_shape FileName d H) as [Hlen Hdig].
  destruct d as [|c1 [|c2 [|c3 [|c4 [|c5 [|c6 [|c7 [|c8 [|c9 r]]]]]]]]];
    try discriminate.
  cbn [all_digits] in Hdig.
  repeat (apply andb_true_iff in Hdig; destruct Hdig as [? Hdig]).
  pose proof (@digit_value_range c1 ltac:(assumption)).
  pose proof (@digit_value_range c2 ltac:(assumption)).
  pose proof (@digit_value_range c3 ltac:(assumption)).
  pose proof (@digit_value_range c4 ltac:(assumption)).
  pose proof (@digit_value_range c5 ltac:(assumption)).
  pose proof (@digit_value_range c6 ltac:(assumption)).
  pose proof (@digit_value_range c7 ltac:(assumption)).
  pose proof (@digit_value_range c8 ltac:(assumption)).
  exists (1000 * digit_value c1 + 100 * digit_value c2
          + 10 * digit_value c3 + digit_value c4)%Z,
         (10 * digit_value c5 + digit_value c6)%Z,
         (10 * digit_value c7 + digit_value c8)%Z.
  unfold int, slice_from_end, tail_from_end.
  cbn [String.length Nat.sub substring all_digits int_from].
  repeat match goal with
         | Hd : isdigit _ = true |- _ => rewrite Hd; clear Hd
         end.
  cbn [andb].
  repeat split; try lia; f_equal; lia.
Qed.


Lemma date_fields_witness :
  getYMD "mth_FWDis_19000131" = Returns "19000131"
  /\ exists year month day : Z,
       getYear "mth_FWDis_19000131" = Returns year
       /\ getMonth "mth_FWDis_19000131" = Returns month
       /\ getDay "mth_FWDis_19000131" = Returns day
       /\ getDate "mth_FWDis_19000131"
          = Returns (10000 * year + 100 * month + day)%Z.
Proof.
  assert (H : getYMD "mth_FWDis_19000131" = Returns "19000131")
    by reflexivity.
  split; [exact H|].
  destruct (@date_fields "mth_FWDis_19000131" "19000131" H)
    as (y & m & d & H1 & H2 & H3 & H4 & _).
  exists y, m, d. repeat split; assumption.
Defined.

End DateStamps.

(** ** Chopping an ending off a name *)

Section Chop.

Import PyMore awapFiles.
Local Open Scope string_scope.

Lemma length_append (a b : string) :
  String.length (a ++ b) = (String.length a + String.length b)%nat.
Proof. induction a as [|c t IH]; simpl; [reflexivity | rewrite IH; reflexivity]. Qed.

Lemma substring_all (s : string) : substring 0 (String.length s) s = s.
Proof. induction s as [|c t IH]; simpl; [reflexivity | rewrite IH; reflexivity]. Qed.

Lemma substring_nothing (n : nat) (s : string) : substring n 0 s = "".
Proof.
  revert s. induction n as [|n IH]; intros [|c t]; simpl; auto.
Qed.

Lemma substring_after (a b : string) :
  substring (String.length a) (String.length b) (a ++ b) = b.
Proof.
  induction a as [|c t IH]; simpl; [apply substring_all | exact IH].
Qed.

Lemma substring_split (n : nat) (s : string) :
  (n <= String.length s)%nat ->
  s = substring 0 n s ++ substring n (String.length s - n) s.
Proof.
  revert s. induction n as [|n IH]; intros s H.
  - rewrite Nat.sub_0_r, substring_all. destruct s; reflexivity.
  - destruct s as [|c t]; [simpl in H; lia|].
    simpl. f_equal. apply IH. simpl in H. lia.
Qed.

(** [chop] takes a non-empty ending off a name that ends with it (and
    gives back exactly the stem the ending was appended to), returns
    the empty string for an empty ending, and returns nothing ([None])
    when the name does not end with the ending. *)
Theorem chop_cases (InputString Ending : string) :
  (Ending <> "" -> chop (InputString ++ Ending) Ending = Some InputString)
  /\ chop InputString "" = Some ""
  /\ (forall stem, Ending <> "" -> chop InputString Ending = Some stem ->
         InputString = stem ++ Ending)
  /\ (chop InputString Ending = None <-> endswith InputString Ending = false).
Proof.
  split; [|split; [|split]].
  - intro Hne. unfold chop, endswith.
    rewrite length_append.
    replace (String.length InputString + String.length Ending
             - String.length Ending)%nat
      with (String.length InputString) by lia.
    rewrite substring_after, String.eqb_refl.
    replace (String.length Ending <=? String.length InputString
                                      + String.length Ending)%nat
      with true by (symmetry; apply Nat.leb_le; lia).
    cbn [andb]. destruct Ending as [|c t]; [congruence|].
    cbn [String.length]. f_equal. apply substring_append_exact.
  - unfold chop, endswith. simpl.
    rewrite substring_nothing. reflexivity.
  - intros stem Hne. unfold chop.
    destruct (endswith InputString Ending) eqn:E; [|discriminate].
    unfold endswith in E. apply andb_true_iff in E. destruct E as [E1 E2].
    apply Nat.leb_le in E1. apply String.eqb_eq in E2.
    destruct Ending as [|c t] eqn:EE; [congruence|]. rewrite <- EE in *.
    assert (Hl : String.length Ending = Datatypes.S (String.length t))
      by (rewrite EE; reflexivity).
    rewrite Hl. rewrite <- Hl. intro H. injection H as <-.
    rewrite (@substring_split (String.length InputString - String.length Ending)
               InputString) at 1 by lia.
    f_equal.
    replace (String.length InputString
             - (String.length InputString - String.length Ending))%nat
      with (String.length Ending) by lia.
    exact E2.
  - unfold chop. destruct (endswith InputString Ending);
      split; intro H; congruence.
Qed.

Lemma chop_cases_witness :
  ".hdr" <> "" /\ chop ("mth_FWDis_19000131" ++ ".hdr") ".hdr"
                 = Some "mth_FWDis_19000131".
Proof.
  assert (H : ".hdr" <> "") by discriminate.
  split; [exact H|].
  exact (proj1 (chop_cases "mth_FWDis_19000131" ".hdr") H).
Defined.

End Chop.

(** ** Date stamps as numbers *)

Section Ordering.
Import Py PyMore awapFiles dataCube.
Local Open Scope string_scope.

Lemma int_from_acc (s : string) : forall acc,
  int_from acc s = (acc * 10 ^ Z.of_nat (String.length s) + int_from 0 s)%Z.
Proof.
  induction s as [|c t IH]; intro acc.
  - simpl. lia.
  - cbn [int_from String.length]. rewrite (IH (10 * acc + digit_value c)%Z).
    rewrite (IH (10 * 0 + digit_value c)%Z).
    rewrite Nat2Z.inj_succ, Z.pow_succ_r by lia. lia.
Qed.

Lemma int_from_bound (s : string) :
  all_digits s = true ->
  (0 <= int_from 0 s < 10 ^ Z.of_nat (String.length s))%Z.
Proof.
  induction s as [|c t IH]; intro H.
  - simpl. lia.
  - cbn [all_digits] in H. apply andb_true_iff in H. destruct H as [Hc Ht].
    pose proof (@digit_value_range c Hc) as Hv. specialize (IH Ht).
    cbn [int_from String.length]. rewrite int_from_acc.
    rewrite Nat2Z.inj_succ, Z.pow_succ_r by lia. nia.
Qed.

Lemma ascii_compare_digit_value (c1 c2 : ascii) :
  Ascii.compare c1 c2 = Z.compare (digit_value c1) (digit_value c2).
Proof.
  unfold Ascii.compare, digit_value, nat_of_ascii.
  rewrite !N_nat_Z.
  destruct (N.compare_spec (N_of_ascii c1) (N_of_ascii c2)) as [E|L|G];
    symmetry;
    [apply Z.compare_eq_iff | apply Z.compare_lt_iff | apply Z.compare_gt_iff];
    lia.
Qed.

Lemma compare_digit_strings (a : string) : forall b,
  String.length a = String.length b ->
  all_digits a = true -> all_digits b = true ->
  String.compare a b = Z.compare (int_from 0 a) (int_from 0 b).
Proof.
  induction a as [|c1 a IH]; intros [|c2 b] Hlen Ha Hb; try discriminate.
  - reflexivity.
  - cbn [all_digits] in Ha, Hb.
    apply andb_true_iff in Ha, Hb. destruct Ha as [Hc1 Ha], Hb as [Hc2 Hb].
    injection Hlen as Hlen.
    cbn [String.compare int_from].
    rewrite (int_from_acc a), (int_from_acc b), <- Hlen.
    pose proof (int_from_bound a Ha) as Ba.
    pose proof (int_from_bound b Hb) as Bb. rewrite <- Hlen in Bb.
    rewrite (IH b Hlen Ha Hb), ascii_compare_digit_value.
    set (P := (10 ^ Z.of_nat (String.length a))%Z) in *.
    set (ra := int_from 0 a) in *. set (rb := int_from 0 b) in *.
    set (v1 := digit_value c1). set (v2 := digit_value c2).
    destruct (Z.compare_spec v1 v2) as [E|L|G].
    + rewrite E. destruct (Z.compare_spec ra rb);
        symmetry; [apply Z.compare_eq_iff | apply Z.compare_lt_iff
                   | apply Z.compare_gt_iff]; nia.
    + symmetry. apply Z.compare_lt_iff. nia.
    + symmetry. apply Z.compare_gt_iff. nia.
Qed.

Lemma stamp_leb (a b : string) :
  is_stamp a -> is_stamp b ->
  String.leb a b = true <-> (stamp_value a <= stamp_value b)%Z.
Proof.
  intros [La Da] [Lb Db]. unfold String.leb, stamp_value.
  rewrite (@compare_digit_strings a b) by congruence.
  unfold Z.le. destruct (int_from 0 a ?= int_from 0 b)%Z;
    split; intro H; congruence.
Qed.

End Ordering.

(** ** Loops that collect, filter and search *)

Section Loops.
Import Py PyMore.

Variables A B : Type.

Lemma mapM_Forall2 (f : A -> outcome B) (l : list A) : forall r,
  PyMore.mapM f l = Returns r <-> Forall2 (fun x y => f x = Returns y) l r.
Proof.
  induction l as [|x t IH]; intro r; simpl.
  - split; intro H.
    + injection H as <-. constructor.
    + inversion H. reflexivity.
  - split; intro H.
    + destruct (f x) as [y|e] eqn:Ex; [|discriminate]. simpl in H.
      destruct (PyMore.mapM f t) as [ys|e] eqn:Et; [|discriminate].
      simpl in H. injection H as <-. constructor; [exact Ex|].
      apply IH. reflexivity.
    + inversion H as [|x' y l' ys Hxy Hrest]; subst.
      rewrite Hxy. simpl. apply IH in Hrest. rewrite Hrest. reflexivity.
Qed.

Lemma mapM_returns_all (f : A -> outcome B) (l : list A) :
  (forall x, In x l -> exists y, f x = Returns y) ->
  exists r, PyMore.mapM f l = Returns r.
Proof.
  induction l as [|x t IH]; intro H; simpl.
  - eexists. reflexivity.
  - destruct (H x (or_introl eq_refl)) as [y Hy]. rewrite Hy. simpl.
    destruct IH as [r Hr]; [intros z Hz; apply H; right; exact Hz|].
    rewrite Hr. simpl. eexists. reflexivity.
Qed.

Lemma mapM_all_return (f : A -> outcome B) (l : list A) (r : list B) :
  PyMore.mapM f l = Returns r ->
  forall x, In x l -> exists y, f x = Returns y /\ In y r.
Proof.
  intro H. apply mapM_Forall2 in H.
  induction H as [|x y l' r' Hxy _ IH]; intros z Hz; [destruct Hz|].
  destruct Hz as [<-|Hz].
  - exists y. split; [exact Hxy | left; reflexivity].
  - destruct (IH z Hz) as [w [Hw Hin]]. exists w. split; [exact Hw|right; exact Hin].
Qed.

Lemma mapM_image (f : A -> outcome B) (l : list A) (r : list B) :
  PyMore.mapM f l = Returns r ->
  forall y, In y r -> exists x, In x l /\ f x = Returns y.
Proof.
  intro H. apply mapM_Forall2 in H.
  induction H as [|x y l' r' Hxy _ IH]; intros z Hz; [destruct Hz|].
  destruct Hz as [<-|Hz].
  - exists x. split; [left; reflexivity | exact Hxy].
  - destruct (IH z Hz) as [w [Hin Hw]]. exists w. split; [right; exact Hin|exact Hw].
Qed.

Lemma mapM_returns_length (f : A -> outcome B) (l : list A) (r : list B) :
  PyMore.mapM f l = Returns r -> length r = length l.
Proof.
  intro H. apply mapM_Forall2 in H. symmetry.
  induction H; simpl; congruence.
Qed.

Lemma mapM_firstn (f : A -> outcome B) (n : nat) : forall l r,
  PyMore.mapM f l = Returns r ->
  PyMore.mapM f (firstn n l) = Returns (firstn n r).
Proof.
  induction n as [|n IH]; intros l r H; [reflexivity|].
  apply mapM_Forall2 in H. destruct H as [|x y l' r' Hxy Hrest]; [reflexivity|].
  simpl. rewrite Hxy. simpl. apply mapM_Forall2 in Hrest.
  rewrite (IH _ _ Hrest). reflexivity.
Qed.

Lemma mapM_skipn (f : A -> outcome B) (n : nat) : forall l r,
  PyMore.mapM f l = Returns r ->
  PyMore.mapM f (skipn n l) = Returns (skipn n r).
Proof.
  induction n as [|n IH]; intros l r H; [exact H|].
  apply mapM_Forall2 in H. destruct H as [|x y l' r' Hxy Hrest]; [reflexivity|].
  simpl. apply IH. apply mapM_Forall2. exact Hrest.
Qed.

Lemma mapM_slice (f : A -> outcome B) (l : list A) (r : list B) (a b : nat) :
  PyMore.mapM f l = Returns r ->
  PyMore.mapM f (slice l a b) = Returns (slice r a b).
Proof.
  intro H. unfold slice. apply mapM_firstn, mapM_skipn. exact H.
Qed.

Lemma passes_Returns (f : A -> outcome bool) (x : A) (b : bool) :
  f x = Returns b -> passes f x = b.
Proof. unfold passes. intros ->. destruct b; reflexivity. Qed.

Lemma filterM_filter (f : A -> outcome bool) (l : list A) : forall r,
  filterM f l = Returns r ->
  (forall x, In x l -> exists b, f x = Returns b)
  /\ r = filter (passes f) l.
Proof.
  induction l as [|x t IH]; intros r H; simpl in H.
  - injection H as <-. split; [intros x []|reflexivity].
  - destruct (f x) as [b|] eqn:Ex; [|discriminate]. simpl in H.
    destruct (filterM f t) as [r'|] eqn:Et; [|discriminate]. simpl in H.
    injection H as <-. destruct (IH r' eq_refl) as [Hall ->]. split.
    + intros z [<-|Hz]; [exists b; exact Ex | apply Hall; exact Hz].
    + cbn [filter]. rewrite (passes_Returns f x Ex). destruct b; reflexivity.
Qed.

Lemma filterM_returns (f : A -> outcome bool) (l : list A) :
  (forall x, In x l -> exists b, f x = Returns b) ->
  filterM f l = Returns (filter (passes f) l).
Proof.
  induction l as [|x t IH]; intro H; simpl; [reflexivity|].
  destruct (H x (or_introl eq_refl)) as [b Hb]. rewrite Hb. simpl.
  rewrite IH by (intros z Hz; apply H; right; exact Hz).
  cbn [PyMore.bind filter]. rewrite (passes_Returns f x Hb).
  destruct b; reflexivity.
Qed.

Lemma first_passing_found (test : A -> outcome bool) (l : list A) : forall x,
  first_passing test l = Returns (Some x) ->
  exists l1 l2, l = l1 ++ x :: l2 /\ test x = Returns true
                /\ Forall (fun y => test y = Returns false) l1.
Proof.
  induction l as [|y t IH]; intros x H; simpl in H; [discriminate|].
  destruct (test y) as [b|] eqn:Ey; [|discriminate]. simpl in H.
  destruct b.
  - injection H as <-. exists [], t. repeat split; [exact Ey | constructor].
  - destruct (IH x H) as (l1 & l2 & -> & Hx & Hl1).
    exists (y :: l1), l2. repeat split; [exact Hx | constructor; assumption].
Qed.

End Loops.

(** ** Sorting by a key *)

Section Sorting.
Import Py PyMore.
Local Open Scope string_scope.

Variable A : Type.

Lemma insert_by_key_perm (kx : string * A) (l : list (string * A)) :
  Permutation (kx :: l) (insert_by_key kx l).
Proof.
  induction l as [|ky t IH]; simpl; [apply Permutation_refl|].
  destruct (String.leb (fst kx) (fst ky)); [apply Permutation_refl|].
  eapply Permutation_trans; [apply perm_swap|]. constructor. exact IH.
Qed.

Lemma stable_sort_perm (l : list (string * A)) :
  Permutation l (stable_sort l).
Proof.
  induction l as [|kx t IH]; simpl; [constructor|].
  eapply Permutation_trans; [|apply insert_by_key_perm].
  constructor. exact IH.
Qed.

Lemma insert_by_key_sorted (kx : string * A) (l : list (string * A)) :
  Sorted (fun a b => String.leb (fst a) (fst b) = true) l ->
  Sorted (fun a b => String.leb (fst a) (fst b) = true) (insert_by_key kx l).
Proof.
  induction l as [|ky t IH]; intro H; simpl.
  - repeat constructor.
  - destruct (String.leb (fst kx) (fst ky)) eqn:E.
    + constructor; [exact H | constructor; exact E].
    + inversion H as [|? ? Ht Hhd]; subst. constructor; [apply IH; exact Ht|].
      assert (Hyx : String.leb (fst ky) (fst kx) = true).
      { destruct (String.leb_total (fst kx) (fst ky)) as [C|C];
          [congruence | exact C]. }
      destruct t as [|kz t']; simpl.
      * constructor. exact Hyx.
      * destruct (String.leb (fst kx) (fst kz)); constructor;
          [exact Hyx | inversion Hhd; assumption].
Qed.

Lemma stable_sort_sorted (l : list (string * A)) :
  Sorted (fun a b => String.leb (fst a) (fst b) = true) (stable_sort l).
Proof.
  induction l as [|kx t IH]; simpl; [constructor|].
  apply insert_by_key_sorted. exact IH.
Qed.

Lemma stable_sort_of_sorted (l : list (string * A)) :
  Sorted (fun a b => String.leb (fst a) (fst b) = true) l ->
  stable_sort l = l.
Proof.
  induction l as [|kx t IH]; intro H; simpl; [reflexivity|].
  inversion H as [|? ? Ht Hhd]; subst. rewrite (IH Ht).
  destruct t as [|ky t']; [reflexivity|]. simpl.
  inversion Hhd as [|? ? E]; subst. rewrite E. reflexivity.
Qed.

(** Stability: the elements with a given key keep their order. *)
Lemma insert_by_key_filter (k : string) (kx : string * A)
    (l : list (string * A)) :
  filter (fun p => String.eqb (fst p) k) (insert_by_key kx l)
  = filter (fun p => String.eqb (fst p) k) (kx :: l).
Proof.
  induction l as [|ky t IH]; [reflexivity|].
  cbn [insert_by_key]. destruct (String.leb (fst kx) (fst ky)) eqn:E;
    [reflexivity|].
  cbn [filter] in *. rewrite IH.
  destruct (String.eqb (fst kx) k) eqn:Ex; [|reflexivity].
  destruct (String.eqb (fst ky) k) eqn:Ey; [|reflexivity].
  apply String.eqb_eq in Ex, Ey. exfalso.
  rewrite Ex, Ey in E. unfold String.leb in E.
  assert (R : String.compare k k = Eq).
  { destruct (String.compare k k) eqn:C; [reflexivity| | ];
      pose proof (String.compare_antisym k k) as Q; rewrite C in Q;
      discriminate. }
  rewrite R in E. discriminate.
Qed.

Lemma stable_sort_filter (k : string) (l : list (string * A)) :
  filter (fun p => String.eqb (fst p) k) (stable_sort l)
  = filter (fun p => String.eqb (fst p) k) l.
Proof.
  induction l as [|kx t IH]; [reflexivity|].
  cbn [stable_sort fold_right]. fold (stable_sort t).
  rewrite insert_by_key_filter. cbn [filter]. rewrite IH. reflexivity.
Qed.

Lemma map_snd_combine (B : Type) (ks : list B) (l : list A) :
  length ks = length l -> map snd (combine ks l) = l.
Proof.
  revert l. induction ks as [|k ks IH]; intros [|x l] H; try discriminate;
    [reflexivity|].
  simpl. f_equal. apply IH. injection H as H. exact H.
Qed.

Lemma Sorted_map (B C : Type) (R : C -> C -> Prop) (g : B -> C) (l : list B) :
  Sorted (fun a b => R (g a) (g b)) l -> Sorted R (map g l).
Proof.
  induction 1 as [|x t Ht IH Hhd]; simpl; constructor; [exact IH|].
  destruct Hhd; simpl; constructor. assumption.
Qed.

(** What [sorted(l, key=key)] returns: the value of the sort on the
    pairs of key and element. *)
Lemma sorted_by_key_pairs (key : A -> outcome string) (l r : list A) :
  sorted_by_key key l = Returns r ->
  exists ps,
    r = map snd ps
    /\ combine (map fst ps) r = ps
    /\ Forall (fun p => key (snd p) = Returns (fst p)) ps
    /\ Sorted (fun a b => String.leb (fst a) (fst b) = true) ps
    /\ Permutation l r
    /\ (forall keys, PyMore.mapM key l = Returns keys ->
          ps = stable_sort (combine keys l)).
Proof.
  unfold sorted_by_key. intro H.
  destruct (PyMore.mapM key l) as [keys|] eqn:Ek; [|discriminate].
  simpl in H. injection H as <-.
  exists (stable_sort (combine keys l)).
  pose proof (mapM_returns_length _ _ Ek) as Hlen.
  pose proof (stable_sort_perm (combine keys l)) as Hperm.
  repeat split.
  - assert (G : forall ps : list (string * A),
               combine (map fst ps) (map snd ps) = ps).
    { induction ps as [|[k x] t IH]; simpl; [reflexivity|]. rewrite IH.
      reflexivity. }
    apply G.
  - eapply Permutation_Forall; [exact Hperm|].
    apply mapM_Forall2 in Ek. clear Hperm Hlen.
    induction Ek as [|x k l' ks' Hk _ IH]; simpl; constructor; assumption.
  - apply stable_sort_sorted.
  - rewrite <- (@map_snd_combine _ keys l Hlen) at 1.
    apply Permutation_map. exact Hperm.
  - intros keys' H'. injection H' as <-. reflexivity.
Qed.

End Sorting.

(** ** Dates of sorted names *)

Section DateOrder.
Import Py PyMore awapFiles.
Local Open Scope string_scope.

Lemma int_stamp (d : string) : is_stamp d -> int d = Returns (stamp_value d).
Proof.
  intros [Hl Hd]. unfold int, stamp_value. rewrite Hd.
  destruct d; [discriminate | reflexivity].
Qed.

Lemma getDate_stamp (f d : string) :
  getYMD f = Returns d -> getDate f = Returns (stamp_value d).
Proof.
  intro H. unfold getDate. rewrite H. cbn [PyMore.bind].
  apply int_stamp. exact (@getYMD_stamp_shape f d H).
Qed.

Lemma getDate_inv (f : string) (n : Z) :
  getDate f = Returns n ->
  exists d, getYMD f = Returns d /\ is_stamp d /\ n = stamp_value d.
Proof.
  unfold getDate. destruct (getYMD f) as [d|] eqn:E; [|discriminate].
  cbn [PyMore.bind]. intro H. exists d.
  pose proof (@getYMD_stamp_shape f d E) as Hs.
  rewrite (int_stamp Hs) in H. injection H as <-. auto.
Qed.

Lemma getYMD_raises (f : string) (e : exn) :
  getYMD f = Raises e -> e = Std SystemExit.
Proof.
  unfold getYMD. destruct (findall_d8 f) as [|x [|y r]]; simpl; intro H;
    try discriminate; injection H as <-; reflexivity.
Qed.

Lemma getDate_raises (f : string) (e : exn) :
  getDate f = Raises e -> e = Std SystemExit.
Proof.
  unfold getDate. destruct (getYMD f) as [d|e'] eqn:E; cbn [PyMore.bind].
  - rewrite (int_stamp (@getYMD_stamp_shape f d E)). discriminate.
  - intro H. injection H as <-. exact (getYMD_raises _ E).
Qed.

(** The sorted pairs give the dates of the sorted names. *)
Lemma sorted_pairs_dates (ps : list (string * string)) :
  Forall (fun p => getYMD (snd p) = Returns (fst p)) ps ->
  Sorted (fun a b => String.leb (fst a) (fst b) = true) ps ->
  PyMore.mapM getDate (map snd ps)
  = Returns (map stamp_value (map fst ps))
  /\ Sorted Z.le (map stamp_value (map fst ps)).
Proof.
  intros Hk Hs. split.
  - clear Hs. rewrite map_map. induction Hk as [|p t Hp _ IH]; [reflexivity|].
    cbn [map PyMore.mapM]. rewrite (getDate_stamp _ Hp). cbn [PyMore.bind].
    rewrite IH. reflexivity.
  - rewrite map_map. apply Sorted_map.
    induction Hs as [|p t Ht IH Hhd]; [constructor|].
    inversion Hk as [|? ? Hp Hkt]; subst.
    constructor; [apply IH; exact Hkt|].
    destruct Hhd as [|q t' Hpq]; constructor.
    inversion Hkt as [|? ? Hq _]; subst.
    apply stamp_leb; [exact (@getYMD_stamp_shape _ _ Hp)
                     | exact (@getYMD_stamp_shape _ _ Hq) | exact Hpq].
Qed.

Lemma sortByDate_dates (FileList r : list string) :
  sortByDate FileList = Returns r ->
  Permutation FileList r
  /\ exists dates, PyMore.mapM getDate r = Returns dates /\ Sorted Z.le dates.
Proof.
  intro H. unfold sortByDate in H.
  destruct (sorted_by_key_pairs _ _ H) as (ps & -> & _ & Hk & Hs & Hp & _).
  split; [exact Hp|].
  destruct (sorted_pairs_dates Hk Hs) as [H1 H2].
  eexists. split; eassumption.
Qed.

Lemma sortByDate_again (FileList r : list string) :
  sortByDate FileList = Returns r -> sortByDate r = Returns r.
Proof.
  intro H. unfold sortByDate in H.
  destruct (sorted_by_key_pairs _ _ H) as (ps & -> & Hc & Hk & Hs & Hp & _).
  unfold sortByDate, sorted_by_key.
  assert (Hm : PyMore.mapM getYMD (map snd ps) = Returns (map fst ps)).
  { clear Hc Hs Hp H. induction Hk as [|p t Hp _ IH]; [reflexivity|].
    cbn [map PyMore.mapM]. rewrite Hp. cbn [PyMore.bind]. rewrite IH.
    reflexivity. }
  rewrite Hm. cbn [PyMore.bind]. rewrite Hc.
  rewrite (stable_sort_of_sorted Hs). reflexivity.
Qed.

End DateOrder.

(** ** [sortByDate] *)

Section SortByDate.
Import Py PyMore awapFiles.
Local Open Scope string_scope.

Lemma filter_map_snd (K V : Type) (P : V -> bool) (Q : K * V -> bool)
    (ps : list (K * V)) :
  Forall (fun p => P (snd p) = Q p) ps ->
  filter P (map snd ps) = map snd (filter Q ps).
Proof.
  induction 1 as [|p t Hp _ IH]; [reflexivity|].
  cbn [map filter]. rewrite Hp, IH. destruct (Q p); reflexivity.
Qed.

Lemma stamped_pairs (d : string) (ps : list (string * string)) :
  Forall (fun p => getYMD (snd p) = Returns (fst p)) ps ->
  Forall (fun p => stamped d (snd p) = String.eqb (fst p) d) ps.
Proof.
  apply Forall_impl. intros p Hp. unfold stamped. rewrite Hp. reflexivity.
Qed.

Lemma combine_keys (l keys : list string) :
  PyMore.mapM getYMD l = Returns keys ->
  Forall (fun p => getYMD (snd p) = Returns (fst p)) (combine keys l).
Proof.
  intro H. apply mapM_Forall2 in H.
  induction H as [|x k l' ks' Hk _ IH]; simpl; constructor; assumption.
Qed.

(** [sortByDate] returns the names it was given, each as often as
    before, in the order of their dates; names with the same date keep
    their order; sorting the result again changes nothing. *)
Theorem sortByDate_sorts (FileList r : list string) :
  sortByDate FileList = Returns r ->
  Permutation FileList r
  /\ (exists dates,
        PyMore.mapM getDate r = Returns dates /\ Sorted Z.le dates)
  /\ (forall d, filter (stamped d) r = filter (stamped d) FileList)
  /\ sortByDate r = Returns r.
Proof.
  intro H. destruct (sortByDate_dates _ H) as [Hp Hd].
  split; [exact Hp|]. split; [exact Hd|].
  split; [|exact (sortByDate_again _ H)].
  intro d. unfold sortByDate in H.
  destruct (sorted_by_key_pairs _ _ H) as (ps & -> & _ & Hk & _ & _ & Hps).
  unfold sorted_by_key in H.
  destruct (PyMore.mapM getYMD FileList) as [keys|] eqn:Ek; [|discriminate].
  rewrite (Hps keys eq_refl) in *.
  rewrite (@filter_map_snd _ _ _ _ _ (@stamped_pairs d _ Hk)).
  rewrite stable_sort_filter.
  rewrite <- (@filter_map_snd _ _ _ _ _ (@stamped_pairs d _ (@combine_keys _ _ Ek))).
  rewrite map_snd_combine by exact (mapM_returns_length _ _ Ek).
  reflexivity.
Qed.

Lemma sortByDate_sorts_witness :
  sortByDate ["mth_FWDis_19000331"; "mth_FWDis_19000131";
              "mth_FWDis_19000228"; "ann_FWDis_19000131"]
  = Returns ["mth_FWDis_19000131"; "ann_FWDis_19000131";
             "mth_FWDis_19000228"; "mth_FWDis_19000331"]
  /\ sortByDate ["mth_FWDis_19000131"; "ann_FWDis_19000131";
                 "mth_FWDis_19000228"; "mth_FWDis_19000331"]
     = Returns ["mth_FWDis_19000131"; "ann_FWDis_19000131";
                "mth_FWDis_19000228"; "mth_FWDis_19000331"].
Proof.
  assert (H : sortByDate ["mth_FWDis_19000331"; "mth_FWDis_19000131";
                          "mth_FWDis_19000228"; "ann_FWDis_19000131"]
              = Returns ["mth_FWDis_19000131"; "ann_FWDis_19000131";
                         "mth_FWDis_19000228"; "mth_FWDis_19000331"])
    by reflexivity.
  split; [exact H|].
  exact (proj2 (proj2 (proj2 (@sortByDate_sorts _ _ H)))).
Defined.

Lemma mapM_raises_first (A B : Type) (f : A -> outcome B) (e : exn)
    (l : list A) :
  (forall x e', In x l -> f x = Raises e' -> e' = e) ->
  Exists (fun x => forall y, f x <> Returns y) l ->
  PyMore.mapM f l = Raises e.
Proof.
  intros Hall Hex. induction l as [|x t IH]; [inversion Hex|].
  simpl. destruct (f x) as [y|e'] eqn:Ex; simpl.
  - rewrite IH; [reflexivity | intros z e'' Hz; apply Hall; right; exact Hz|].
    inversion Hex as [? ? Hx|? ? Ht]; subst; [|exact Ht].
    exfalso. exact (Hx y Ex).
  - rewrite (Hall x e' (or_introl eq_refl) Ex). reflexivity.
Qed.

(** [sortByDate] returns exactly when every name holds one date stamp;
    a single name without one, or with two, makes it exit. *)
Theorem sortByDate_outcome (FileList : list string) :
  ((forall f, In f FileList -> exists d, getYMD f = Returns d) ->
   exists r, sortByDate FileList = Returns r)
  /\ (Exists (fun f => forall d, getYMD f <> Returns d) FileList ->
      sortByDate FileList = Raises (Std SystemExit)).
Proof.
  unfold sortByDate, sorted_by_key. split; intro H.
  - destruct (mapM_returns_all getYMD FileList H) as [keys ->].
    eexists. reflexivity.
  - rewrite (@mapM_raises_first _ _ getYMD (Std SystemExit) FileList);
      [reflexivity | | exact H].
    intros x e _ Hx. exact (getYMD_raises _ Hx).
Qed.

Lemma sortByDate_outcome_witness :
  Exists (fun f => forall d, getYMD f <> Returns d)
         ["mth_FWDis_19000131"; "notes.txt"]
  /\ sortByDate ["mth_FWDis_19000131"; "notes.txt"] = Raises (Std SystemExit).
Proof.
  assert (H : Exists (fun f => forall d, getYMD f <> Returns d)
                     ["mth_FWDis_19000131"; "notes.txt"]).
  { right. left. intros d. discriminate. }
  split; [exact H|].
  exact (proj2 (sortByDate_outcome ["mth_FWDis_19000131"; "notes.txt"]) H).
Defined.

End SortByDate.

(** ** [getEarliestDate] and [getLatestDate] *)

Section DateRange.
Import Py PyMore awapFiles.
Local Open Scope string_scope.
Local Open Scope Z_scope.

Lemma fold_left_min (t : list Z) : forall x,
  (fold_left Z.min t x = x \/ In (fold_left Z.min t x) t)
  /\ fold_left Z.min t x <= x
  /\ Forall (fun d => fold_left Z.min t x <= d) t.
Proof.
  induction t as [|y t IH]; intro x; simpl.
  - repeat split; [left; reflexivity | lia | constructor].
  - destruct (IH (Z.min x y)) as (H1 & H2 & H3). repeat split.
    + destruct H1 as [H1|H1]; [|right; right; exact H1].
      rewrite H1. destruct (Z.min_spec x y) as [[_ ->]|[_ ->]];
        [left; reflexivity | right; left; reflexivity].
    + lia.
    + constructor; [lia | exact H3].
Qed.

Lemma fold_left_max (t : list Z) : forall x,
  (fold_left Z.max t x = x \/ In (fold_left Z.max t x) t)
  /\ x <= fold_left Z.max t x
  /\ Forall (fun d => d <= fold_left Z.max t x) t.
Proof.
  induction t as [|y t IH]; intro x; simpl.
  - repeat split; [left; reflexivity | lia | constructor].
  - destruct (IH (Z.max x y)) as (H1 & H2 & H3). repeat split.
    + destruct H1 as [H1|H1]; [|right; right; exact H1].
      rewrite H1. destruct (Z.max_spec x y) as [[_ ->]|[_ ->]];
        [right; left; reflexivity | left; reflexivity].
    + lia.
    + constructor; [lia | exact H3].
Qed.

Lemma min_of_spec (l : list Z) (m : Z) :
  min_of l = Returns m -> In m l /\ Forall (fun d => m <= d) l.
Proof.
  destruct l as [|x t]; [discriminate|]. simpl. intro H. injection H as <-.
  destruct (fold_left_min t x) as (H1 & H2 & H3). split.
  - destruct H1 as [->|H1]; [left; reflexivity | right; exact H1].
  - constructor; assumption.
Qed.

Lemma max_of_spec (l : list Z) (m : Z) :
  max_of l = Returns m -> In m l /\ Forall (fun d => d <= m) l.
Proof.
  destruct l as [|x t]; [discriminate|]. simpl. intro H. injection H as <-.
  destruct (fold_left_max t x) as (H1 & H2 & H3). split.
  - destruct H1 as [->|H1]; [left; reflexivity | right; exact H1].
  - constructor; assumption.
Qed.

Lemma getEarliestDate_inv (FileList : list string) (s : Z) :
  getEarliestDate FileList = Returns s ->
  exists dates m,
    PyMore.mapM getDate FileList = Returns dates
    /\ min_of dates = Returns m /\ s = m - m mod 100 + 1.
Proof.
  unfold getEarliestDate.
  change (PyMore.mapM (fun f => PyMore.bind (getYMD f) (fun ymd => int ymd))
                      FileList)
    with (PyMore.mapM getDate FileList).
  destruct (PyMore.mapM getDate FileList) as [dates|]; [|discriminate].
  cbn [PyMore.bind]. destruct (min_of dates) as [m|] eqn:Em; [|discriminate].
  cbn [PyMore.bind]. intro H. injection H as <-.
  exists dates, m. repeat split. exact Em.
Qed.

Lemma getLatestDate_inv (FileList : list string) (e : Z) :
  getLatestDate FileList = Returns e ->
  exists dates,
    PyMore.mapM getDate FileList = Returns dates /\ max_of dates = Returns e.
Proof.
  unfold getLatestDate.
  change (PyMore.mapM (fun f => PyMore.bind (getYMD f) (fun ymd => int ymd))
                      FileList)
    with (PyMore.mapM getDate FileList).
  destruct (PyMore.mapM getDate FileList) as [dates|]; [|discriminate].
  cbn [PyMore.bind]. destruct (max_of dates) as [m|] eqn:Em; [|discriminate].
  cbn [PyMore.bind]. intro H. injection H as <-.
  exists dates. split; [reflexivity | exact Em].
Qed.

Lemma earliest_bounds (FileList : list string) (s : Z) :
  getEarliestDate FileList = Returns s ->
  forall f d, In f FileList -> getDate f = Returns d ->
    1 <= d mod 100 -> s <= d.
Proof.
  intro H. destruct (getEarliestDate_inv _ H) as (dates & m & Hd & Hm & ->).
  destruct (min_of_spec _ Hm) as [_ Hall].
  intros f d Hf Hfd Hday.
  destruct (mapM_all_return _ _ Hd f Hf) as [d' [Hd' Hin]].
  rewrite Hfd in Hd'. injection Hd' as <-.
  rewrite Forall_forall in Hall. specialize (Hall d Hin).
  pose proof (Z.div_le_mono m d 100 ltac:(lia) Hall).
  pose proof (Z.div_mod m 100 ltac:(lia)).
  pose proof (Z.div_mod d 100 ltac:(lia)). lia.
Qed.

Lemma latest_bounds (FileList : list string) (e : Z) :
  getLatestDate FileList = Returns e ->
  forall f d, In f FileList -> getDate f = Returns d -> d <= e.
Proof.
  intro H. destruct (getLatestDate_inv _ H) as (dates & Hd & Hm).
  destruct (max_of_spec _ Hm) as [_ Hall].
  intros f d Hf Hfd.
  destruct (mapM_all_return _ _ Hd f Hf) as [d' [Hd' Hin]].
  rewrite Hfd in Hd'. injection Hd' as <-.
  rewrite Forall_forall in Hall. exact (Hall d Hin).
Qed.

(** The earliest date of a list of names is the first day of the month
    of its earliest name: it ends in [01], it is computed from the date
    of one of the names by replacing the day by 1, and no name of the
    list with a day of at least 1 is dated before it. *)
Theorem getEarliestDate_first_of_month (FileList : list string) (s : Z) :
  getEarliestDate FileList = Returns s ->
  s mod 100 = 1
  /\ (exists f d, In f FileList /\ getDate f = Returns d
                  /\ s = 100 * (d / 100) + 1
                  /\ forall f' d', In f' FileList ->
                                   getDate f' = Returns d' -> d <= d')
  /\ (forall f d, In f FileList -> getDate f = Returns d ->
                  1 <= d mod 100 -> s <= d).
Proof.
  intro H. split; [|split].
  - destruct (getEarliestDate_inv _ H) as (dates & m & _ & _ & ->).
    pose proof (Z.div_mod m 100 ltac:(lia)).
    replace (m - m mod 100 + 1) with (1 + (m / 100) * 100) by lia.
    rewrite Z.mod_add by lia. reflexivity.
  - destruct (getEarliestDate_inv _ H) as (dates & m & Hd & Hm & ->).
    destruct (min_of_spec _ Hm) as [Hin Hall].
    destruct (mapM_image _ _ Hd m Hin) as [f [Hf Hfm]].
    exists f, m. repeat split; try assumption.
    + pose proof (Z.div_mod m 100 ltac:(lia)). lia.
    + intros f' d' Hf' Hd'.
      destruct (mapM_all_return _ _ Hd f' Hf') as [d'' [E Hin']].
      rewrite Hd' in E. injection E as <-.
      rewrite Forall_forall in Hall. exact (Hall d' Hin').
  - exact (earliest_bounds _ H).
Qed.

Lemma getEarliestDate_first_of_month_witness :
  getEarliestDate ["mth_FWDis_19000228"; "mth_FWDis_19000131"]
  = Returns 19000101
  /\ 19000101 mod 100 = 1.
Proof.
  assert (H : getEarliestDate ["mth_FWDis_19000228"; "mth_FWDis_19000131"]
              = Returns 19000101) by reflexivity.
  split; [exact H|].
  exact (proj1 (@getEarliestDate_first_of_month _ _ H)).
Defined.

(** The latest date of a list of names is the date of one of them, and
    no name of the list is dated after it. *)
Theorem getLatestDate_is_latest (FileList : list string) (e : Z) :
  getLatestDate FileList = Returns e ->
  (exists f, In f FileList /\ getDate f = Returns e)
  /\ (forall f d, In f FileList -> getDate f = Returns d -> d <= e).
Proof.
  intro H. split; [|exact (latest_bounds _ H)].
  destruct (getLatestDate_inv _ H) as (dates & Hd & Hm).
  destruct (max_of_spec _ Hm) as [Hin _].
  exact (mapM_image _ _ Hd e Hin).
Qed.

Lemma getLatestDate_is_latest_witness :
  getLatestDate ["mth_FWDis_19000228"; "mth_FWDis_19000131"]
  = Returns 19000228
  /\ exists f, In f ["mth_FWDis_19000228"; "mth_FWDis_19000131"]
               /\ getDate f = Returns 19000228.
Proof.
  assert (H : getLatestDate ["mth_FWDis_19000228"; "mth_FWDis_19000131"]
              = Returns 19000228) by reflexivity.
  split; [exact H|].
  exact (proj1 (@getLatestDate_is_latest _ _ H)).
Defined.

Lemma date_range_returns (FileList : list string) :
  FileList <> [] ->
  (forall f, In f FileList -> exists d, getYMD f = Returns d) ->
  exists s e, getEarliestDate FileList = Returns s
              /\ getLatestDate FileList = Returns e.
Proof.
  intros Hne Hall. unfold getEarliestDate, getLatestDate.
  change (PyMore.mapM (fun f => PyMore.bind (getYMD f) (fun ymd => int ymd))
                      FileList)
    with (PyMore.mapM getDate FileList).
  destruct (mapM_returns_all getDate FileList) as [dates Hd].
  { intros f Hf. destruct (Hall f Hf) as [d Hd]. eexists.
    exact (getDate_stamp _ Hd). }
  rewrite Hd. cbn [PyMore.bind].
  pose proof (mapM_returns_length _ _ Hd) as Hlen.
  destruct dates as [|x t];
    [destruct FileList; [congruence | discriminate]|].
  simpl. eexists. eexists. split; reflexivity.
Qed.

(** Both functions fail on an empty list with the [ValueError] of
    [min] and [max], exit when a name of the list has no single date
    stamp, and return otherwise. *)
Theorem date_range_outcome (FileList : list string) :
  (FileList = [] ->
   getEarliestDate FileList = Raises (Std ValueError)
   /\ getLatestDate FileList = Raises (Std ValueError))
  /\ (Exists (fun f => forall d, getYMD f <> Returns d) FileList ->
      getEarliestDate FileList = Raises (Std SystemExit)
      /\ getLatestDate FileList = Raises (Std SystemExit))
  /\ (FileList <> [] ->
      (forall f, In f FileList -> exists d, getYMD f = Returns d) ->
      exists s e, getEarliestDate FileList = Returns s
                  /\ getLatestDate FileList = Returns e).
Proof.
  split; [|split].
  - intros ->. split; reflexivity.
  - intro H. unfold getEarliestDate, getLatestDate.
    change (PyMore.mapM (fun f => PyMore.bind (getYMD f) (fun ymd => int ymd))
                        FileList)
      with (PyMore.mapM getDate FileList).
    rewrite (@mapM_raises_first _ _ getDate (Std SystemExit) FileList).
    + split; reflexivity.
    + intros x e _ Hx. exact (getDate_raises _ Hx).
    + eapply Exists_impl; [|exact H]. intros f Hf d Hd.
      destruct (getDate_inv _ Hd) as (y & Hy & _). exact (Hf y Hy).
  - exact (@date_range_returns FileList).
Qed.

Lemma date_range_outcome_witness :
  getEarliestDate ["mth_FWDis_19000131"; "notes.txt"]
  = Raises (Std SystemExit)
  /\ getLatestDate ["mth_FWDis_19000131"; "notes.txt"]
     = Raises (Std SystemExit).
Proof.
  apply (proj1 (proj2 (date_range_outcome
                         ["mth_FWDis_19000131"; "notes.txt"]))).
  right. left. intros d. discriminate.
Defined.

End DateRange.

(** ** [filterByDateRange] *)

Section Filters.
Import Py PyMore awapFiles.
Local Open Scope string_scope.
Local Open Scope Z_scope.

Lemma filter_all (A : Type) (p : A -> bool) (l : list A) :
  (forall x, In x l -> p x = true) -> filter p l = l.
Proof.
  induction l as [|x t IH]; intro H; [reflexivity|]. simpl.
  rewrite (H x (or_introl eq_refl)). f_equal. apply IH.
  intros z Hz. apply H. right. exact Hz.
Qed.

Lemma passes_date_range (StartDate EndDate : Z) (f : string) :
  passes (fun file =>
            PyMore.bind (getDate file) (fun fileDate =>
            Returns ((StartDate <=? fileDate) && (fileDate <=? EndDate))))
         f
  = in_date_range StartDate EndDate f.
Proof.
  unfold passes, in_date_range. destruct (getDate f) as [d|]; [|reflexivity].
  cbn [PyMore.bind]. destruct ((StartDate <=? d) && (d <=? EndDate));
    reflexivity.
Qed.

Lemma in_date_range_true (StartDate EndDate : Z) (f : string) :
  in_date_range StartDate EndDate f = true <->
  exists d, getDate f = Returns d /\ StartDate <= d <= EndDate.
Proof.
  unfold in_date_range. destruct (getDate f) as [d|e]; split.
  - intro H. apply andb_true_iff in H. destruct H as [H1 H2].
    apply Z.leb_le in H1, H2. exists d. split; [reflexivity | lia].
  - intros [d' [E H]]. injection E as <-. apply andb_true_iff.
    split; apply Z.leb_le; lia.
  - discriminate.
  - intros [d [E _]]. discriminate.
Qed.

Lemma filterByDateRange_inv (FileList r : list string) (StartDate EndDate : Z) :
  filterByDateRange FileList StartDate EndDate = Returns r ->
  (forall f, In f FileList -> exists d, getDate f = Returns d)
  /\ sortByDate (filter (in_date_range StartDate EndDate) FileList)
     = Returns r.
Proof.
  unfold filterByDateRange. intro H.
  match type of H with
  | PyMore.bind (filterM ?t _) _ = _ => set (test := t) in *
  end.
  destruct (filterM test FileList) as [kept|] eqn:Ef; [|discriminate].
  cbn [PyMore.bind] in H.
  destruct (filterM_filter _ _ Ef) as [Hall ->]. split.
  - intros f Hf. destruct (Hall f Hf) as [b Hb]. unfold test in Hb.
    destruct (getDate f) as [d|]; [eexists; reflexivity | discriminate].
  - rewrite <- H. unfold sortByDate. f_equal.
    apply filter_ext. intro f. symmetry. apply passes_date_range.
Qed.

(** [filterByDateRange] returns the names dated from [StartDate] to
    [EndDate], each as often as in the list, in the order of their
    dates; it returns only if every name of the list, kept or not,
    carries a date. *)
Theorem filterByDateRange_selects (FileList r : list string)
    (StartDate EndDate : Z) :
  filterByDateRange FileList StartDate EndDate = Returns r ->
  Permutation (filter (in_date_range StartDate EndDate) FileList) r
  /\ (forall f, In f r <->
                In f FileList
                /\ exists d, getDate f = Returns d
                             /\ StartDate <= d <= EndDate)
  /\ (exists dates,
        PyMore.mapM getDate r = Returns dates /\ Sorted Z.le dates
        /\ Forall (fun d => StartDate <= d <= EndDate) dates)
  /\ (forall f, In f FileList -> exists d, getDate f = Returns d).
Proof.
  intro H. destruct (filterByDateRange_inv _ _ _ H) as [Hall Hs].
  destruct (sortByDate_dates _ Hs) as [Hp (dates & Hd & Hsorted)].
  assert (Hin : forall f, In f r <->
                In f FileList
                /\ exists d, getDate f = Returns d
                             /\ StartDate <= d <= EndDate).
  { intro f. rewrite <- in_date_range_true, <- filter_In. split; intro Hf.
    - eapply Permutation_in; [apply Permutation_sym; exact Hp | exact Hf].
    - eapply Permutation_in; [exact Hp | exact Hf]. }
  split; [exact Hp|]. split; [exact Hin|]. split; [|exact Hall].
  exists dates. split; [exact Hd|]. split; [exact Hsorted|].
  apply Forall_forall. intros d Hdin.
  destruct (mapM_image _ _ Hd d Hdin) as [f [Hf Hfd]].
  apply Hin in Hf. destruct Hf as [_ [d' [E Hr]]].
  rewrite Hfd in E. injection E as <-. exact Hr.
Qed.

Lemma filterByDateRange_selects_witness :
  filterByDateRange ["mth_FWDis_19000331"; "mth_FWDis_19000131";
                     "mth_FWDis_19000228"] 19000201 19001231
  = Returns ["mth_FWDis_19000228"; "mth_FWDis_19000331"]
  /\ Permutation
       (filter (in_date_range 19000201 19001231)
               ["mth_FWDis_19000331"; "mth_FWDis_19000131";
                "mth_FWDis_19000228"])
       ["mth_FWDis_19000228"; "mth_FWDis_19000331"].
Proof.
  assert (H : filterByDateRange ["mth_FWDis_19000331"; "mth_FWDis_19000131";
                                 "mth_FWDis_19000228"] 19000201 19001231
              = Returns ["mth_FWDis_19000228"; "mth_FWDis_19000331"])
    by reflexivity.
  split; [exact H|].
  exact (proj1 (@filterByDateRange_selects _ _ _ _ H)).
Defined.

End Filters.

(** ** The month filters *)

Section MonthFilters.
Import Py PyMore awapFiles.
Local Open Scope string_scope.
Local Open Scope Z_scope.

Lemma lower_char_idem (c : ascii) : lower_char (lower_char c) = lower_char c.
Proof.
  destruct c as [[] [] [] [] [] [] [] []]; reflexivity.
Qed.

Lemma lower_idem (s : string) : lower (lower s) = lower s.
Proof.
  induction s as [|c t IH]; [reflexivity|]. cbn [lower].
  rewrite lower_char_idem, IH. reflexivity.
Qed.

Lemma contains_In (l : list string) (x : string) :
  contains l x = true <-> In x l.
Proof.
  unfold contains. rewrite existsb_exists. split.
  - intros [y [Hy E]]. apply String.eqb_eq in E. subst. exact Hy.
  - intro H. exists x. split; [exact H | apply String.eqb_refl].
Qed.

Lemma month_tables_agree (a : string) (m : Z) :
  getitem_str MonthAbbrToNum a = Returns m <->
  nth_error MonthAbbrs (Z.to_nat (m - 1)) = Some a /\ 1 <= m <= 12.
Proof.
  split.
  - unfold MonthAbbrToNum. cbn [getitem_str].
    repeat match goal with
           | |- (if String.eqb ?k a then _ else _) = _ -> _ =>
               destruct (String.eqb k a) eqn:E;
               [apply String.eqb_eq in E; subst a; intro H; injection H as <-;
                split; [reflexivity | lia] | clear E]
           end.
    discriminate.
  - intros [H Hm].
    assert (C : m = 1 \/ m = 2 \/ m = 3 \/ m = 4 \/ m = 5 \/ m = 6 \/ m = 7
                \/ m = 8 \/ m = 9 \/ m = 10 \/ m = 11 \/ m = 12) by lia.
    repeat (destruct C as [->|C]; [injection H as <-; reflexivity|]).
    subst m. injection H as <-. reflexivity.
Qed.

Lemma month_number_name (a : string) (m : Z) :
  getitem_str MonthAbbrToNum a = Returns m ->
  getitem_int MonthNumToAbbr m = Returns a.
Proof.
  intro H. apply month_tables_agree in H. destruct H as [H Hm].
  assert (C : m = 1 \/ m = 2 \/ m = 3 \/ m = 4 \/ m = 5 \/ m = 6 \/ m = 7
              \/ m = 8 \/ m = 9 \/ m = 10 \/ m = 11 \/ m = 12) by lia.
  repeat (destruct C as [->|C]; [injection H as <-; reflexivity|]).
  subst m. injection H as <-. reflexivity.
Qed.

Lemma month_name_known (a : string) :
  contains MonthAbbrs a = true ->
  exists m, getitem_str MonthAbbrToNum a = Returns m.
Proof.
  intro H. apply contains_In in H. unfold MonthAbbrs in H.
  repeat (destruct H as [<-|H]; [eexists; reflexivity|]). destruct H.
Qed.

Lemma passes_month (MonthNum : Z) (f : string) :
  passes (fun file =>
            PyMore.bind (getMonth file) (fun m => Returns (m =? MonthNum)))
         f
  = in_month MonthNum f.
Proof.
  unfold passes, in_month. destruct (getMonth f) as [m|]; [|reflexivity].
  cbn [PyMore.bind]. destruct (m =? MonthNum); reflexivity.
Qed.

Lemma in_month_true (m : Z) (f : string) :
  in_month m f = true <-> getMonth f = Returns m.
Proof.
  unfold in_month. destruct (getMonth f) as [k|e]; split; intro H.
  - apply Z.eqb_eq in H. subst. reflexivity.
  - injection H as ->. apply Z.eqb_refl.
  - discriminate.
  - discriminate.
Qed.

Lemma is_a_MonthNum_true (m : Z) : is_a_MonthNum m = true <-> 1 <= m <= 12.
Proof.
  unfold is_a_MonthNum. destruct ((0 <? m) && (m <? 13)) eqn:E; split;
    intro H; try reflexivity; try discriminate.
  - apply andb_true_iff in E. destruct E as [E1 E2].
    apply Z.ltb_lt in E1, E2. lia.
  - apply andb_false_iff in E. destruct E as [E|E]; apply Z.ltb_ge in E; lia.
Qed.

Lemma filterByMonthNum_inv (FileList r : list string) (m : Z) :
  filterByMonthNum FileList m = Returns r ->
  1 <= m <= 12
  /\ r = filter (in_month m) FileList
  /\ (forall f, In f FileList -> exists k, getMonth f = Returns k).
Proof.
  unfold filterByMonthNum. destruct (is_a_MonthNum m) eqn:E;
    cbn [negb]; [|discriminate].
  intro H. apply is_a_MonthNum_true in E. split; [exact E|].
  destruct (filterM_filter _ _ H) as [Hall ->]. split.
  - apply filter_ext. intro f. apply passes_month.
  - intros f Hf. destruct (Hall f Hf) as [b Hb].
    destruct (getMonth f) as [k|]; [eexists; reflexivity | discriminate].
Qed.

Lemma filterByMonthNum_returns (FileList : list string) (m : Z) :
  1 <= m <= 12 ->
  (forall f, In f FileList -> exists d, getYMD f = Returns d) ->
  filterByMonthNum FileList m = Returns (filter (in_month m) FileList).
Proof.
  intros Hm Hall. unfold filterByMonthNum.
  rewrite (proj2 (is_a_MonthNum_true m) Hm). cbn [negb].
  rewrite filterM_returns.
  - f_equal. apply filter_ext. intro f. apply passes_month.
  - intros f Hf. destruct (Hall f Hf) as [d Hd].
    destruct (@getMonth_returns f d Hd) as [k Hk].
    rewrite Hk. eexists. reflexivity.
Qed.

Lemma filterByMonthName_inv (FileList r : list string) (Month : string) :
  filterByMonthName FileList Month = Returns r ->
  exists m, getitem_str MonthAbbrToNum (lower Month) = Returns m
            /\ filterByMonthNum FileList m = Returns r.
Proof.
  unfold filterByMonthName.
  destruct (is_a_Month (lower Month)); cbn [negb]; [|discriminate].
  destruct (getitem_str MonthAbbrToNum (lower Month)) as [m|] eqn:E;
    [|discriminate].
  cbn [PyMore.bind]. intro H. exists m. split; [reflexivity | exact H].
Qed.

Lemma is_a_Month_lower (Month : string) :
  is_a_Month (lower Month) = is_a_Month Month.
Proof. unfold is_a_Month. rewrite lower_idem. reflexivity. Qed.

Lemma is_a_Month_true (Month : string) :
  is_a_Month Month = true <-> contains MonthAbbrs (lower Month) = true.
Proof.
  unfold is_a_Month. destruct (contains MonthAbbrs (lower Month));
    split; intro H; congruence.
Qed.

(** [filterByMonthName] keeps, in their order, the names whose month
    number is the position of the month's abbreviation in the year,
    whatever the case of its letters; it is [filterByMonthNum] at that
    number, and each name it keeps has that abbreviation. *)
Theorem filterByMonthName_selects (FileList r : list string)
    (Month : string) :
  filterByMonthName FileList Month = Returns r ->
  exists m,
    1 <= m <= 12
    /\ nth_error MonthAbbrs (Z.to_nat (m - 1)) = Some (lower Month)
    /\ r = filter (in_month m) FileList
    /\ filterByMonthNum FileList m = Returns r
    /\ (forall f, In f r -> getMonthAbbr f = Returns (lower Month)).
Proof.
  intro H. destruct (filterByMonthName_inv _ _ H) as (m & Hm & Hr).
  exists m. destruct (filterByMonthNum_inv _ _ Hr) as (Hrange & Hf & _).
  pose proof (proj1 (month_tables_agree _ _) Hm) as [Hnth _].
  repeat split; try assumption; try lia.
  intros f Hin. rewrite Hf in Hin. apply filter_In in Hin.
  destruct Hin as [_ Hin]. apply in_month_true in Hin.
  unfold getMonthAbbr. rewrite Hin. cbn [PyMore.bind].
  exact (month_number_name _ Hm).
Qed.

Lemma filterByMonthName_selects_witness :
  filterByMonthName ["mth_FWDis_19000131"; "mth_FWDis_19000228";
                     "mth_FWDis_19010131"] "Jan"
  = Returns ["mth_FWDis_19000131"; "mth_FWDis_19010131"]
  /\ exists m, 1 <= m <= 12
       /\ nth_error MonthAbbrs (Z.to_nat (m - 1)) = Some (lower "Jan").
Proof.
  assert (H : filterByMonthName ["mth_FWDis_19000131"; "mth_FWDis_19000228";
                                 "mth_FWDis_19010131"] "Jan"
              = Returns ["mth_FWDis_19000131"; "mth_FWDis_19010131"])
    by reflexivity.
  split; [exact H|].
  destruct (@filterByMonthName_selects _ _ _ H) as (m & H1 & H2 & _).
  exists m. split; assumption.
Defined.

(** The month filters exit on an unknown month, whatever the list, and
    return on a known one when every name carries a date stamp. *)
Theorem month_filters_outcome (FileList : list string) (Month : string)
    (MonthNum : Z) :
  (is_a_Month Month = false ->
   filterByMonthName FileList Month = Raises (Std SystemExit))
  /\ (~ 1 <= MonthNum <= 12 ->
      filterByMonthNum FileList MonthNum = Raises (Std SystemExit))
  /\ ((forall f, In f FileList -> exists d, getYMD f = Returns d) ->
      (is_a_Month Month = true ->
       exists r, filterByMonthName FileList Month = Returns r)
      /\ (1 <= MonthNum <= 12 ->
          exists r, filterByMonthNum FileList MonthNum = Returns r)).
Proof.
  split; [|split].
  - intro H. unfold filterByMonthName. rewrite is_a_Month_lower, H.
    reflexivity.
  - intro H. unfold filterByMonthNum.
    destruct (is_a_MonthNum MonthNum) eqn:E; [|reflexivity].
    apply is_a_MonthNum_true in E. contradiction.
  - intro Hall. split.
    + intro H. unfold filterByMonthName. rewrite is_a_Month_lower, H.
      cbn [negb]. apply is_a_Month_true in H.
      destruct (month_name_known _ H) as [m Hm]. rewrite Hm.
      cbn [PyMore.bind].
      rewrite filterByMonthNum_returns;
        [eexists; reflexivity | | exact Hall].
      exact (proj2 (proj1 (month_tables_agree _ _) Hm)).
    + intro H. rewrite (filterByMonthNum_returns _ H Hall).
      eexists. reflexivity.
Qed.

Lemma month_filters_outcome_witness :
  is_a_Month "Sol" = false
  /\ filterByMonthName [] "Sol" = Raises (Std SystemExit)
  /\ filterByMonthNum [] 13 = Raises (Std SystemExit).
Proof.
  assert (H : is_a_Month "Sol" = false) by reflexivity.
  assert (H' : ~ 1 <= 13 <= 12) by lia.
  split; [exact H|]. split.
  - exact (proj1 (month_filters_outcome [] "Sol" 13) H).
  - exact (proj1 (proj2 (month_filters_outcome [] "Sol" 13)) H').
Defined.

End MonthFilters.

(** ** [filterBySeason] *)

Section Seasons.
Import Py PyMore awapFiles.
Local Open Scope string_scope.
Local Open Scope list_scope.

Lemma seq_split (l1 : list nat) : forall a n x l2,
  seq a n = l1 ++ x :: l2 ->
  x = a + length l1 /\ l1 = seq a (length l1) /\ length l1 < n.
Proof.
  induction l1 as [|y l1 IH]; intros a n x l2 H.
  - destruct n as [|n]; [discriminate|]. simpl in H. injection H as <- _.
    simpl. repeat split; lia.
  - destruct n as [|n]; [discriminate|]. simpl in H. injection H as <- H.
    destruct (IH _ _ _ _ H) as (Hx & Hl & Hn). simpl.
    repeat split; [lia | f_equal; exact Hl | lia].
Qed.

Lemma Sorted_skipn (A : Type) (R : A -> A -> Prop) (n : nat) :
  forall l, Sorted R l -> Sorted R (skipn n l).
Proof.
  induction n as [|n IH]; intros l H; [exact H|].
  destruct l as [|x t]; [constructor|]. simpl. apply IH.
  inversion H; assumption.
Qed.

Lemma Sorted_firstn (A : Type) (R : A -> A -> Prop) (n : nat) :
  forall l, Sorted R l -> Sorted R (firstn n l).
Proof.
  induction n as [|n IH]; intros l H; [constructor|].
  destruct l as [|x t]; [constructor|]. simpl.
  inversion H as [|? ? Ht Hhd]; subst. constructor; [apply IH; exact Ht|].
  destruct n; [constructor|]. destruct Hhd; simpl; constructor. assumption.
Qed.

Lemma chronological_slice (l : list string) (a b : nat) :
  chronological l -> chronological (slice l a b).
Proof.
  intros (dates & Hd & Hs). exists (slice dates a b). split.
  - apply mapM_slice. exact Hd.
  - unfold slice. apply Sorted_firstn, Sorted_skipn. exact Hs.
Qed.

Lemma is_season_run_true (files month_list : list string) (start : nat) :
  is_season_run files month_list start = Returns true ->
  months_are (slice files start (start + 3)) month_list.
Proof.
  unfold is_season_run, months_are.
  destruct (PyMore.mapM getMonthAbbr (slice files start (start + 3)))
    as [run|]; [|discriminate].
  cbn [PyMore.bind]. destruct (list_eq_dec string_dec run month_list);
    [subst; reflexivity | discriminate].
Qed.

Lemma filterByMonthName_incl (FileList r : list string) (Month : string) :
  filterByMonthName FileList Month = Returns r -> incl r FileList.
Proof.
  intro H. destruct (@filterByMonthName_inv _ _ _ H) as (m & _ & Hr).
  destruct (@filterByMonthNum_inv _ _ _ Hr) as (_ & -> & _).
  intros f Hf. apply filter_In in Hf. tauto.
Qed.

(** The steps of [filterBySeason] when it returns. *)
Lemma filterBySeason_inv (FileList r : list string) (SeasonName : string) :
  filterBySeason FileList SeasonName = Returns r ->
  exists month_list per_month files first last,
    seasonToMonths SeasonName = Returns month_list
    /\ PyMore.mapM (fun month => filterByMonthName FileList month) month_list
       = Returns per_month
    /\ sortByDate (concat per_month) = Returns files
    /\ first <= last /\ 1 <= last /\ last + 3 <= length files
    /\ months_are (slice files first (first + 3)) month_list
    /\ months_are (slice files last (last + 3)) month_list
    /\ r = slice files first (last + 3).
Proof.
  unfold filterBySeason. intro H.
  destruct (seasonToMonths SeasonName) as [ml|] eqn:Es; [|discriminate].
  cbn [PyMore.bind] in H.
  destruct (PyMore.mapM (fun month => filterByMonthName FileList month) ml)
    as [per_month|] eqn:Ep; [|discriminate].
  cbn [PyMore.bind] in H.
  destruct (sortByDate (concat per_month)) as [files|] eqn:Esort;
    [|discriminate].
  cbn [PyMore.bind] in H.
  destruct (first_passing (is_season_run files ml)
                          (seq 0 (length files - 3))) as [fo|] eqn:E1;
    [|discriminate].
  cbn [PyMore.bind] in H.
  destruct (first_passing
              (fun backset => is_season_run files ml (length files - backset))
              (seq 3 (length files - 3))) as [fb|] eqn:E2; [|discriminate].
  cbn [PyMore.bind] in H.
  destruct fo as [o|]; [|discriminate]. cbn [local PyMore.bind] in H.
  destruct fb as [b|]; [|discriminate].
  cbn [local option_map PyMore.bind] in H. injection H as <-.
  destruct (@first_passing_found _ _ _ _ E1) as (l1 & l2 & Hseq1 & Ho & Hbefore).
  destruct (@first_passing_found _ _ _ _ E2) as (k1 & k2 & Hseq2 & Hb & _).
  destruct (@seq_split _ _ _ _ _ Hseq1) as (Hox & Hl1 & Hlen1).
  destruct (@seq_split _ _ _ _ _ Hseq2) as (Hbx & _ & Hlen2).
  simpl in Hox.
  assert (Hle : o <= length files - b).
  { destruct (le_lt_dec o (length files - b)) as [C|C]; [exact C|].
    exfalso. rewrite Forall_forall in Hbefore.
    assert (Hin : In (length files - b) l1).
    { rewrite Hl1. apply in_seq. lia. }
    specialize (Hbefore _ Hin). rewrite Hb in Hbefore. discriminate. }
  exists ml, per_month, files, o, (length files - b).
  repeat split; try assumption; try lia.
  - apply is_season_run_true. exact Ho.
  - apply is_season_run_true. exact Hb.
Qed.

Lemma slice_head (A : Type) (l : list A) (a b : nat) :
  a + 3 <= b -> firstn 3 (slice l a b) = slice l a (a + 3).
Proof.
  intro H. unfold slice. rewrite firstn_firstn.
  replace (Nat.min 3 (b - a)) with 3 by lia.
  replace (a + 3 - a) with 3 by lia. reflexivity.
Qed.

Lemma slice_tail (A : Type) (l : list A) (a b : nat) :
  a + 3 <= b -> b <= length l ->
  skipn (length (slice l a b) - 3) (slice l a b) = slice l (b - 3) b.
Proof.
  intros H Hb. rewrite slice_length by exact Hb. unfold slice.
  rewrite skipn_firstn_comm, skipn_skipn.
  replace (b - a - (b - a - 3)) with 3 by lia.
  replace (b - (b - 3)) with 3 by lia.
  replace (b - a - 3 + a) with (b - 3) by lia. reflexivity.
Qed.

Lemma concat_incl (A : Type) (ls : list (list A)) (l : list A) :
  (forall x, In x ls -> incl x l) -> incl (concat ls) l.
Proof.
  intros H y Hy. apply in_concat in Hy. destruct Hy as [x [Hx Hyx]].
  exact (H x Hx y Hyx).
Qed.

Lemma seasonToMonths_inv (SeasonStr : string) (month_list : list string) :
  seasonToMonths SeasonStr = Returns month_list ->
  In (lower SeasonStr, month_list) SeasonDict.
Proof.
  unfold seasonToMonths, is_a_Season.
  destruct (contains SeasonAbbrs (lower SeasonStr)) eqn:E; [|discriminate].
  apply contains_In in E. unfold SeasonAbbrs in E.
  repeat (destruct E as [<-|E];
          [intro H; vm_compute in H; injection H as <-;
           unfold SeasonDict; simpl; tauto|]).
  destruct E.
Qed.

Lemma seasonToMonths_returns (SeasonStr : string) :
  is_a_Season SeasonStr = true ->
  exists month_list, seasonToMonths SeasonStr = Returns month_list.
Proof.
  intro H. unfold seasonToMonths. rewrite H. unfold is_a_Season in H.
  destruct (contains SeasonAbbrs (lower SeasonStr)) eqn:E; [|discriminate].
  apply contains_In in E. unfold SeasonAbbrs in E.
  repeat (destruct E as [<-|E]; [eexists; reflexivity|]). destruct E.
Qed.

(** The three months of a season have three different numbers. *)
Lemma season_months (s : string) (month_list : list string) :
  In (s, month_list) SeasonDict ->
  exists a b c ma mb mc,
    month_list = [a; b; c]
    /\ getitem_str MonthAbbrToNum (lower a) = Returns ma
    /\ getitem_str MonthAbbrToNum (lower b) = Returns mb
    /\ getitem_str MonthAbbrToNum (lower c) = Returns mc
    /\ ma <> mb /\ ma <> mc /\ mb <> mc.
Proof.
  unfold SeasonDict. intro H.
  repeat (destruct H as [H|H];
          [injection H as <- <-; do 6 eexists;
           repeat split; try reflexivity; discriminate|]).
  destruct H.
Qed.

Lemma three_filters (m1 m2 m3 : Z) (l : list string) :
  m1 <> m2 -> m1 <> m3 -> m2 <> m3 ->
  length (filter (in_month m1) l ++ filter (in_month m2) l
          ++ filter (in_month m3) l) <= length l.
Proof.
  intros H12 H13 H23. rewrite !length_app.
  induction l as [|x t IH]; [simpl; lia|]. cbn [filter].
  destruct (in_month m1 x) eqn:E1, (in_month m2 x) eqn:E2,
           (in_month m3 x) eqn:E3;
    try apply in_month_true in E1; try apply in_month_true in E2;
    try apply in_month_true in E3; try congruence; simpl; lia.
Qed.

Lemma filterByMonthName_at (FileList r : list string) (Month : string)
    (m : Z) :
  getitem_str MonthAbbrToNum (lower Month) = Returns m ->
  filterByMonthName FileList Month = Returns r ->
  r = filter (in_month m) FileList.
Proof.
  intros Hm H. destruct (@filterByMonthName_inv _ _ _ H) as (m' & Hm' & Hr).
  rewrite Hm in Hm'. injection Hm' as <-.
  exact (proj1 (proj2 (@filterByMonthNum_inv _ _ _ Hr))).
Qed.

Lemma filterByMonthName_returns (FileList : list string) (Month : string)
    (m : Z) :
  getitem_str MonthAbbrToNum (lower Month) = Returns m ->
  (forall f, In f FileList -> exists d, getYMD f = Returns d) ->
  filterByMonthName FileList Month
  = Returns (filter (in_month m) FileList).
Proof.
  intros Hm Hall. unfold filterByMonthName.
  pose proof (proj1 (@month_tables_agree _ _) Hm) as [Hnth Hrange].
  assert (Hc : is_a_Month (lower Month) = true).
  { rewrite is_a_Month_lower. apply is_a_Month_true, contains_In.
    exact (@nth_error_In _ _ _ _ Hnth). }
  rewrite Hc, Hm. cbn [negb PyMore.bind].
  exact (@filterByMonthNum_returns _ _ Hrange Hall).
Qed.

Lemma season_files_length (FileList : list string) (SeasonName : string)
    (month_list : list string) (per_month : list (list string)) :
  seasonToMonths SeasonName = Returns month_list ->
  PyMore.mapM (fun month => filterByMonthName FileList month) month_list
  = Returns per_month ->
  length (concat per_month) <= length FileList.
Proof.
  intros Hs Hp. apply (@seasonToMonths_inv SeasonName month_list) in Hs.
  destruct (@season_months _ _ Hs)
    as (a & b & c & ma & mb & mc & -> & Ha & Hb & Hc & Hab & Hac & Hbc).
  cbn [PyMore.mapM] in Hp.
  destruct (filterByMonthName FileList a) as [ra|] eqn:Ea; [|discriminate].
  destruct (filterByMonthName FileList b) as [rb|] eqn:Eb; [|discriminate].
  destruct (filterByMonthName FileList c) as [rc|] eqn:Ec; [|discriminate].
  cbn [PyMore.bind] in Hp. injection Hp as <-.
  rewrite (@filterByMonthName_at _ _ _ _ Ha Ea), (@filterByMonthName_at _ _ _ _ Hb Eb),
    (@filterByMonthName_at _ _ _ _ Hc Ec).
  cbn [concat]. rewrite app_nil_r.
  exact (@three_filters _ _ _ FileList Hab Hac Hbc).
Qed.

Lemma filterBySeason_keeps (FileList r : list string) (SeasonName : string) :
  filterBySeason FileList SeasonName = Returns r ->
  incl r FileList /\ chronological r.
Proof.
  intro H.
  destruct (@filterBySeason_inv _ _ _ H)
    as (ml & per_month & files & o & p & _ & Hp & Hsort & _ & _ & _ & _ & _
        & ->).
  destruct (@sortByDate_dates _ _ Hsort) as [Hperm Hchron]. split.
  - intros f Hf. apply (@In_slice _ _ _ _ _) in Hf.
    apply (Permutation_in _ (Permutation_sym Hperm)) in Hf.
    revert f Hf. apply concat_incl. intros x Hx.
    destruct (@mapM_image _ _ _ _ _ Hp x Hx) as [month [_ Hm]].
    exact (@filterByMonthName_incl _ _ _ Hm).
  - apply chronological_slice. exact Hchron.
Qed.

(** What [filterBySeason] returns begins with a complete run of the
    season's three months and ends with one: it holds at least three
    names, all from the list, in the order of their dates, the months
    of its first three names and of its last three names are the months
    of the season in order, and the list held at least four names of
    the season's months. *)
Theorem filterBySeason_complete_runs (FileList r : list string)
    (SeasonName : string) :
  filterBySeason FileList SeasonName = Returns r ->
  exists month_list,
    seasonToMonths SeasonName = Returns month_list
    /\ 3 <= length r
    /\ months_are (firstn 3 r) month_list
    /\ months_are (skipn (length r - 3) r) month_list
    /\ incl r FileList
    /\ chronological r
    /\ 4 <= length FileList.
Proof.
  intro H. destruct (@filterBySeason_keeps _ _ _ H) as [Hincl Hchron].
  destruct (@filterBySeason_inv _ _ _ H)
    as (ml & per_month & files & o & p & Hs & Hp & Hsort & Hop & Hp1 & Hlen
        & Hfirst & Hlast & Hr).
  exists ml. split; [exact Hs|].
  split; [|split; [|split; [|split; [exact Hincl|split; [exact Hchron|]]]]].
  - rewrite Hr, slice_length by lia. lia.
  - rewrite Hr, slice_head by lia. exact Hfirst.
  - rewrite Hr, slice_tail by lia.
    replace (p + 3 - 3) with p by lia. exact Hlast.
  - pose proof (Permutation_length (proj1 (@sortByDate_dates _ _ Hsort)))
      as Hl.
    pose proof (@season_files_length FileList SeasonName ml per_month Hs Hp).
    lia.
Qed.

Lemma sortByDate_returns (FileList : list string) :
  (forall f, In f FileList -> exists d, getYMD f = Returns d) ->
  exists r, sortByDate FileList = Returns r.
Proof.
  intro H. unfold sortByDate, sorted_by_key.
  destruct (mapM_returns_all getYMD FileList H) as [keys ->].
  eexists. reflexivity.
Qed.

Lemma filterBySeason_nil (SeasonName : string) :
  is_a_Season SeasonName = true ->
  filterBySeason [] SeasonName = Raises UnboundLocalError.
Proof.
  intro Hseason.
  destruct (@seasonToMonths_returns _ Hseason) as [ml Hs].
  pose proof (@seasonToMonths_inv _ _ Hs) as Hin.
  unfold filterBySeason. rewrite Hs. cbn [PyMore.bind].
  unfold SeasonDict in Hin.
  repeat (destruct Hin as [Hin|Hin]; [injection Hin as _ <-; reflexivity|]).
  destruct Hin.
Qed.

(** A list of at most three names never gives a season: for a known
    season and names that all carry a date stamp, [filterBySeason]
    fails reading a variable its loops did not set, also when the
    three names are the three months of the season. *)
Theorem filterBySeason_short_list (FileList : list string)
    (SeasonName : string) :
  length FileList <= 3 ->
  is_a_Season SeasonName = true ->
  (forall f, In f FileList -> exists d, getYMD f = Returns d) ->
  filterBySeason FileList SeasonName = Raises UnboundLocalError.
Proof.
  intros Hlen Hseason Hall.
  destruct (@seasonToMonths_returns _ Hseason) as [ml Hs].
  pose proof (@seasonToMonths_inv _ _ Hs) as Hin.
  destruct (@season_months _ _ Hin)
    as (a & b & c & ma & mb & mc & -> & Ha & Hb & Hc & Hab & Hac & Hbc).
  unfold filterBySeason. rewrite Hs. cbn [PyMore.bind PyMore.mapM].
  rewrite (@filterByMonthName_returns FileList _ _ Ha Hall),
    (@filterByMonthName_returns FileList _ _ Hb Hall),
    (@filterByMonthName_returns FileList _ _ Hc Hall).
  cbn [PyMore.bind concat]. rewrite app_nil_r.
  pose proof (@three_filters _ _ _ FileList Hab Hac Hbc) as Hthree.
  destruct (@sortByDate_returns
              (filter (in_month ma) FileList ++ filter (in_month mb) FileList
               ++ filter (in_month mc) FileList)) as [files Hsort].
  { intros f Hf. apply Hall.
    repeat (apply in_app_or in Hf; destruct Hf as [Hf|Hf];
            [apply filter_In in Hf; tauto|]).
    apply filter_In in Hf. tauto. }
  rewrite Hsort. cbn [PyMore.bind].
  pose proof (Permutation_length (proj1 (@sortByDate_dates _ _ Hsort))) as Hl.
  replace (length files - 3) with 0 by lia. reflexivity.
Qed.

Lemma filterBySeason_short_list_witness :
  filterBySeason ["mth_FWDis_19000331"; "mth_FWDis_19000430";
                  "mth_FWDis_19000531"] "MAM"
  = Raises UnboundLocalError.
Proof.
  apply filterBySeason_short_list.
  - simpl. lia.
  - reflexivity.
  - intros f [<-|[<-|[<-|[]]]]; eexists; reflexivity.
Defined.

Lemma filterBySeason_complete_runs_witness :
  filterBySeason ["mth_FWDis_19000228"; "mth_FWDis_19000331";
                  "mth_FWDis_19000430"; "mth_FWDis_19000531";
                  "mth_FWDis_19010331"; "mth_FWDis_19010430";
                  "mth_FWDis_19010531"; "mth_FWDis_19020331"] "mam"
  = Returns ["mth_FWDis_19000331"; "mth_FWDis_19000430";
             "mth_FWDis_19000531"; "mth_FWDis_19010331";
             "mth_FWDis_19010430"; "mth_FWDis_19010531"]
  /\ exists month_list,
       seasonToMonths "mam" = Returns month_list
       /\ months_are ["mth_FWDis_19000331"; "mth_FWDis_19000430";
                      "mth_FWDis_19000531"] month_list.
Proof.
  assert (H : filterBySeason
                ["mth_FWDis_19000228"; "mth_FWDis_19000331";
                 "mth_FWDis_19000430"; "mth_FWDis_19000531";
                 "mth_FWDis_19010331"; "mth_FWDis_19010430";
                 "mth_FWDis_19010531"; "mth_FWDis_19020331"] "mam"
              = Returns ["mth_FWDis_19000331"; "mth_FWDis_19000430";
                         "mth_FWDis_19000531"; "mth_FWDis_19010331";
                         "mth_FWDis_19010430"; "mth_FWDis_19010531"])
    by reflexivity.
  split; [exact H|].
  destruct (@filterBySeason_complete_runs _ _ _ H) as (ml & H1 & _ & H2 & _).
  exists ml. split; [exact H1 | exact H2].
Defined.

End Seasons.

(** ** The time axis of a data cube *)

Section TimeAxis.
Import Py PyMore awapFiles dataCube.
Local Open Scope string_scope.
Local Open Scope list_scope.
Local Open Scope Z_scope.

Lemma mapM_filter_sorted (A : Type) (g : A -> outcome Z) (p : A -> bool)
    (l : list A) : forall ds,
  PyMore.mapM g l = Returns ds -> StronglySorted Z.le ds ->
  exists ds', PyMore.mapM g (filter p l) = Returns ds'
              /\ StronglySorted Z.le ds' /\ incl ds' ds.
Proof.
  induction l as [|x t IH]; intros ds H Hs.
  - injection H as <-. exists []. repeat split; [constructor | intros y []].
  - simpl in H. destruct (g x) as [d|] eqn:Ex; [|discriminate].
    cbn [PyMore.bind] in H.
    destruct (PyMore.mapM g t) as [dt|] eqn:Et; [|discriminate].
    cbn [PyMore.bind] in H. injection H as <-.
    inversion Hs as [|? ? Hst Hall]; subst.
    destruct (IH dt eq_refl Hst) as (ds' & H1 & H2 & H3).
    cbn [filter]. destruct (p x).
    + exists (d :: ds'). cbn [PyMore.mapM]. rewrite Ex. cbn [PyMore.bind].
      rewrite H1. cbn [PyMore.bind]. repeat split.
      * constructor; [exact H2|]. rewrite Forall_forall in *.
        intros y Hy. apply Hall, H3, Hy.
      * intros y [<-|Hy]; [left; reflexivity | right; apply H3, Hy].
    + exists ds'. repeat split; [exact H1 | exact H2|].
      intros y Hy. right. apply H3, Hy.
Qed.

Lemma chronological_filter (p : string -> bool) (l : list string) :
  chronological l -> chronological (filter p l).
Proof.
  intros (dates & Hd & Hs).
  apply (Sorted_StronglySorted Z.le_trans) in Hs.
  destruct (@mapM_filter_sorted _ getDate p l dates Hd Hs)
    as (ds' & H1 & H2 & _).
  exists ds'. split; [exact H1 | apply StronglySorted_Sorted; exact H2].
Qed.

Lemma mapM_app (A B : Type) (f : A -> outcome B) (l1 l2 : list A)
    (r1 r2 : list B) :
  PyMore.mapM f l1 = Returns r1 -> PyMore.mapM f l2 = Returns r2 ->
  PyMore.mapM f (l1 ++ l2) = Returns (r1 ++ r2).
Proof.
  intros H1 H2. apply mapM_Forall2. apply Forall2_app; apply mapM_Forall2;
    assumption.
Qed.

Lemma mapM_rev (A B : Type) (f : A -> outcome B) (l : list A) : forall r,
  PyMore.mapM f l = Returns r -> PyMore.mapM f (rev l) = Returns (rev r).
Proof.
  induction l as [|x t IH]; intros r H.
  - injection H as <-. reflexivity.
  - simpl in H. destruct (f x) as [y|] eqn:Ex; [|discriminate].
    cbn [PyMore.bind] in H.
    destruct (PyMore.mapM f t) as [ys|] eqn:Et; [|discriminate].
    cbn [PyMore.bind] in H. injection H as <-. cbn [rev].
    apply mapM_app; [apply IH; reflexivity|].
    cbn [PyMore.mapM]. rewrite Ex. reflexivity.
Qed.

Lemma sorted_bounds (x : Z) (mid : list Z) (y : Z) :
  Sorted Z.le (x :: mid ++ [y]) ->
  Forall (fun t => x <= t <= y) (x :: mid ++ [y]).
Proof.
  intro H. apply (Sorted_StronglySorted Z.le_trans) in H.
  inversion H as [|? ? Hs Hx]; subst.
  assert (Hy : Forall (fun t => t <= y) (mid ++ [y])).
  { clear Hx H. induction mid as [|m mid IH]; simpl in *.
    - constructor; [lia | constructor].
    - inversion Hs as [|? ? Hs' Hm]; subst. constructor; [|apply IH, Hs'].
      rewrite Forall_forall in Hm. apply Hm, in_or_app. right. left.
      reflexivity. }
  rewrite Forall_forall in Hx, Hy.
  apply Forall_forall. intros t [<-|Ht].
  - split; [lia|]. apply Hx, in_or_app. right. left. reflexivity.
  - split; [apply Hx, Ht | apply Hy, Ht].
Qed.

Lemma cycle_filter_keeps (files fs : list string)
    (CycleFilter : option string) :
  chronological files ->
  match CycleFilter with
  | None => Returns files
  | Some CycleFilter =>
      if is_a_Month CycleFilter || is_a_Season CycleFilter then
        if is_a_Month CycleFilter
        then filterByMonthName files CycleFilter
        else filterBySeason files CycleFilter
      else Returns files
  end = Returns fs ->
  chronological fs /\ incl fs files.
Proof.
  intros Hc H. destruct CycleFilter as [c|].
  - destruct (is_a_Month c || is_a_Season c).
    + destruct (is_a_Month c).
      * destruct (@filterByMonthName_inv _ _ _ H) as (m & _ & Hr).
        destruct (@filterByMonthNum_inv _ _ _ Hr) as (_ & -> & _). split.
        -- apply chronological_filter. exact Hc.
        -- intros f Hf. apply filter_In in Hf. tauto.
      * destruct (@filterBySeason_keeps _ _ _ H) as [Hi Hch].
        split; assumption.
    + injection H as <-. split; [exact Hc | apply incl_refl].
  - injection H as <-. split; [exact Hc | apply incl_refl].
Qed.

(** The steps of [DataCube_time_axis] when it returns. *)
Lemma DataCube_time_axis_inv (FileList : list string)
    (StartDate EndDate : option Z) (CycleFilter : option string)
    (ax : TimeAxis) :
  DataCube_time_axis FileList StartDate EndDate CycleFilter = Returns ax ->
  exists first_date last_date ranged first_file last_file,
    getEarliestDate FileList = Returns first_date
    /\ getLatestDate FileList = Returns last_date
    /\ filterByDateRange FileList
         (match StartDate with None => first_date | Some d => d end)
         (match EndDate with None => last_date | Some d => d end)
       = Returns ranged
    /\ match CycleFilter with
       | None => Returns ranged
       | Some CycleFilter =>
           if is_a_Month CycleFilter || is_a_Season CycleFilter then
             if is_a_Month CycleFilter
             then filterByMonthName ranged CycleFilter
             else filterBySeason ranged CycleFilter
           else Returns ranged
       end = Returns (sample_files ax)
    /\ first_item (sample_files ax) = Returns first_file
    /\ getDate first_file = Returns (start_date ax)
    /\ last_item (sample_files ax) = Returns last_file
    /\ getDate last_file = Returns (end_date ax)
    /\ PyMore.mapM getDate (sample_files ax) = Returns (times ax).
Proof.
  unfold DataCube_time_axis. intro H.
  destruct (getEarliestDate FileList) as [first_date|]; [|discriminate].
  cbn [PyMore.bind] in H.
  destruct (getLatestDate FileList) as [last_date|]; [|discriminate].
  cbn [PyMore.bind] in H.
  destruct (filterByDateRange FileList _ _) as [ranged|] eqn:Er;
    [|discriminate].
  cbn [PyMore.bind] in H.
  destruct (sortByDate ranged) as [sorted|] eqn:Es; [|discriminate].
  cbn [PyMore.bind] in H.
  assert (Hsame : sorted = ranged).
  { destruct (@filterByDateRange_inv _ _ _ _ Er) as [_ Hs].
    pose proof (@sortByDate_again _ _ Hs) as Hagain.
    rewrite Hagain in Es. injection Es as <-. reflexivity. }
  subst sorted.
  match type of H with
  | PyMore.bind ?c _ = _ => destruct c as [fs|] eqn:Ec; [|discriminate]
  end.
  cbn [PyMore.bind] in H.
  destruct (first_item fs) as [f0|] eqn:E0; [|discriminate].
  cbn [PyMore.bind] in H.
  destruct (getDate f0) as [d0|] eqn:Ed0; [|discriminate].
  cbn [PyMore.bind] in H.
  destruct (last_item fs) as [f1|] eqn:E1; [|discriminate].
  cbn [PyMore.bind] in H.
  destruct (getDate f1) as [d1|] eqn:Ed1; [|discriminate].
  cbn [PyMore.bind] in H.
  destruct (PyMore.mapM getDate fs) as [ts|] eqn:Et; [|discriminate].
  cbn [PyMore.bind] in H. injection H as <-. cbn [sample_files start_date
    end_date times].
  exists first_date, last_date, ranged, f0, f1.
  repeat split; assumption.
Qed.

Lemma first_item_inv (A : Type) (l : list A) (x : A) :
  first_item l = Returns x -> exists t, l = x :: t.
Proof.
  destruct l as [|y t]; [discriminate|]. intro H. injection H as <-.
  exists t. reflexivity.
Qed.

Lemma ranged_chronological (FileList ranged : list string) (s e : Z) :
  filterByDateRange FileList s e = Returns ranged ->
  chronological ranged /\ incl ranged FileList.
Proof.
  intro H. destruct (@filterByDateRange_inv _ _ _ _ H) as [_ Hs].
  destruct (@sortByDate_dates _ _ Hs) as [Hp Hd]. split; [exact Hd|].
  intros f Hf. apply (Permutation_in _ (Permutation_sym Hp)) in Hf.
  apply filter_In in Hf. tauto.
Qed.

(** The files and times a data cube is built from: the files are names
    of the list, there is at least one, the times are their dates in
    the same order and never decrease, the start date is the first time
    and the end date the last, and every time lies between them. *)
Theorem DataCube_time_axis_ordered (FileList : list string)
    (StartDate EndDate : option Z) (CycleFilter : option string)
    (ax : TimeAxis) :
  DataCube_time_axis FileList StartDate EndDate CycleFilter = Returns ax ->
  incl (sample_files ax) FileList
  /\ PyMore.mapM getDate (sample_files ax) = Returns (times ax)
  /\ Sorted Z.le (times ax)
  /\ hd_error (times ax) = Some (start_date ax)
  /\ (exists front, times ax = front ++ [end_date ax])
  /\ Forall (fun t => start_date ax <= t <= end_date ax) (times ax).
Proof.
  intro H.
  destruct (@DataCube_time_axis_inv _ _ _ _ _ H)
    as (s & e & ranged & f0 & f1 & _ & _ & Hr & Hc & H0 & Hd0 & H1 & Hd1 & Ht).
  destruct (@ranged_chronological _ _ _ _ Hr) as [Hchron Hincl].
  destruct (@cycle_filter_keeps _ _ _ Hchron Hc) as [(ts & Hts & Hsorted) Hin].
  rewrite Ht in Hts. injection Hts as <-.
  assert (Hhd : hd_error (times ax) = Some (start_date ax)).
  { destruct (@first_item_inv _ _ _ H0) as [t Hl]. rewrite Hl in Ht.
    cbn [PyMore.mapM] in Ht. rewrite Hd0 in Ht. cbn [PyMore.bind] in Ht.
    destruct (PyMore.mapM getDate t); [|discriminate].
    injection Ht as <-. reflexivity. }
  assert (Hlast : exists front, times ax = front ++ [end_date ax]).
  { unfold last_item in H1. destruct (@first_item_inv _ _ _ H1) as [t Hl].
    pose proof (@mapM_rev _ _ getDate _ _ Ht) as Hrev. rewrite Hl in Hrev.
    cbn [PyMore.mapM] in Hrev. rewrite Hd1 in Hrev.
    cbn [PyMore.bind] in Hrev.
    destruct (PyMore.mapM getDate t) as [dt|]; [|discriminate].
    injection Hrev as Hrev. exists (rev dt).
    rewrite <- (rev_involutive (times ax)), <- Hrev. reflexivity. }
  repeat split; try assumption.
  - intros f Hf. apply Hincl, Hin, Hf.
  - destruct Hlast as [front Hfront]. rewrite Hfront in *.
    destruct front as [|x mid].
    + injection Hhd as ->. constructor; [lia | constructor].
    + injection Hhd as ->. apply sorted_bounds. exact Hsorted.
Qed.

Lemma DataCube_time_axis_ordered_witness :
  DataCube_time_axis ["mth_FWDis_19000331"; "mth_FWDis_19000131";
                      "mth_FWDis_19010131"; "mth_FWDis_19000228"]
                     None None (Some "Jan")
  = Returns {| sample_files := ["mth_FWDis_19000131"; "mth_FWDis_19010131"];
               start_date := 19000131;
               end_date := 19010131;
               times := [19000131; 19010131] |}
  /\ Sorted Z.le [19000131; 19010131].
Proof.
  assert (H : DataCube_time_axis
                ["mth_FWDis_19000331"; "mth_FWDis_19000131";
                 "mth_FWDis_19010131"; "mth_FWDis_19000228"]
                None None (Some "Jan")
              = Returns {| sample_files := ["mth_FWDis_19000131";
                                            "mth_FWDis_19010131"];
                           start_date := 19000131;
                           end_date := 19010131;
                           times := [19000131; 19010131] |})
    by reflexivity.
  split; [exact H|].
  exact (proj1 (proj2 (proj2 (@DataCube_time_axis_ordered _ _ _ _ _ H)))).
Defined.

(** With no dates and no cycle filter given, the cube takes every name
    of the list when all days are at least 1; a name of the earliest
    date whose day is 00 is left out, because the default start date is
    day 1 of its month. *)
Theorem DataCube_default_range (FileList : list string) (ax : TimeAxis) :
  DataCube_time_axis FileList None None None = Returns ax ->
  ((forall f d, In f FileList -> getDate f = Returns d -> 1 <= d mod 100) ->
   Permutation FileList (sample_files ax))
  /\ (forall f d, In f FileList -> getDate f = Returns d ->
        d mod 100 = 0 ->
        (forall f' d', In f' FileList -> getDate f' = Returns d' -> d <= d') ->
        ~ In f (sample_files ax)).
Proof.
  intro H.
  destruct (@DataCube_time_axis_inv _ _ _ _ _ H)
    as (s & e & ranged & f0 & f1 & Hs & He & Hr & Hc & _).
  injection Hc as Hc. rewrite <- Hc.
  destruct (@filterByDateRange_inv _ _ _ _ Hr) as [Hall Hsort].
  split.
  - intro Hdays. rewrite filter_all in Hsort.
    + exact (proj1 (@sortByDate_dates _ _ Hsort)).
    + intros f Hf. destruct (Hall f Hf) as [d Hd].
      apply in_date_range_true. exists d. split; [exact Hd|]. split.
      * exact (@earliest_bounds _ _ Hs f d Hf Hd (Hdays f d Hf Hd)).
      * exact (@latest_bounds _ _ He f d Hf Hd).
  - intros f d Hf Hd Hzero Hmin Hin.
    apply (Permutation_in _ (Permutation_sym
                               (proj1 (@sortByDate_dates _ _ Hsort)))) in Hin.
    apply filter_In in Hin. destruct Hin as [_ Hin].
    apply in_date_range_true in Hin. destruct Hin as (d' & Hd' & Hlo & _).
    rewrite Hd in Hd'. injection Hd' as <-.
    destruct (@getEarliestDate_inv _ _ Hs) as (dates & m & Hdates & Hm & ->).
    destruct (@min_of_spec _ _ Hm) as [Hmin_in Hmin_all].
    destruct (@mapM_image _ _ _ _ _ Hdates m Hmin_in) as [fm [Hfm Hdm]].
    pose proof (Hmin fm m Hfm Hdm) as Hle.
    destruct (@mapM_all_return _ _ _ _ _ Hdates f Hf) as [d'' [E Hin'']].
    rewrite Hd in E. injection E as <-.
    rewrite Forall_forall in Hmin_all. pose proof (Hmin_all d Hin'').
    assert (m = d) by lia. subst m. lia.
Qed.

Lemma DataCube_default_range_witness :
  DataCube_time_axis ["mth_FWDis_19000228"; "mth_FWDis_19000131"]
                     None None None
  = Returns {| sample_files := ["mth_FWDis_19000131"; "mth_FWDis_19000228"];
               start_date := 19000131;
               end_date := 19000228;
               times := [19000131; 19000228] |}
  /\ Permutation ["mth_FWDis_19000228"; "mth_FWDis_19000131"]
                 ["mth_FWDis_19000131"; "mth_FWDis_19000228"].
Proof.
  assert (H : DataCube_time_axis
                ["mth_FWDis_19000228"; "mth_FWDis_19000131"] None None None
              = Returns {| sample_files := ["mth_FWDis_19000131";
                                            "mth_FWDis_19000228"];
                           start_date := 19000131;
                           end_date := 19000228;
                           times := [19000131; 19000228] |})
    by reflexivity.
  split; [exact H|].
  apply (proj1 (@DataCube_default_range _ _ H)).
  intros f d [<-|[<-|[]]] Hd; vm_compute in Hd; injection Hd as <-;
    vm_compute; discriminate.
Defined.

Lemma filter_none (A : Type) (p : A -> bool) (l : list A) :
  (forall x, In x l -> p x = false) -> filter p l = [].
Proof.
  induction l as [|x t IH]; intro H; [reflexivity|]. simpl.
  rewrite (H x (or_introl eq_refl)). apply IH.
  intros z Hz. apply H. right. exact Hz.
Qed.

(** The cube cannot be built from nothing: an empty list of names
    fails with the [ValueError] of [min]; dates given the wrong way
    round select no name, and the constructor then fails reading the
    first name with an [IndexError], or, under a season filter, inside
    [filterBySeason] reading a variable that was never set. *)
Theorem DataCube_time_axis_empty (FileList : list string)
    (StartDate EndDate : option Z) (CycleFilter : option string) :
  (FileList = [] ->
   DataCube_time_axis FileList StartDate EndDate CycleFilter
   = Raises (Std ValueError))
  /\ (forall s e, StartDate = Some s -> EndDate = Some e -> e < s ->
        FileList <> [] ->
        (forall f, In f FileList -> exists d, getYMD f = Returns d) ->
        DataCube_time_axis FileList StartDate EndDate CycleFilter
        = Raises (match CycleFilter with
                  | None => Std IndexError
                  | Some c => if negb (is_a_Month c) && is_a_Season c
                              then UnboundLocalError
                              else Std IndexError
                  end)).
Proof.
  split.
  - intros ->. reflexivity.
  - intros s e -> -> Hes Hne Hall.
    destruct (@date_range_returns FileList Hne Hall) as (s0 & e0 & Hs & He).
    unfold DataCube_time_axis. rewrite Hs, He. cbn [PyMore.bind].
    unfold filterByDateRange. rewrite filterM_returns.
    + rewrite filter_none.
      * cbn [PyMore.bind]. change (sorted_by_key getYMD []) with
          (@Returns (list string) []). cbn [PyMore.bind].
        change (sortByDate []) with (@Returns (list string) []).
        cbn [PyMore.bind].
        destruct CycleFilter as [c|]; [|reflexivity].
        destruct (is_a_Month c) eqn:Em; cbn [orb negb andb].
        -- apply is_a_Month_true in Em.
           destruct (@month_name_known _ Em) as [m Hm].
           rewrite (@filterByMonthName_returns [] c m Hm);
             [reflexivity | intros f []].
        -- destruct (is_a_Season c) eqn:Ese; [|reflexivity].
           rewrite (@filterBySeason_nil c Ese). reflexivity.
      * intros f _. rewrite passes_date_range.
        destruct (in_date_range s e f) eqn:E; [|reflexivity].
        apply in_date_range_true in E. destruct E as (d & _ & Hd). lia.
    + intros f Hf. destruct (Hall f Hf) as [d Hd].
      rewrite (@getDate_stamp _ _ Hd). eexists. reflexivity.
Qed.

Lemma DataCube_time_axis_empty_witness :
  DataCube_time_axis ["mth_FWDis_19000131"] (Some 19010101) (Some 19000101)
                     (Some "djf")
  = Raises UnboundLocalError.
Proof.
  apply (proj2 (DataCube_time_axis_empty ["mth_FWDis_19000131"]
                  (Some 19010101) (Some 19000101) (Some "djf"))
               19010101 19000101 eq_refl eq_refl).
  - lia.
  - discriminate.
  - intros f [<-|[]]. eexists. reflexivity.
Defined.

End TimeAxis.
